(** * User / Post microservices: the user-event replication protocol

    A shallow embedding of
      - user-microservice/controller/userController.js  (the validators,
        signin, signup, getUserById, deleteUser) and
        user-microservice/utils/rabbitmq.js (connectQueue, publishMessage),
      - post-microservice/utils/rabbitmq.js (connectQueue, consumeMessages)
        and post-microservice/utils/consumer.js (handleUserEvent),
      - the route tables of routes/userRoutes.js and routes/postRoutes.js,
    together with the theorems that relate them to the written specification
    and further properties of the code.

    Strings are sequences of characters with codes below 256. *)

From Stdlib Require Import Ascii.
From stdpp Require Import base strings list gmap.

(** ** JavaScript values, in a message and in a request body *)

Module Js.

(** How a call ends: it returns a value or throws. *)
Inductive Completion (E A : Type) :=
| Returned (a : A)
| Threw (e : E).
Arguments Returned {E A} a.
Arguments Threw {E A} e.

(** The own properties of an object whose members are strings, in the order
    of the object literal. *)
Fixpoint get (o : list (string * string)) (key : string) : option string :=
  match o with
  | [] => None
  | (k, v) :: rest => if String.eqb k key then Some v else get rest key
  end.

(** What [JSON.parse] can return: [null], a number / boolean / string
    ([JScalar]), or an object.  The members of an object are strings, as in
    every message the publisher builds; members of other types are not
    modelled. *)
Inductive Json :=
| JNull
| JScalar
| JObject (members : list (string * string)).

(** Reading [v.key]; [None] is [undefined].  Not defined on [null], where
    JavaScript throws; callers test for [JNull] first. *)
Definition prop (v : Json) (key : string) : option string :=
  match v with
  | JObject o => get o key
  | _ => None
  end.

(** The bytes of a message body: either the JSON text of a value or bytes
    that are no JSON text at all. *)
Inductive Buffer :=
| Text (v : Json)
| Garbage (raw : string).

(** [Buffer.from(JSON.stringify(message))] *)
Definition JSON_stringify (message : list (string * string)) : Buffer :=
  Text (JObject message).

(** [JSON.parse(message.content.toString())]; [None] is the SyntaxError. *)
Definition JSON_parse (content : Buffer) : option Json :=
  match content with
  | Text v => Some v
  | Garbage _ => None
  end.

(** What a request body holds under a name: any JSON value, or nothing.  A
    number is given by what [String] makes of it. *)
#[local] Unset Elimination Schemes.
Inductive Value :=
| VUndefined
| VNull
| VBool (b : bool)
| VNumber (shown : string)
| VString (s : string)
| VArray (elements : list Value)
| VObject (members : list (string * Value)).
#[local] Set Elimination Schemes.

(** [typeof v] *)
Definition typeof (v : Value) : string :=
  match v with
  | VUndefined => "undefined"
  | VBool _ => "boolean"
  | VNumber _ => "number"
  | VString _ => "string"
  | VNull | VArray _ | VObject _ => "object"
  end.

(** [!v]: the values that count as false are [undefined], [null], [false],
    zero and the empty string. *)
Definition falsy (v : Value) : bool :=
  match v with
  | VUndefined | VNull => true
  | VBool b => negb b
  | VNumber shown => String.eqb shown "0"
  | VString s => String.eqb s EmptyString
  | VArray _ | VObject _ => false
  end.

(** Whether an object has a member of its own under a name. *)
Definition has_own (members : list (string * Value)) (key : string) : bool :=
  existsb (fun member => String.eqb member.1 key) members.

(** [String(v)]; [None] is the TypeError of an object that cannot be
    converted.  An array is its elements joined by commas, [null] and
    [undefined] counting as empty.  An object is ["[object Object]"], unless
    it has a [toString] member of its own: in a parsed body that member is
    no function, and neither it nor [valueOf] gives a primitive. *)
Fixpoint ToString (v : Value) : option string :=
  match v with
  | VUndefined => Some "undefined"
  | VNull => Some "null"
  | VBool true => Some "true"
  | VBool false => Some "false"
  | VNumber shown => Some shown
  | VString s => Some s
  | VArray elements =>
    let item x :=
      match x with
      | VUndefined | VNull => Some EmptyString
      | _ => ToString x
      end in
    (fix join (l : list Value) : option string :=
       match l with
       | [] => Some EmptyString
       | [x] => item x
       | x :: rest =>
         match item x, join rest with
         | Some first, Some others => Some (first +:+ "," +:+ others)
         | _, _ => None
         end
       end) elements
  | VObject members =>
    if has_own members "toString" then None else Some "[object Object]"
  end.

#[global] Instance Json_eq_dec : EqDecision Json.
Proof. solve_decision. Defined.
#[global] Instance Buffer_eq_dec : EqDecision Buffer.
Proof. solve_decision. Defined.

End Js.

Import Js.

(** ** The message broker, as both services see it through amqplib *)

Module Amqp.

Inductive Error :=
| ConnectionRefused     (* amqp.connect rejects *)
| ChannelClosed.        (* IllegalOperationError: Channel closed *)

(** [error.message] *)
Definition message (e : Error) : string :=
  match e with
  | ConnectionRefused => "connect ECONNREFUSED"
  | ChannelClosed => "Channel closed"
  end.

(** Channels are numbered in the order they are created; a channel that has
    been closed (by the broker, by a connection error) stays closed. *)
Record Broker := {
  reachable : bool;
  queues : gmap string (list Buffer);
  opened : nat;
  closed : gset nat
}.

Definition usable (b : Broker) (ch : nat) : bool :=
  bool_decide (ch < opened b) && bool_decide (ch ∉ closed b).

(** [amqp.connect(url)] followed by [connection.createChannel()] *)
Definition createChannel (b : Broker) : Completion Error nat * Broker :=
  if reachable b
  then (Returned (opened b),
        {| reachable := reachable b; queues := queues b;
           opened := S (opened b); closed := closed b |})
  else (Threw ConnectionRefused, b).

(** [channel.assertQueue(queue)]: declares the queue unless it exists. *)
Definition assertQueue (ch : nat) (queue : string) (b : Broker)
  : Completion Error unit * Broker :=
  if usable b ch
  then (Returned (),
        match queues b !! queue with
        | Some _ => b
        | None => {| reachable := reachable b; queues := <[queue := []]> (queues b);
                     opened := opened b; closed := closed b |}
        end)
  else (Threw ChannelClosed, b).

(** [channel.sendToQueue(queue, content)]: routed through the default
    exchange to the queue of that name; dropped when there is none. *)
Definition sendToQueue (ch : nat) (queue : string) (content : Buffer) (b : Broker)
  : Completion Error unit * Broker :=
  if usable b ch
  then (Returned (),
        match queues b !! queue with
        | Some waiting =>
            {| reachable := reachable b; queues := <[queue := waiting ++ [content]]> (queues b);
               opened := opened b; closed := closed b |}
        | None => b
        end)
  else (Threw ChannelClosed, b).

(** [channel.consume(queue, callback)]: registers the callback on a queue. *)
Definition consume (ch : nat) (queue : string) (b : Broker) : Completion Error unit * Broker :=
  if usable b ch then (Returned (), b) else (Threw ChannelClosed, b).

(** A delivery: [message.content] and [message.fields.deliveryTag]. *)
Record Message := {
  deliveryTag : nat;
  content : Buffer
}.

(** The messages waiting in a queue. *)
Definition waiting (b : Broker) (queue : string) : list Buffer :=
  default [] (queues b !! queue).

End Amqp.

(** ** Post Service: the event consumer *)

Module PostService.

(** A document of the Post Service's [UserModel] collection. *)
Record ShadowUser := {
  _id : string;
  email : option string;
  name : option string
}.

(** postSchema.js *)
Record Post := {
  title : string;
  content : string;
  userId : string;
  createdAt : nat
}.

Record Db := {
  users : list ShadowUser;
  posts : list Post
}.

Inductive Error :=
| TypeError                     (* destructuring null *)
| ValidationError               (* the schema refuses the document *)
| DuplicateKey (id : string).   (* E11000 on the _id index *)

(** The two store calls of consumer.js, with their arguments. *)
Inductive DbOp :=
| Create (userId email name : option string)
| FindOneAndDelete (userId : option string).

Inductive DbResult :=
| Fulfilled
| Failed (e : Error).

Inductive LogLine :=
| ConnectionEstablished                         (* "RabbitMQ connection established in Post Service" *)
| ConnectionError (error : Amqp.Error)          (* "RabbitMQ connection error in Post Service:" *)
| ErrorConsumingMessage (error : Amqp.Error)    (* "Error consuming message:" *)
| ReceivedMessage (content : Json)              (* "Received message:" *)
| UserCreated (name : option string)            (* "User created in Post Service:" *)
| UserDeleted (userId : option string)          (* "User deleted in Post Service:" *)
| ErrorHandlingUserEvent (error : Error).       (* "Error handling user event:" *)

#[global] Instance ShadowUser_eq_dec : EqDecision ShadowUser.
Proof. solve_decision. Defined.
#[global] Instance Error_eq_dec : EqDecision Error.
Proof. solve_decision. Defined.
#[global] Instance AmqpError_eq_dec : EqDecision Amqp.Error.
Proof. solve_decision. Defined.
#[global] Instance DbOp_eq_dec : EqDecision DbOp.
Proof. solve_decision. Defined.
#[global] Instance DbResult_eq_dec : EqDecision DbResult.
Proof. solve_decision. Defined.
#[global] Instance LogLine_eq_dec : EqDecision LogLine.
Proof. solve_decision. Defined.

(** An [async] function body: it runs until it settles or reaches an
    [await] on a store call, where it is suspended with its continuation. *)
Inductive Async :=
| Fulfil
| Reject (e : Error)
| Log (l : LogLine) (k : Async)
| Await (op : DbOp) (k : DbResult -> Async).

(** [await op; k]: a failed call throws at the [await]. *)
Definition await (op : DbOp) (k : Async) : Async :=
  Await op (fun r => match r with Fulfilled => k | Failed e => Reject e end).

(** [try { body } catch (error) { handler }] *)
Fixpoint try_catch (body : Async) (handler : Error -> Async) : Async :=
  match body with
  | Fulfil => Fulfil
  | Reject e => handler e
  | Log l k => Log l (try_catch k handler)
  | Await op k => Await op (fun r => try_catch (k r) handler)
  end.

(** consumer.js, [handleUserEvent].  The destructuring is outside the [try]
    and throws on [null]. *)
Definition handleUserEvent (message : Json) : Async :=
  match message with
  | JNull => Reject TypeError
  | _ =>
    let userId := prop message "userId" in
    let email := prop message "email" in
    let name := prop message "name" in
    let event := prop message "event" in
    try_catch
      (if decide (event = Some "user_signup") then
         await (Create userId email name) (Log (UserCreated name) Fulfil)
       else if decide (event = Some "user_delete") then
         await (FindOneAndDelete userId) (Log (UserDeleted userId) Fulfil)
       else Fulfil)
      (fun error => Log (ErrorHandlingUserEvent error) Fulfil)
  end.

(** The store call of [handleUserEvent], by the tag of the event. *)
Definition store_call (message : Json) : option DbOp :=
  let event := prop message "event" in
  if decide (event = Some "user_signup") then
    Some (Create (prop message "userId") (prop message "email") (prop message "name"))
  else if decide (event = Some "user_delete") then
    Some (FindOneAndDelete (prop message "userId"))
  else None.

(** How the promise of an [async] call settles. *)
Inductive Settled :=
| Resolved
| Rejected (e : Error).

(** Removing the first document that satisfies a filter. *)
Fixpoint remove_first (f : ShadowUser -> bool) (l : list ShadowUser) : list ShadowUser :=
  match l with
  | [] => []
  | u :: rest => if f u then rest else u :: remove_first f rest
  end.

(** The query filter [{ _id: userId }].  When [userId] is [undefined] the
    member reaches the store all the same, as [{ _id: null }], and no
    document has that [_id]. *)
Definition matches (userId : option string) (u : ShadowUser) : bool :=
  match userId with
  | Some id => bool_decide (_id u = id)
  | None => false
  end.

(** The documents of the collection with a given [_id]. *)
Definition with_id (id : string) (l : list ShadowUser) : list ShadowUser :=
  filter (fun u => _id u = id) l.

(** The collection invariant kept by the [_id] index. *)
Definition unique_ids (db : Db) : Prop := NoDup (_id <$> users db).

(** What the process has done, in the order it happened.  Store calls carry
    the delivery tag of the message whose handler made them. *)
Inductive Event :=
| Console (l : LogLine)
| Issued (tag : nat) (op : DbOp)
| Completed (tag : nat) (op : DbOp) (r : DbResult)
| Acked (tag : nat)
| UnhandledRejection (tag : nat) (e : Error)
| UnhandledConsumeRejection (e : Amqp.Error)
| UncaughtSyntaxError (tag : nat).

#[global] Instance Event_eq_dec : EqDecision Event.
Proof. solve_decision. Defined.

(** The Post Service process: its store, the module variable [channel] of
    utils/rabbitmq.js, the queue it is consuming from (while its consumer is
    registered), the handlers suspended at an [await], the deliveries the
    broker still holds as unacknowledged, and the trace. *)
Record Consumer := {
  db : Db;
  channel : option nat;
  subscription : option string;
  pending : list (nat * DbOp * (DbResult -> Async));
  unacked : list nat;
  trace : list Event
}.

Definition emit (e : Event) (c : Consumer) : Consumer :=
  {| db := db c; channel := channel c; subscription := subscription c;
     pending := pending c; unacked := unacked c; trace := trace c ++ [e] |}.

Definition suspend (tag : nat) (op : DbOp) (k : DbResult -> Async) (c : Consumer) : Consumer :=
  {| db := db c; channel := channel c; subscription := subscription c;
     pending := pending c ++ [(tag, op, k)]; unacked := unacked c;
     trace := trace c ++ [Issued tag op] |}.

(** Calling an [async] function: the body runs up to its first [await] (or to
    its end); the caller gets a promise at once and goes on.  Nobody awaits or
    catches the promise of the handler. *)
Fixpoint start (tag : nat) (a : Async) (c : Consumer) : Consumer :=
  match a with
  | Fulfil => c
  | Reject e => emit (UnhandledRejection tag e) c
  | Log l k => start tag k (emit (Console l) c)
  | Await op k => suspend tag op k c
  end.

(** Whether an [async] body, run up to its first [await], ends in a
    rejection. *)
Fixpoint rejects (a : Async) : bool :=
  match a with
  | Reject _ => true
  | Log _ k => rejects k
  | Fulfil | Await _ _ => false
  end.

(** A promise that is rejected and that nobody handles ends the process once
    the turn of the event loop is over (the default of Node since version
    15): the channel and the consumer are gone with it, and the handlers
    suspended at an [await] never resume. *)
Definition exit (c : Consumer) : Consumer :=
  {| db := db c; channel := None; subscription := None; pending := [];
     unacked := unacked c; trace := trace c |}.

Definition end_of_turn (a : Async) (c : Consumer) : Consumer :=
  if rejects a then exit c else c.

(** [channel.ack(message)].  The message has just arrived through the
    channel, so the channel is open. *)
Definition ack (message : Amqp.Message) (c : Consumer) : Consumer :=
  {| db := db c; channel := channel c; subscription := subscription c;
     pending := pending c;
     unacked := filter (fun t => t ≠ Amqp.deliveryTag message) (unacked c);
     trace := trace c ++ [Acked (Amqp.deliveryTag message)] |}.

(** An exception that leaves the consume callback is caught by nothing in the
    service: it unwinds into the broker client, whose frame loop fails and
    closes the connection.  The consumer is gone; what it had not
    acknowledged goes back to the queue. *)
Definition uncaught (e : Event) (c : Consumer) : Consumer :=
  {| db := db c; channel := channel c; subscription := None;
     pending := pending c; unacked := unacked c; trace := trace c ++ [e] |}.

(** utils/rabbitmq.js, the callback that [consumeMessages] hands to
    [channel.consume]. *)
Definition onMessage (handler : Json -> Async) (message : option Amqp.Message) (c : Consumer)
  : Consumer :=
  match message with
  | None => c
  | Some m =>
    match JSON_parse (Amqp.content m) with
    | None => uncaught (UncaughtSyntaxError (Amqp.deliveryTag m)) c
    | Some content =>
      let c := emit (Console (ReceivedMessage content)) c in
      let c := start (Amqp.deliveryTag m) (handler content) c in
      let c := ack m c in
      end_of_turn (handler content) c
    end
  end.

(** The broker pushes a message to the registered consumer. *)
Definition deliver (handler : Json -> Async) (m : Amqp.Message) (c : Consumer) : Consumer :=
  match subscription c with
  | None => c
  | Some _ =>
    onMessage handler (Some m)
      {| db := db c; channel := channel c; subscription := subscription c;
         pending := pending c; unacked := unacked c ++ [Amqp.deliveryTag m];
         trace := trace c |}
  end.

(** utils/rabbitmq.js, [connectQueue] *)
Definition connectQueue (b : Amqp.Broker) (c : Consumer)
  : Completion Amqp.Error nat * Amqp.Broker * Consumer :=
  let failed error b c := (Threw error, b, emit (Console (ConnectionError error)) c) in
  match Amqp.createChannel b with
  | (Threw error, b) => failed error b c
  | (Returned ch, b) =>
    let c := {| db := db c; channel := Some ch; subscription := subscription c;
                pending := pending c; unacked := unacked c; trace := trace c |} in
    match Amqp.assertQueue ch "user_events" b with
    | (Threw error, b) => failed error b c
    | (Returned _, b) => (Returned ch, b, emit (Console ConnectionEstablished) c)
    end
  end.

(** utils/rabbitmq.js, [consumeMessages], up to the registration of the
    callback; the callback itself is [onMessage handler].  The module
    variable [channel] is set once [connectQueue] has returned.  The call of
    [channel.consume] is not awaited: when it fails, its promise is rejected
    after the [try] has been left, and nobody handles it. *)
Definition consumeMessages (b : Amqp.Broker) (c : Consumer) : Amqp.Broker * Consumer :=
  let failed error b c := (b, emit (Console (ErrorConsumingMessage error)) c) in
  let consume ch b c :=
    match Amqp.consume ch "user_events" b with
    | (Threw error, b) => (b, exit (emit (UnhandledConsumeRejection error) c))
    | (Returned _, b) =>
      (b, {| db := db c; channel := channel c; subscription := Some "user_events";
             pending := pending c; unacked := unacked c; trace := trace c |})
    end in
  match channel c with
  | None =>
    match connectQueue b c with
    | (Threw error, b, c) => failed error b c
    | (Returned ch, b, c) => consume ch b c
    end
  | Some ch => consume ch b c
  end.

Section Store.

(** Modelled from the spec: models/UserModel.js of the Post Service is not
    among the sources.  A shadow record carries the identity of the canonical
    record, an email and a display name.  [schema] stands for what the model
    makes of the object literal it is given: the document to save, or [None]
    when validation refuses it. *)
Variable schema : option string → option string → option string → option ShadowUser.

(** [UserModel.create({ _id: userId, email, name })]: the document is
    validated, then inserted; the collection's [_id] index refuses a second
    document with the same [_id]. *)
Definition create (userId email name : option string) (db : Db) : DbResult * Db :=
  match schema userId email name with
  | None => (Failed ValidationError, db)
  | Some doc =>
    if bool_decide (_id doc ∈ _id <$> users db) then (Failed (DuplicateKey (_id doc)), db)
    else (Fulfilled, {| users := users db ++ [doc]; posts := posts db |})
  end.

(** [UserModel.findOneAndDelete({ _id: userId })]: resolves (with the
    document or with [null]) whether or not a document matched. *)
Definition findOneAndDelete (userId : option string) (db : Db) : DbResult * Db :=
  (Fulfilled, {| users := remove_first (matches userId) (users db); posts := posts db |}).

Definition perform (op : DbOp) (db : Db) : DbResult * Db :=
  match op with
  | Create userId email name => create userId email name db
  | FindOneAndDelete userId => findOneAndDelete userId db
  end.

(** Running an [async] body to the end, every store call completing before
    the next statement: the effect of one handler call taken alone. *)
Fixpoint exec (a : Async) (db : Db) (console : list LogLine)
  : Settled * Db * list LogLine :=
  match a with
  | Fulfil => (Resolved, db, console)
  | Reject e => (Rejected e, db, console)
  | Log l k => exec k db (console ++ [l])
  | Await op k => let '(r, db') := perform op db in exec (k r) db' console
  end.

(** Applying one decoded event to the Post Service's store. *)
Definition apply_event (message : Json) (db : Db) : Settled * Db * list LogLine :=
  exec (handleUserEvent message) db [].

(** An event applied twice without an error: both applications resolve and
    log no error, the second changes nothing, and one record has the id. *)
Definition applied_twice_without_error (message : Json) (id : string) (d0 : Db) : Prop :=
  ∃ d1 out1 out2,
    apply_event message d0 = (Resolved, d1, out1) ∧
    apply_event message d1 = (Resolved, d1, out2) ∧
    (∀ e, ErrorHandlingUserEvent e ∉ out1) ∧
    (∀ e, ErrorHandlingUserEvent e ∉ out2) ∧
    length (with_id id (users d1)) = 1.

(** The store answers the [i]-th suspended call; the handler that made it
    resumes and runs to its next [await] or to its end. *)
Definition complete (i : nat) (c : Consumer) : Consumer :=
  match pending c !! i with
  | None => c
  | Some (tag, op, k) =>
    let '(r, db') := perform op (db c) in
    end_of_turn (k r)
      (start tag (k r)
         {| db := db'; channel := channel c; subscription := subscription c;
            pending := delete i (pending c); unacked := unacked c;
            trace := trace c ++ [Completed tag op r] |})
  end.

(** One turn of the event loop of the Post Service. *)
Inductive Step :=
| Deliver (m : Amqp.Message)
| Complete (i : nat).

Definition step (c : Consumer) (s : Step) : Consumer :=
  match s with
  | Deliver m => deliver handleUserEvent m c
  | Complete i => complete i c
  end.

Definition run (steps : list Step) (c : Consumer) : Consumer :=
  foldl step c steps.

End Store.

(** The acknowledgement discipline, read on a trace: when a message is
    acknowledged, every store call its handler made has completed, and a
    message whose store call failed is not acknowledged. *)
Definition ack_after_handler (tr : list Event) : Prop :=
  ∀ pre post tag op,
    tr = pre ++ Acked tag :: post → Issued tag op ∈ pre → ∃ r, Completed tag op r ∈ pre.

Definition failed_not_acked (tr : list Event) : Prop :=
  ∀ tag op e, Completed tag op (Failed e) ∈ tr → Acked tag ∉ tr.

Definition acknowledge_after_success (tr : list Event) : Prop :=
  ack_after_handler tr ∧ failed_not_acked tr.

(** A payload that decodes to an object but is no user event: the [event]
    member is missing or carries an unknown tag. *)
Definition unknown_event (v : Json) : Prop :=
  v ≠ JNull ∧ prop v "event" ≠ Some "user_signup" ∧ prop v "event" ≠ Some "user_delete".

(** The process as it starts: nothing stored, no channel, no consumer. *)
Definition boot (db : Db) : Consumer :=
  {| db := db; channel := None; subscription := None; pending := []; unacked := [];
     trace := [] |}.

End PostService.

(** ** Regular expressions, as far as the validators use them *)

Module RegExp.

Inductive re :=
| Never
| Empty
| Class (p : ascii -> bool)
| Cat (r s : re)
| Alt (r s : re)
| Star (r : re)
| Both (r s : re).

Fixpoint nullable (r : re) : bool :=
  match r with
  | Never => false
  | Empty => true
  | Class _ => false
  | Cat r s => nullable r && nullable s
  | Alt r s => nullable r || nullable s
  | Star _ => true
  | Both r s => nullable r && nullable s
  end.

Definition cat (r s : re) : re :=
  match r, s with
  | Never, _ | _, Never => Never
  | Empty, _ => s
  | _, _ => Cat r s
  end.

Definition alt (r s : re) : re :=
  match r, s with
  | Never, _ => s
  | _, Never => r
  | _, _ => Alt r s
  end.

Definition both (r s : re) : re :=
  match r, s with
  | Never, _ | _, Never => Never
  | _, _ => Both r s
  end.

(** The words [w] such that [c w] is matched by [r]. *)
Fixpoint deriv (c : ascii) (r : re) : re :=
  match r with
  | Never | Empty => Never
  | Class p => if p c then Empty else Never
  | Cat r s => alt (cat (deriv c r) s) (if nullable r then deriv c s else Never)
  | Alt r s => alt (deriv c r) (deriv c s)
  | Star r => cat (deriv c r) (Star r)
  | Both r s => both (deriv c r) (deriv c s)
  end.

(** [/^r$/.test(s)] *)
Fixpoint test (r : re) (s : string) : bool :=
  match s with
  | EmptyString => nullable r
  | String c s => test (deriv c r) s
  end.

Definition plus (r : re) : re := Cat r (Star r).

Fixpoint times (n : nat) (r : re) : re :=
  match n with
  | 0 => Empty
  | S n => Cat r (times n r)
  end.

Fixpoint upto (n : nat) (r : re) : re :=
  match n with
  | 0 => Empty
  | S n => Alt Empty (Cat r (upto n r))
  end.

(** [r{n,m}] *)
Definition between (n m : nat) (r : re) : re := Cat (times n r) (upto (m - n) r).

Definition code (c : ascii) : nat := nat_of_ascii c.
Definition in_range (lo hi : nat) (c : ascii) : bool := (lo <=? code c) && (code c <=? hi).

(** [\s]: tab, line feed, vertical tab, form feed, carriage return, space and
    no-break space. *)
Definition space (c : ascii) : bool := in_range 9 13 c || (code c =? 32) || (code c =? 160).
(** [\d] *)
Definition digit (c : ascii) : bool := in_range 48 57 c.
(** [[a-zA-Z]] *)
Definition letter (c : ascii) : bool := in_range 97 122 c || in_range 65 90 c.
(** [\w] *)
Definition word (c : ascii) : bool := letter c || digit c || (code c =? 95).
(** [.]: anything but a line terminator. *)
Definition dot (c : ascii) : bool := negb ((code c =? 10) || (code c =? 13)).
Definition any (c : ascii) : bool := true.

(** [(?=r)] at the start of a pattern that is anchored at both ends: the
    subject has a prefix matched by [r]. *)
Definition ahead (r : re) : re := Cat r (Star (Class any)).

End RegExp.

(** ** User Service: the controller and the event publisher *)

Module UserService.

(** A document of the User Service's [UserModal] collection. *)
Record User := {
  _id : string;
  email : string;
  password : string;
  name : string
}.

(** [req.body] of a signup request, as the body parser hands it over: under
    each name any JSON value, [VUndefined] for a missing member. *)
Module Body.
Record t := {
  email : Value;
  password : Value;
  name : Value
}.
End Body.

(** A body as the signup form sends it: every member a string, or missing. *)
Module Form.
Record t := {
  email : option string;
  password : option string;
  name : option string
}.

Definition member (m : option string) : Value :=
  match m with
  | Some s => VString s
  | None => VUndefined
  end.

Definition body (f : t) : Body.t :=
  {| Body.email := member (email f); Body.password := member (password f);
     Body.name := member (name f) |}.
End Form.

Coercion Form.body : Form.t >-> Body.t.

(** What [res.json] is given. *)
Inductive Payload :=
| Message (message : string)      (* { message: ... } *)
| Result (result : User)          (* { result } *)
| Document (user : User).         (* the document itself *)

Record Response := {
  status : nat;
  json : Payload
}.

(** What is thrown inside the handlers: an error of the broker client, a
    TypeError of the language, the error bcryptjs raises for an argument that
    is no string, and the errors Mongoose raises when a value does not cast
    to the type of its path or a document is refused. *)
Inductive Error :=
| Broker (e : Amqp.Error)
| TypeError (message : string)
| IllegalArguments (s other : string)
| CastError (message : string)
| ValidationError (message : string).

(** [error.message] *)
Definition message (error : Error) : string :=
  match error with
  | Broker e => Amqp.message e
  | TypeError message => message
  | IllegalArguments s other => "Illegal arguments: " +:+ s +:+ ", " +:+ other
  | CastError message => message
  | ValidationError message => message
  end.

Inductive LogLine :=
| ConnectionEstablished                           (* "RabbitMQ connection established" *)
| ConnectionError (error : Error)                 (* "RabbitMQ connection error:" *)
| MessageSent (message : list (string * string))  (* "Message sent:" *)
| ErrorPublishingMessage (error : Error)          (* "Error publishing message:" *)
| SigninError (error : Error)                     (* "Signin error:" *)
| SignupError (error : Error)                     (* "Signup error:" *)
| ErrorDeletingUser (error : Error)               (* "Error deleting user:" *)
| UserDeletedAndPublished (id : string).          (* "User ... deleted and event published to queue." *)

(** What a request handler does to the outside, in the order it happens. *)
Inductive Event :=
| Console (l : LogLine)
| Created (u : User)                              (* UserModal.create committed *)
| Deleted (id : string)                           (* UserModal.findByIdAndDelete committed *)
| Sent (queue : string) (content : Buffer).       (* channel.sendToQueue returned *)

#[global] Instance User_eq_dec : EqDecision User.
Proof. solve_decision. Defined.
#[global] Instance Payload_eq_dec : EqDecision Payload.
Proof. solve_decision. Defined.
#[global] Instance Response_eq_dec : EqDecision Response.
Proof. solve_decision. Defined.
#[global] Instance AmqpError_eq_dec : EqDecision Amqp.Error.
Proof. solve_decision. Defined.
#[global] Instance Error_eq_dec : EqDecision Error.
Proof. solve_decision. Defined.
#[global] Instance LogLine_eq_dec : EqDecision LogLine.
Proof. solve_decision. Defined.
#[global] Instance Event_eq_dec : EqDecision Event.
Proof. solve_decision. Defined.

(** The User Service process and what it talks to: the user collection, the
    broker, the module variable [channel] of utils/rabbitmq.js, the trace. *)
Record World := {
  users : list User;
  broker : Amqp.Broker;
  channel : option nat;
  trace : list Event
}.

(** Code that reads and writes the world and may throw. *)
Definition M (A : Type) : Type := World → Completion Error A * World.

Definition ret {A} (a : A) : M A := fun w => (Returned a, w).
Definition throw {A} (e : Error) : M A := fun w => (Threw e, w).
Definition bind {A B} (m : M A) (k : A → M B) : M B :=
  fun w => match m w with
           | (Returned a, w) => k a w
           | (Threw e, w) => (Threw e, w)
           end.
Definition try_catch {A} (body : M A) (handler : Error → M A) : M A :=
  fun w => match body w with
           | (Returned a, w) => (Returned a, w)
           | (Threw e, w) => handler e w
           end.

Notation "'let*' x ':=' m 'in' k" := (bind m (fun x => k))
  (at level 10, x binder, m at level 100, k at level 200).

(** An expression that touches nothing and may throw. *)
Definition eval {A} (c : Completion Error A) : M A := fun w => (c, w).

Definition emit (e : Event) : M unit :=
  fun w => (Returned (),
            {| users := users w; broker := broker w; channel := channel w;
               trace := trace w ++ [e] |}).

Definition console (l : LogLine) : M unit := emit (Console l).

Definition get_channel : M (option nat) := fun w => (Returned (channel w), w).
Definition set_channel (ch : nat) : M unit :=
  fun w => (Returned (),
            {| users := users w; broker := broker w; channel := Some ch; trace := trace w |}).

(** A call on the broker. *)
Definition amqp {A} (call : Amqp.Broker → Completion Amqp.Error A * Amqp.Broker) : M A :=
  fun w => let '(r, b) := call (broker w) in
           (match r with
            | Returned a => Returned a
            | Threw e => Threw (Broker e)
            end,
            {| users := users w; broker := b; channel := channel w; trace := trace w |}).

Fixpoint remove_first (id : string) (l : list User) : list User :=
  match l with
  | [] => []
  | u :: rest => if decide (_id u = id) then rest else u :: remove_first id rest
  end.

(** [String(v)] for a member of a form. *)
Definition String_ (v : option string) : string := default "undefined" v.

(** [RegExp.prototype.test(v)]: the pattern is tried on [String(v)]. *)
Definition test (pattern : RegExp.re) (v : Value) : Completion Error bool :=
  match ToString v with
  | Some s => Returned (RegExp.test pattern s)
  | None => Threw (TypeError "Cannot convert object to primitive value")
  end.

(** [isValidEmail]: [/^[^\s@]+@[^\s@]+\.[^\s@]+$/] *)
Definition emailPattern : RegExp.re :=
  let other := RegExp.Class (fun c => negb (RegExp.space c || (RegExp.code c =? 64))) in
  RegExp.Cat (RegExp.plus other)
    (RegExp.Cat (RegExp.Class (fun c => RegExp.code c =? 64))
       (RegExp.Cat (RegExp.plus other)
          (RegExp.Cat (RegExp.Class (fun c => RegExp.code c =? 46)) (RegExp.plus other)))).

Definition isValidEmail (email : Value) : Completion Error bool :=
  test emailPattern email.

(** [isValidPassword]: [/^(?=.*[a-zA-Z])(?=.*\d)(?=.*[\W_]).{6,15}$/] *)
Definition passwordPattern : RegExp.re :=
  let dots := RegExp.Star (RegExp.Class RegExp.dot) in
  let seen p := RegExp.ahead (RegExp.Cat dots (RegExp.Class p)) in
  RegExp.Both (seen RegExp.letter)
    (RegExp.Both (seen RegExp.digit)
       (RegExp.Both (seen (fun c => negb (RegExp.word c) || (RegExp.code c =? 95)))
          (RegExp.between 6 15 (RegExp.Class RegExp.dot)))).

Definition isValidPassword (password : Value) : Completion Error bool :=
  test passwordPattern password.

(** [isValidName] *)
Definition isValidName (name : Value) : bool :=
  match name with
  | VString name => (3 <=? String.length name) && (String.length name <=? 15)
  | _ => false
  end.

(** [s.includes("@")] on a string *)
Fixpoint includes_at (s : string) : bool :=
  match s with
  | EmptyString => false
  | String c s => (RegExp.code c =? 64) || includes_at s
  end.

(** [v.includes("@")]: the method of a string, the method of an array (one
    of its elements is the string ["@"]), and a TypeError on everything else,
    which has no such method. *)
Definition includes (v : Value) : Completion Error bool :=
  match v with
  | VString s => Returned (includes_at s)
  | VArray elements =>
    Returned (existsb (fun x => match x with
                                | VString s => String.eqb s "@"
                                | _ => false
                                end) elements)
  | _ => Threw (TypeError "email.includes is not a function")
  end.

(** [!email || !email.includes("@") || !isValidEmail(email)], the first test
    of [signup], each operand evaluated only when those before it are
    false. *)
Definition email_refused (email : Value) : Completion Error bool :=
  if falsy email then Returned true
  else match includes email with
       | Threw e => Threw e
       | Returned false => Returned true
       | Returned true =>
         match isValidEmail email with
         | Threw e => Threw e
         | Returned valid => Returned (negb valid)
         end
       end.

(** Truthiness of what a query returns: a document or [null]. *)
Definition is_Some_b {A} (o : option A) : bool :=
  match o with
  | Some _ => true
  | None => false
  end.

Definition respond (status : nat) (json : Payload) : M Response :=
  ret {| status := status; json := json |}.

(** utils/rabbitmq.js, [connectQueue]: the module variable [channel] is
    assigned as soon as the channel exists. *)
Definition connectQueue : M nat :=
  try_catch
    (let* ch := amqp Amqp.createChannel in
     let* _ := set_channel ch in
     let* _ := amqp (Amqp.assertQueue ch "user_events") in
     let* _ := console ConnectionEstablished in
     ret ch)
    (fun error =>
     let* _ := console (ConnectionError error) in
     throw error).

(** utils/rabbitmq.js, [publishMessage] *)
Definition publishMessage (queueName : string) (message : list (string * string)) : M unit :=
  try_catch
    (let* cached := get_channel in
     let* ch := match cached with
                | None => let* ch := connectQueue in
                          let* _ := set_channel ch in
                          ret ch
                | Some ch => ret ch
                end in
     let* _ := amqp (Amqp.sendToQueue ch queueName (JSON_stringify message)) in
     let* _ := emit (Sent queueName (JSON_stringify message)) in
     console (MessageSent message))
    (fun error =>
     let* _ := console (ErrorPublishingMessage error) in
     throw error).

Section Controller.

(** What the controller takes from its libraries and from
    models/userSchema.js, none of which is among the sources:
    [bcrypt.hash(password, 12)] on a string, the [_id] the store gives a new
    document, and what Mongoose makes of a value that is no string where the
    schema has one, in the filter of a query (a condition on the stored
    strings, or an error) and in a new document (the string stored, or an
    error), and of an id that does not cast to the type of [_id] ([None] when
    it casts, the message of the CastError otherwise). *)
Variable bcrypt_hash : string → string.
Variable ObjectId : list User → string.
Variable castForQuery : Value → Completion Error (string → bool).
Variable castString : Value → Completion Error string.
Variable castObjectId : string → option string.

(** [UserModal.findOne({ path: v })].  The store always answers: failures of
    the database driver are not modelled. *)
Definition findOne (path : User → string) (v : Value) : M (option User) :=
  match v with
  | VString s => fun w => (Returned (head (filter (fun u => path u = s) (users w))), w)
  | _ =>
    let* selects := eval (castForQuery v) in
    fun w => (Returned (head (filter (fun u => selects (path u) = true) (users w))), w)
  end.

(** The cast of an id to the type of [_id].  The ids in the store are of
    that type: the id of a stored document casts. *)
Definition cast_id (id : string) : M unit :=
  fun w =>
    if bool_decide (id ∈ _id <$> users w) then (Returned (), w)
    else match castObjectId id with
         | None => (Returned (), w)
         | Some message => (Threw (CastError message), w)
         end.

(** [UserModal.findById(id)] *)
Definition findById (id : string) : M (option User) :=
  let* _ := cast_id id in
  fun w => (Returned (head (filter (fun u => _id u = id) (users w))), w).

(** [UserModal.findByIdAndDelete(id)] *)
Definition findByIdAndDelete (id : string) : M unit :=
  let* _ := cast_id id in
  fun w => (Returned (),
            {| users := remove_first id (users w); broker := broker w; channel := channel w;
               trace := trace w ++ [Deleted id] |}).

(** [bcrypt.hash(password, 12)]: bcryptjs takes a string only. *)
Definition hash (password : Value) : M string :=
  match password with
  | VString s => ret (bcrypt_hash s)
  | _ => throw (IllegalArguments (typeof password) "number")
  end.

(** A member of a new document, at a path the schema gives as a string. *)
Definition member (v : Value) : M string :=
  match v with
  | VString s => ret s
  | _ => eval (castString v)
  end.

(** [UserModal.create({ email, password: hashedPassword, name })] *)
Definition create (email : Value) (password : string) (name : Value) : M User :=
  let* email := member email in
  let* name := member name in
  fun w =>
    let result := {| _id := ObjectId (users w); email := email;
                     password := password; name := name |} in
    (Returned result,
     {| users := users w ++ [result]; broker := broker w; channel := channel w;
        trace := trace w ++ [Created result] |}).

(** controller/userController.js, [signup] *)
Definition signup (body : Body.t) : M Response :=
  let email := Body.email body in
  let password := Body.password body in
  let name := Body.name body in
  try_catch
    (let* refused := eval (email_refused email) in
     if refused then
       respond 400 (Message "Invalid email format")
     else if negb (isValidName name) then
       respond 400 (Message "Name must be between 3 and 15 characters long")
     else
       let* valid := eval (isValidPassword password) in
       if negb valid then
         respond 400 (Message "Password must be between 6 and 15 characters long, include at least one letter, one number, and one special character")
       else
         let* existingUserByEmail := findOne UserService.email email in
         if is_Some_b existingUserByEmail then
           respond 400 (Message "User with this email already exists")
         else
           let* existingUserByName := findOne UserService.name name in
           if is_Some_b existingUserByName then
             respond 400 (Message "User with this name already exists")
           else
             let* hashedPassword := hash password in
             let* result := create email hashedPassword name in
             let message := [("userId", _id result); ("email", UserService.email result);
                             ("name", UserService.name result); ("event", "user_signup")] in
             let* _ := publishMessage "user_events" message in
             respond 201 (Result result))
    (fun error =>
     let* _ := console (SignupError error) in
     respond 500 (Message "Something went wrong")).

(** controller/userController.js, [getUserById] *)
Definition getUserById (id : string) : M Response :=
  try_catch
    (let* user := findById id in
     match user with
     | None => respond 404 (Message "User not found")
     | Some user => respond 200 (Document user)
     end)
    (fun error => respond 500 (Message (message error))).

(** controller/userController.js, [deleteUser] *)
Definition deleteUser (id : string) : M Response :=
  try_catch
    (let* user := findById id in
     match user with
     | None => respond 404 (Message "User not found")
     | Some _ =>
       let* _ := findByIdAndDelete id in
       let message := [("userId", id); ("event", "user_delete")] in
       let* _ := publishMessage "user_events" message in
       let* response := respond 200 (Message "User deleted successfully") in
       let* _ := console (UserDeletedAndPublished id) in
       ret response
     end)
    (fun error =>
     let* _ := console (ErrorDeletingUser error) in
     respond 500 (Message "Something went wrong")).

End Controller.

(** A form one of the three format checks refuses. *)
Definition malformed (body : Form.t) : Prop :=
  email_refused (Body.email body) = Returned true ∨
  isValidName (Body.name body) = false ∨
  isValidPassword (Body.password body) = Returned false.

(** A form whose email or name a stored user already has. *)
Definition conflicting (body : Form.t) (l : list User) : Prop :=
  ∃ u, u ∈ l ∧ (email u = String_ (Form.email body) ∨ name u = String_ (Form.name body)).

(** The messages of the 400 responses of [signup]. *)
Definition refusals : list string :=
  ["Invalid email format";
   "Name must be between 3 and 15 characters long";
   "Password must be between 6 and 15 characters long, include at least one letter, one number, and one special character";
   "User with this email already exists";
   "User with this name already exists"].

(** Every signup request that fails validation is answered with a 400 and a
    message that says what is wrong. *)
Definition refused_with_description (response : Completion Error Response) : Prop :=
  ∃ msg, msg ∈ refusals ∧ response = Returned {| status := 400; json := Message msg |}.

(** The store mutations among the events. *)
Definition committed (e : Event) : Prop :=
  match e with
  | Created _ | Deleted _ => True
  | _ => False
  end.

(** Every send of a trace comes after a store mutation of that trace. *)
Definition sends_follow_commit (tr : list Event) : Prop :=
  ∀ pre post q content, tr = pre ++ Sent q content :: post → ∃ e, e ∈ pre ∧ committed e.

(** The message bodies of the queue contract: an object with a [userId] and
    an [event] that is one of the two tags, a signup carrying [email] and
    [name] as well. *)
Definition user_event (content : Buffer) : Prop :=
  ∃ members,
    content = Text (JObject members) ∧
    is_Some (get members "userId") ∧
    ((get members "event" = Some "user_signup" ∧
      is_Some (get members "email") ∧ is_Some (get members "name")) ∨
     get members "event" = Some "user_delete").

(** The renewal of an unusable cached channel: with the broker reachable, the
    publish succeeds and leaves a usable channel cached. *)
Definition renews_stale_channel (q : string) (msg : list (string * string)) (w : World) : Prop :=
  ∀ ch,
    channel w = Some ch →
    Amqp.usable (broker w) ch = false →
    Amqp.reachable (broker w) = true →
    (publishMessage q msg w).1 = Returned () ∧
    ∃ ch', channel (publishMessage q msg w).2 = Some ch' ∧
           Amqp.usable (broker (publishMessage q msg w).2) ch' = true.

(** The process as it starts: [let channel, connection;] are undefined. *)
Definition boot (users : list User) (broker : Amqp.Broker) : World :=
  {| users := users; broker := broker; channel := None; trace := [] |}.

End UserService.

(** ** Concrete data for the examples *)

Module Scenario.

(** A schema that takes every document that has an identity, as it is. *)
Definition lenient (userId email name : option string) : option PostService.ShadowUser :=
  match userId with
  | Some id => Some {| PostService._id := id; PostService.email := email;
                       PostService.name := name |}
  | None => None
  end.

Definition alice : PostService.ShadowUser :=
  {| PostService._id := "u1"; PostService.email := Some "a@b.com";
     PostService.name := Some "alice" |}.

Definition alice_signup : list (string * string) :=
  [("userId", "u1"); ("email", "a@b.com"); ("name", "alice"); ("event", "user_signup")].

Definition alice_delete : list (string * string) :=
  [("userId", "u1"); ("event", "user_delete")].

Definition a_post : PostService.Post :=
  {| PostService.title := "hello"; PostService.content := "first post";
     PostService.userId := "u1"; PostService.createdAt := 0 |}.

(** A broker that accepts connections and has no queue yet. *)
Definition fresh_broker : Amqp.Broker :=
  {| Amqp.reachable := true; Amqp.queues := ∅; Amqp.opened := 0; Amqp.closed := ∅ |}.

(** The Post Service once consumer.js has run against [fresh_broker]. *)
Definition listening (users : list PostService.ShadowUser) : PostService.Consumer :=
  (PostService.consumeMessages fresh_broker
     (PostService.boot {| PostService.users := users; PostService.posts := [a_post] |})).2.

(** Deliveries: alice's signup event, bytes that are no JSON text, and
    alice's signup event again under the next delivery tag. *)
Definition signup_delivery : Amqp.Message :=
  {| Amqp.deliveryTag := 1; Amqp.content := Text (JObject alice_signup) |}.

Definition garbled_delivery : Amqp.Message :=
  {| Amqp.deliveryTag := 1; Amqp.content := Garbage "{" |}.

Definition next_delivery : Amqp.Message :=
  {| Amqp.deliveryTag := 2; Amqp.content := Text (JObject alice_signup) |}.

(** The libraries of the controller, made concrete: values that are no
    strings are refused where the schema has a string, and an id casts when
    it has 24 characters. *)
Definition hash (password : string) : string := "$2a$12$" +:+ password.
Definition oid (l : list UserService.User) : string := "u1".
Definition filter_strings (v : Value) : Completion UserService.Error (string → bool) :=
  Threw (UserService.CastError "Cast to string failed").
Definition cast_strings (v : Value) : Completion UserService.Error string :=
  Threw (UserService.ValidationError "User validation failed").
Definition cast_id (id : string) : option string :=
  if String.length id =? 24 then None else Some "Cast to ObjectId failed".

(** The signup request of the end-to-end scenario. *)
Definition alice_body : UserService.Form.t :=
  {| UserService.Form.email := Some "a@b.com";
     UserService.Form.password := Some "abc123!";
     UserService.Form.name := Some "alice" |}.

Definition alice_record : UserService.User :=
  {| UserService._id := "u1"; UserService.email := "a@b.com";
     UserService.password := "$2a$12$abc123!"; UserService.name := "alice" |}.

(** A signup request whose email has no dot after the at sign. *)
Definition bad_email_body : UserService.Form.t :=
  {| UserService.Form.email := Some "a@b";
     UserService.Form.password := Some "abc123!";
     UserService.Form.name := Some "alice" |}.

(** A signup request whose email is the number 42. *)
Definition number_email_body : UserService.Body.t :=
  {| UserService.Body.email := VNumber "42";
     UserService.Body.password := VString "abc123!";
     UserService.Body.name := VString "alice" |}.

(** A broker that refuses connections. *)
Definition down_broker : Amqp.Broker :=
  {| Amqp.reachable := false; Amqp.queues := ∅; Amqp.opened := 0; Amqp.closed := ∅ |}.

(** The User Service holding a channel that has since been closed, the broker
    being reachable again. *)
Definition stale_world : UserService.World :=
  {| UserService.users := [alice_record];
     UserService.broker :=
       {| Amqp.reachable := true; Amqp.queues := {["user_events" := []]};
          Amqp.opened := 1; Amqp.closed := {[0]} |};
     UserService.channel := Some 0;
     UserService.trace := [] |}.

End Scenario.

(** ** What the patterns mean *)

Module Language.

(** The words a pattern matches in full. *)
Inductive matches : RegExp.re → list ascii → Prop :=
| matches_empty : matches RegExp.Empty []
| matches_class p c : p c = true → matches (RegExp.Class p) [c]
| matches_cat r s u v : matches r u → matches s v → matches (RegExp.Cat r s) (u ++ v)
| matches_alt_l r s u : matches r u → matches (RegExp.Alt r s) u
| matches_alt_r r s u : matches s u → matches (RegExp.Alt r s) u
| matches_star_nil r : matches (RegExp.Star r) []
| matches_star_app r u v :
    matches r u → matches (RegExp.Star r) v → matches (RegExp.Star r) (u ++ v)
| matches_both r s u : matches r u → matches s u → matches (RegExp.Both r s) u.

(** The characters of a string, first to last. *)
Fixpoint chars (s : string) : list ascii :=
  match s with
  | EmptyString => []
  | String c s => c :: chars s
  end.

(** [[^\s@]], the class the email pattern repeats. *)
Definition plain (c : ascii) : bool := negb (RegExp.space c || (RegExp.code c =? 64)).

(** [[\W_]], the class of the third lookahead of the password pattern. *)
Definition special (c : ascii) : bool := negb (RegExp.word c) || (RegExp.code c =? 95).

End Language.

(** ** User Service: signing in *)

Module Auth.

Import UserService.

(** [req.body] of a signin request: under each name any JSON value,
    [VUndefined] for a missing member. *)
Module Credentials.
Record t := {
  email : Value;
  password : Value
}.
End Credentials.

(** The [user] member of the 200 response. *)
Record Account := {
  email : string;
  id : string;
  name : string;
  joinDate : option string;
  postCount : option nat;
  token : string
}.

Inductive Answer :=
| Refused (message : string)                      (* { message } *)
| SignedIn (message : string) (user : Account).   (* { message, user } *)

Record Reply := {
  status : nat;
  json : Answer
}.

#[global] Instance Account_eq_dec : EqDecision Account.
Proof. solve_decision. Defined.
#[global] Instance Answer_eq_dec : EqDecision Answer.
Proof. solve_decision. Defined.
#[global] Instance Reply_eq_dec : EqDecision Reply.
Proof. solve_decision. Defined.

Definition reply (status : nat) (json : Answer) : M Reply :=
  ret {| status := status; json := json |}.

Section Signin.

(** [process.env.JWT_SECRET], and the libraries: [bcrypt.compare(password,
    hash)] on two strings, [jwt.sign({ email, id }, secret, { expiresIn })],
    and what Mongoose makes of a filter value that is no string. *)
Variable JWT_SECRET : option string.
Variable bcrypt_compare : string → string → bool.
Variable jwt_sign : string → string → string → string → string.
Variable castForQuery : Value → Completion Error (string → bool).

(** Modelled from the spec: models/userSchema.js is not among the sources.
    [oldUser.joinDate] and [oldUser.postCount] are members the controller
    reads from a user document besides the four the specification lists. *)
Variable joinDate_of : User → option string.
Variable postCount_of : User → option nat.

(** [process.env.JWT_SECRET || "test"] *)
Definition secret : string :=
  if falsy (Form.member JWT_SECRET) then "test" else String_ JWT_SECRET.

Definition tokenExpiry : string := "1y".

(** [bcrypt.compare(password, hash)]: bcryptjs takes strings only. *)
Definition compare (password : Value) (hashed : string) : M bool :=
  match password with
  | VString s => ret (bcrypt_compare s hashed)
  | _ => throw (IllegalArguments (typeof password) "string")
  end.

(** controller/userController.js, [signin] *)
Definition signin (body : Credentials.t) : M Reply :=
  let email := Credentials.email body in
  let password := Credentials.password body in
  try_catch
    (if falsy email || falsy password then
       reply 400 (Refused "Email and password are required")
     else
       let* valid := eval (isValidEmail email) in
       if negb valid then
         reply 400 (Refused "Invalid email format")
       else
         let* oldUser := findOne castForQuery UserService.email email in
         match oldUser with
         | None => reply 404 (Refused "User doesn't exist")
         | Some oldUser =>
           let* isPasswordCorrect := compare password (UserService.password oldUser) in
           if negb isPasswordCorrect then
             reply 400 (Refused "Invalid credentials")
           else
             let token :=
               jwt_sign (UserService.email oldUser) (_id oldUser) secret tokenExpiry in
             reply 200
               (SignedIn "User signed in successfully"
                  {| email := UserService.email oldUser;
                     id := _id oldUser;
                     name := UserService.name oldUser;
                     joinDate := joinDate_of oldUser;
                     postCount := postCount_of oldUser;
                     token := token |})
         end)
    (fun error =>
     let* _ := console (SigninError error) in
     reply 500 (Refused "Something went wrong")).

End Signin.

End Auth.

(** ** The route tables *)

Module Express.

Inductive Method := GET | HEAD | POST | PUT | PATCH | DELETE | OPTIONS.

(** A piece of a route path between two slashes: a literal or a named
    parameter. *)
Inductive Segment :=
| Literal (text : string)
| Param (name : string).

Record Route (H : Type) := {
  method : Method;
  path : list Segment;
  handlers : list H
}.
Arguments method {H} r.
Arguments path {H} r.
Arguments handlers {H} r.

#[global] Instance Method_eq_dec : EqDecision Method.
Proof. solve_decision. Defined.

Definition lower (c : ascii) : ascii :=
  if RegExp.in_range 65 90 c then ascii_of_nat (RegExp.code c + 32) else c.

Fixpoint lowercase (s : string) : string :=
  match s with
  | EmptyString => EmptyString
  | String c s => String (lower c) (lowercase s)
  end.

(** Routing is not case sensitive; a parameter takes any segment that is
    not empty.  The request path is given by its segments: a trailing slash
    makes no difference to a router that is not strict. *)
Definition segment_matches (p : Segment) (s : string) : bool :=
  match p with
  | Literal text => String.eqb (lowercase text) (lowercase s)
  | Param _ => negb (String.eqb s EmptyString)
  end.

Fixpoint path_matches (pattern : list Segment) (segments : list string) : bool :=
  match pattern, segments with
  | [], [] => true
  | p :: pattern, s :: segments => segment_matches p s && path_matches pattern segments
  | _, _ => false
  end.

(** [decodeURIComponent]: a percent sign is followed by two hexadecimal
    digits, and the bytes so written from a byte of 128 or more on make up
    one character in UTF-8.  [hex_value] reads a digit; [after_first] gives,
    for the first byte of a character, the ranges of the bytes that must
    follow it. *)
Definition hex_value (c : ascii) : option nat :=
  if RegExp.in_range 48 57 c then Some (RegExp.code c - 48)
  else if RegExp.in_range 65 70 c then Some (RegExp.code c - 55)
  else if RegExp.in_range 97 102 c then Some (RegExp.code c - 87)
  else None.

Definition after_first (b : nat) : option (list (nat * nat)) :=
  if b <? 128 then Some []
  else if (194 <=? b) && (b <=? 223) then Some [(128, 191)]
  else if b =? 224 then Some [(160, 191); (128, 191)]
  else if (225 <=? b) && (b <=? 236) then Some [(128, 191); (128, 191)]
  else if b =? 237 then Some [(128, 159); (128, 191)]
  else if (238 <=? b) && (b <=? 239) then Some [(128, 191); (128, 191)]
  else if b =? 240 then Some [(144, 191); (128, 191); (128, 191)]
  else if (241 <=? b) && (b <=? 243) then Some [(128, 191); (128, 191); (128, 191)]
  else if b =? 244 then Some [(128, 143); (128, 191); (128, 191)]
  else None.

(** Where the decoder stands in an escape: outside, past the percent sign,
    past the first digit. *)
Inductive Escape :=
| Outside
| Percent
| Digit (high : nat).

(** Whether the rest of a string decodes, [due] being the ranges of the bytes
    the character under way still needs. *)
Fixpoint decodes (s : string) (e : Escape) (due : list (nat * nat)) : bool :=
  match s with
  | EmptyString =>
    match e, due with
    | Outside, [] => true
    | _, _ => false
    end
  | String c s =>
    match e with
    | Outside =>
      if RegExp.code c =? 37 then decodes s Percent due
      else match due with
           | [] => decodes s Outside []
           | _ :: _ => false
           end
    | Percent =>
      match hex_value c with
      | Some high => decodes s (Digit high) due
      | None => false
      end
    | Digit high =>
      match hex_value c with
      | Some low =>
        let b := 16 * high + low in
        match due with
        | [] =>
          match after_first b with
          | Some due => decodes s Outside due
          | None => false
          end
        | (lo, hi) :: due =>
          if (lo <=? b) && (b <=? hi) then decodes s Outside due else false
        end
      | None => false
      end
    end
  end.

(** [decodeURIComponent(s)] returns; it throws a [URIError] otherwise. *)
Definition decodable (s : string) : bool := decodes s Outside [].

(** The parameters of a path that matches are decoded one by one. *)
Fixpoint params_decode (pattern : list Segment) (segments : list string) : bool :=
  match pattern, segments with
  | Param _ :: pattern, s :: segments => decodable s && params_decode pattern segments
  | Literal _ :: pattern, _ :: segments => params_decode pattern segments
  | _, _ => true
  end.

(** A route registered for GET also answers HEAD. *)
Definition handles {H} (r : Route H) (m : Method) : bool :=
  bool_decide (method r = m) || (bool_decide (m = HEAD) && bool_decide (method r = GET)).

(** What the router makes of a request: a route whose handlers run, no route
    (the request leaves the router, 404 when nothing else takes it), or the
    400 of a parameter that does not decode. *)
Inductive Outcome (H : Type) :=
| Reached (r : Route H)
| NotFound
| BadRequest.
Arguments Reached {H} r.
Arguments NotFound {H}.
Arguments BadRequest {H}.

(** The routes are tried in the order of registration.  A route whose path
    matches has its parameters decoded before its method is looked at; once
    a parameter has failed to decode no later route matches, and the request
    ends as a bad request. *)
Fixpoint select {H} (table : list (Route H)) (m : Method) (segments : list string)
  : Outcome H :=
  match table with
  | [] => NotFound
  | r :: table =>
    if path_matches (path r) segments then
      if params_decode (path r) segments then
        if handles r m then Reached r else select table m segments
      else BadRequest
    else select table m segments
  end.

(** What routes/userRoutes.js imports. *)
Inductive UserHandler :=
| signin | validateUser | signup | logoutUser | getUserById | deleteUser.

(** routes/userRoutes.js *)
Definition userRoutes : list (Route UserHandler) :=
  [ {| method := POST; path := [Literal "signin"]; handlers := [signin] |};
    {| method := POST; path := [Literal "signup"]; handlers := [validateUser; signup] |};
    {| method := POST; path := [Literal "logout"]; handlers := [logoutUser] |};
    {| method := GET; path := [Param "id"]; handlers := [getUserById] |};
    {| method := POST; path := [Literal "delete"; Param "id"];
       handlers := [deleteUser] |} ].

(** What routes/postRoutes.js imports. *)
Inductive PostHandler :=
| getLatestPosts | getPostsByCreator | getPostsBySearch | getPosts | getPost
| createPost | updatePost | deletePost | incrementViews | likePost.

(** routes/postRoutes.js *)
Definition postRoutes : list (Route PostHandler) :=
  [ {| method := GET; path := [Literal "latest"]; handlers := [getLatestPosts] |};
    {| method := GET; path := [Literal "creator"]; handlers := [getPostsByCreator] |};
    {| method := GET; path := [Literal "search"]; handlers := [getPostsBySearch] |};
    {| method := GET; path := []; handlers := [getPosts] |};
    {| method := GET; path := [Param "id"]; handlers := [getPost] |};
    {| method := PATCH; path := [Param "id"; Literal "view"];
       handlers := [incrementViews] |} ].

#[global] Instance UserHandler_eq_dec : EqDecision UserHandler.
Proof. solve_decision. Defined.
#[global] Instance PostHandler_eq_dec : EqDecision PostHandler.
Proof. solve_decision. Defined.

End Express.

(** ** The User Service over many requests *)

Module Operation.

Import UserService.

(** The publisher can publish: it holds a usable channel and the queue is
    declared, or it holds none and the broker will give it one. *)
Definition ready (w : World) : Prop :=
  (∃ ch, channel w = Some ch ∧ Amqp.usable (broker w) ch = true ∧
         is_Some (Amqp.queues (broker w) !! "user_events")) ∨
  (channel w = None ∧ Amqp.reachable (broker w) = true ∧
   Amqp.opened (broker w) ∉ Amqp.closed (broker w)).

(** What the checks of [signup] are there to keep: no two users with the same
    email or the same name, every email and name of the accepted form. *)
Definition consistent (l : list User) : Prop :=
  NoDup (email <$> l) ∧ NoDup (name <$> l) ∧
  Forall (λ u, isValidEmail (VString (email u)) = Returned true ∧
               isValidName (VString (name u)) = true) l.

(** What can happen to the User Service: a request to one of the three
    handlers of the controller that use the store, or the broker changing
    under it. *)
Inductive Happening :=
| Signup (body : Form.t)
| Fetch (id : string)
| Delete (id : string)
| BrokerBecomes (b : Amqp.Broker).

Section Serving.

Variable bcrypt_hash : string → string.
Variable ObjectId : list User → string.
Variable castForQuery : Value → Completion Error (string → bool).
Variable castString : Value → Completion Error string.
Variable castObjectId : string → option string.

Definition happen (w : World) (h : Happening) : World :=
  match h with
  | Signup body => (signup bcrypt_hash ObjectId castForQuery castString body w).2
  | Fetch id => (getUserById castObjectId id w).2
  | Delete id => (deleteUser castObjectId id w).2
  | BrokerBecomes b =>
    {| users := users w; broker := b; channel := channel w; trace := trace w |}
  end.

Definition history (hs : list Happening) (w : World) : World := foldl happen w hs.

End Serving.

End Operation.

(** ** Further cases *)

Module Cases.

(** [bcrypt.compare] for [Scenario.hash], a signing function, and the two
    members of the user model that [signin] reads besides those of the
    controller. *)
Definition compare (password hashed : string) : bool :=
  String.eqb hashed (Scenario.hash password).
Definition sign (email id secret expiresIn : string) : string :=
  email +:+ "." +:+ id +:+ "." +:+ expiresIn.
Definition joined (u : UserService.User) : option string := Some "2024-01-01".
Definition posted (u : UserService.User) : option nat := Some 0.

(** The User Service once alice has signed up against [Scenario.fresh_broker]. *)
Definition announced : UserService.World :=
  (UserService.signup Scenario.hash Scenario.oid Scenario.filter_strings
     Scenario.cast_strings (UserService.Form.body Scenario.alice_body)
     (UserService.boot [] Scenario.fresh_broker)).2.

(** The signup event of a second user. *)
Definition bob_signup : list (string * string) :=
  [("userId", "u2"); ("email", "b@c.org"); ("name", "bob"); ("event", "user_signup")].

(** Requests to the User Service, the broker going down in between. *)
Definition busy_day : list Operation.Happening :=
  [ Operation.Signup Scenario.alice_body; Operation.Fetch "u1";
    Operation.BrokerBecomes Scenario.down_broker;
    Operation.Signup Scenario.alice_body; Operation.Delete "u1";
    Operation.Signup Scenario.bad_email_body ].

(** Two deliveries whose store calls are answered in the reverse order. *)
Definition crossed : list PostService.Step :=
  [ PostService.Deliver Scenario.signup_delivery;
    PostService.Deliver Scenario.next_delivery;
    PostService.Complete 1; PostService.Complete 0 ].

End Cases.

(** * Theorems *)

(** ** The consumer applied to the shadow store *)

Section ConsumerFacts.

Import PostService.

Variable schema : option string → option string → option string → option ShadowUser.

Lemma with_id_app (id : string) (l1 l2 : list ShadowUser) :
  with_id id (l1 ++ l2) = with_id id l1 ++ with_id id l2.
Proof. unfold with_id. apply filter_app. Qed.

Lemma with_id_absent (id : string) (l : list ShadowUser) :
  id ∉ _id <$> l → with_id id l = [].
Proof.
  induction l as [|u l IH]; intros Hnot; [done|].
  unfold with_id in *. rewrite fmap_cons, not_elem_of_cons in Hnot.
  destruct Hnot as [Hne Hnot].
  rewrite filter_cons_False by congruence. auto.
Qed.

Lemma with_id_present (id : string) (l : list ShadowUser) :
  NoDup (_id <$> l) → id ∈ _id <$> l → length (with_id id l) = 1.
Proof.
  induction l as [|u l IH]; intros Hnd Hin.
  - by apply elem_of_nil in Hin.
  - rewrite fmap_cons in Hnd, Hin. apply NoDup_cons in Hnd as [Hfresh Hnd].
    unfold with_id in *. destruct (decide (_id u = id)) as [Heq|Hne].
    + rewrite filter_cons_True by done. subst id.
      fold (with_id (_id u) l). by rewrite with_id_absent.
    + rewrite filter_cons_False by done. apply IH; [done|].
      apply elem_of_cons in Hin as [Heq|Hin]; [congruence|done].
Qed.

Lemma remove_first_absent (id : string) (l : list ShadowUser) :
  with_id id l = [] → remove_first (matches (Some id)) l = l.
Proof.
  induction l as [|u l IH]; intros Hnone; [done|].
  unfold with_id in *. simpl. destruct (decide (_id u = id)) as [Heq|Hne].
  - rewrite filter_cons_True in Hnone by done. discriminate.
  - rewrite filter_cons_False in Hnone by done.
    rewrite bool_decide_eq_false_2 by done. f_equal. auto.
Qed.

Lemma remove_first_subset (f : ShadowUser → bool) (l : list ShadowUser) (v : ShadowUser) :
  v ∈ remove_first f l → v ∈ l.
Proof.
  induction l as [|u l IH]; simpl; [done|]. destruct (f u).
  - intros Hv. apply elem_of_cons. by right.
  - rewrite !elem_of_cons. intros [->|Hv]; [by left | right; auto].
Qed.

Lemma remove_first_ids (id : string) (l : list ShadowUser) :
  NoDup (_id <$> l) →
  NoDup (_id <$> remove_first (matches (Some id)) l) ∧
  id ∉ _id <$> remove_first (matches (Some id)) l.
Proof.
  induction l as [|u l IH]; intros Hnd.
  - split; [constructor | apply not_elem_of_nil].
  - rewrite fmap_cons in Hnd. apply NoDup_cons in Hnd as [Hfresh Hnd]. simpl.
    destruct (decide (_id u = id)) as [Heq|Hne].
    + rewrite bool_decide_eq_true_2 by done. subst id. done.
    + rewrite bool_decide_eq_false_2 by done. destruct (IH Hnd) as [IH1 IH2].
      rewrite fmap_cons. split.
      * apply NoDup_cons. split; [|done]. intros Hin. apply Hfresh.
        apply list_elem_of_fmap in Hin as (v & -> & Hv).
        apply list_elem_of_fmap_2. by eapply remove_first_subset.
      * rewrite not_elem_of_cons. split; [congruence|done].
Qed.

(** A store call leaves the posts alone. *)
Lemma perform_posts (op : DbOp) (d : Db) : posts (perform schema op d).2 = posts d.
Proof.
  destruct op as [uid e n|uid]; simpl; [|done].
  unfold create. destruct (schema uid e n) as [doc|]; [|done].
  by destruct (bool_decide _).
Qed.

Lemma exec_posts (a : Async) (d : Db) (out : list LogLine) :
  posts (exec schema a d out).1.2 = posts d.
Proof.
  revert d out. induction a as [| e | l k IH | op k IH]; intros d out; simpl; try done.
  pose proof (perform_posts op d) as Hp. destruct (perform schema op d) as [r d'].
  rewrite IH. exact Hp.
Qed.

Lemma start_db (tag : nat) (a : Async) (c : Consumer) : db (start tag a c) = db c.
Proof.
  revert c. induction a as [| e | l k IH | op k IH]; intros c; simpl; try done.
  by rewrite IH.
Qed.

Lemma start_subscription (tag : nat) (a : Async) (c : Consumer) :
  subscription (start tag a c) = subscription c.
Proof.
  revert c. induction a as [| e | l k IH | op k IH]; intros c; simpl; try done.
  by rewrite IH.
Qed.

Lemma start_unacked (tag : nat) (a : Async) (c : Consumer) :
  unacked (start tag a c) = unacked c.
Proof.
  revert c. induction a as [| e | l k IH | op k IH]; intros c; simpl; try done.
  by rewrite IH.
Qed.

Lemma end_of_turn_db (a : Async) (c : Consumer) : db (end_of_turn a c) = db c.
Proof. unfold end_of_turn. by destruct (rejects a). Qed.

Lemma end_of_turn_unacked (a : Async) (c : Consumer) :
  unacked (end_of_turn a c) = unacked c.
Proof. unfold end_of_turn. by destruct (rejects a). Qed.

Lemma end_of_turn_trace (a : Async) (c : Consumer) :
  trace (end_of_turn a c) = trace c.
Proof. unfold end_of_turn. by destruct (rejects a). Qed.

Lemma onMessage_db (h : Json → Async) (m : option Amqp.Message) (c : Consumer) :
  db (onMessage h m c) = db c.
Proof.
  destruct m as [m|]; [|done]. unfold onMessage.
  destruct (JSON_parse _); [|done]. rewrite end_of_turn_db. simpl. by rewrite start_db.
Qed.

Lemma step_posts (c : Consumer) (s : Step) : posts (db (step schema c s)) = posts (db c).
Proof.
  destruct s as [m|i]; simpl.
  - unfold deliver. destruct (subscription c); [|done]. by rewrite onMessage_db.
  - unfold complete. destruct (pending c !! i) as [[[tag op] k]|]; [|done].
    pose proof (perform_posts op (db c)) as Hp.
    destruct (perform schema op (db c)) as [r d']. by rewrite end_of_turn_db, start_db.
Qed.

Section SignupEvent.

Variables (members : list (string * string)) (id : string).
Hypothesis Hevent : get members "event" = Some "user_signup".
Hypothesis HuserId : get members "userId" = Some id.

Hypothesis Hschema :
  schema (Some id) (get members "email") (get members "name") =
    Some {| _id := id; email := get members "email"; name := get members "name" |}.

(** A signup event for a new id inserts its record. *)
Lemma apply_signup_new (d : Db) :
  id ∉ _id <$> users d →
  apply_event schema (JObject members) d =
    (Resolved,
     {| users := users d ++
                 [{| _id := id; email := get members "email"; name := get members "name" |}];
        posts := posts d |},
     [UserCreated (get members "name")]).
Proof using Hevent HuserId Hschema.
  intros Hnew. unfold apply_event, handleUserEvent. simpl.
  rewrite Hevent, HuserId. rewrite decide_True by done. simpl. unfold create.
  rewrite Hschema. simpl. by rewrite bool_decide_eq_false_2.
Qed.

(** A signup event for an id the store already has: the insert is refused
    with a duplicate-key error, which the handler catches and logs; the
    handler resolves and the store is as it was. *)
Lemma apply_signup_duplicate (d : Db) :
  id ∈ _id <$> users d →
  apply_event schema (JObject members) d =
    (Resolved, d, [ErrorHandlingUserEvent (DuplicateKey id)]).
Proof using Hevent HuserId Hschema.
  intros Hdup. unfold apply_event, handleUserEvent. simpl.
  rewrite Hevent, HuserId. rewrite decide_True by done. simpl. unfold create.
  rewrite Hschema. simpl. by rewrite bool_decide_eq_true_2.
Qed.

End SignupEvent.

(** C1, as the code has it.  A signup event applied twice: both
    applications resolve, the second leaves the store as the first left it,
    and the store holds exactly one record with the event's id (the event's
    own record when the id was new).  An application that finds the id in
    the store is an insert refused with a duplicate-key error, which the
    handler catches and logs: the second application always is. *)
Theorem signup_event_idempotent (d0 : Db) (members : list (string * string)) (id : string) :
  get members "event" = Some "user_signup" →
  get members "userId" = Some id →
  schema (Some id) (get members "email") (get members "name") =
    Some {| _id := id; email := get members "email"; name := get members "name" |} →
  unique_ids d0 →
  ∃ d1,
    apply_event schema (JObject members) d0 =
      (Resolved, d1,
       if decide (id ∈ _id <$> users d0)
       then [ErrorHandlingUserEvent (DuplicateKey id)]
       else [UserCreated (get members "name")]) ∧
    apply_event schema (JObject members) d1 =
      (Resolved, d1, [ErrorHandlingUserEvent (DuplicateKey id)]) ∧
    length (with_id id (users d1)) = 1 ∧
    unique_ids d1 ∧
    (with_id id (users d0) = [] →
     with_id id (users d1) =
       [{| _id := id; email := get members "email"; name := get members "name" |}]).
Proof.
  intros Hev Hid Hok Hnd.
  destruct (decide (id ∈ _id <$> users d0)) as [Hin|Hnew].
  - exists d0.
    rewrite (apply_signup_duplicate members id Hev Hid Hok d0 Hin).
    repeat split; try done.
    + by apply with_id_present.
    + intros Hnone. apply with_id_present in Hin; [|done]. by rewrite Hnone in Hin.
  - eexists.
    rewrite (apply_signup_new members id Hev Hid Hok d0 Hnew).
    split; [done|]. rewrite (apply_signup_duplicate members id Hev Hid Hok).
    + repeat split; simpl.
      * rewrite with_id_app, with_id_absent by done. unfold with_id.
        by rewrite filter_cons_True.
      * unfold unique_ids. simpl. rewrite fmap_app. apply NoDup_app.
        repeat split; [done| |apply NoDup_singleton].
        intros x Hx Hx'. apply list_elem_of_singleton in Hx'. by subst.
      * intros _. rewrite with_id_app, with_id_absent by done. unfold with_id.
        by rewrite filter_cons_True.
    + simpl. rewrite fmap_app. apply elem_of_app. right.
      by apply list_elem_of_singleton.
Qed.


(** C9.  Whatever the consumer is delivered and in whatever order the store
    answers, the posts are the ones it started with; the same holds for one
    event applied on its own. *)
Theorem consumer_never_touches_posts :
  (∀ (steps : list Step) (c : Consumer),
     posts (db (run schema steps c)) = posts (db c)) ∧
  (∀ (message : Json) (d : Db),
     posts (apply_event schema message d).1.2 = posts d).
Proof.
  split.
  - intros steps. unfold run. induction steps as [|s steps IH]; intros c; simpl; [done|].
    rewrite IH. apply step_posts.
  - intros message d. apply exec_posts.
Qed.

(** *** What one delivery does *)

Lemma start_trace (tag : nat) (a : Async) (c : Consumer) :
  ∃ during,
    trace (start tag a c) = trace c ++ during ∧
    (∀ t op r, Completed t op r ∉ during) ∧ (∀ t, Acked t ∉ during).
Proof.
  revert c. induction a as [| e | l k IH | op k IH]; intros c; simpl.
  - exists []. rewrite app_nil_r. repeat split; intros; apply not_elem_of_nil.
  - eexists. split; [done|].
    split; intros; rewrite list_elem_of_singleton; discriminate.
  - destruct (IH (emit (Console l) c)) as (during & Htr & Hc & Ha).
    exists (Console l :: during). simpl in Htr. rewrite Htr, <- app_assoc.
    split; [done|]. split; intros; rewrite not_elem_of_cons; split; try done; auto.
  - eexists. split; [done|].
    split; intros; rewrite list_elem_of_singleton; discriminate.
Qed.

Lemma start_pending_unknown (tag : nat) (v : Json) (c : Consumer) :
  unknown_event v → start tag (handleUserEvent v) c = c.
Proof.
  intros (Hnull & Hsignup & Hdelete). unfold handleUserEvent.
  destruct v as [| |members]; [done| |]; simpl in *.
  - done.
  - rewrite decide_False by done. by rewrite decide_False by done.
Qed.

(** A payload that decodes but is no user event is logged and acknowledged;
    nothing else changes, so whatever is delivered next is processed as if
    the stray message had never come. *)
Lemma unknown_event_dropped (c : Consumer) (q : string) (m : Amqp.Message) (v : Json) :
  subscription c = Some q →
  JSON_parse (Amqp.content m) = Some v →
  unknown_event v →
  let c' := deliver handleUserEvent m c in
  db c' = db c ∧ pending c' = pending c ∧ subscription c' = Some q ∧
  channel c' = channel c ∧
  trace c' = trace c ++ [Console (ReceivedMessage v); Acked (Amqp.deliveryTag m)].
Proof.
  intros Hsub Hparse Hunknown. unfold deliver, onMessage. rewrite Hsub, Hparse.
  rewrite start_pending_unknown by done.
  assert (Hquiet : rejects (handleUserEvent v) = false).
  { destruct Hunknown as (Hnull & Hsignup & Hdelete). unfold handleUserEvent.
    destruct v as [| |members]; [done| |]; simpl in *; [done|].
    rewrite decide_False by done. by rewrite decide_False by done. }
  unfold end_of_turn. rewrite Hquiet. simpl. rewrite <- app_assoc. done.
Qed.

(** [null] as a payload: the handler's promise rejects outside its [try]
    and nobody handles the rejection; the callback goes on to acknowledge the
    message, and the process ends with the turn. *)
Lemma null_payload_rejects (c : Consumer) (q : string) (m : Amqp.Message) :
  subscription c = Some q →
  JSON_parse (Amqp.content m) = Some JNull →
  trace (deliver handleUserEvent m c) =
    trace c ++ [Console (ReceivedMessage JNull);
                UnhandledRejection (Amqp.deliveryTag m) TypeError;
                Acked (Amqp.deliveryTag m)] ∧
  subscription (deliver handleUserEvent m c) = None ∧
  pending (deliver handleUserEvent m c) = [].
Proof.
  intros Hsub Hparse. unfold deliver, onMessage. rewrite Hsub, Hparse. simpl.
  by rewrite <- !app_assoc.
Qed.

Lemma complete_unacked (i : nat) (c : Consumer) :
  unacked (complete schema i c) = unacked c.
Proof.
  unfold complete. destruct (pending c !! i) as [[[tag op] k]|]; [|done].
  destruct (perform schema op (db c)) as [r d'].
  by rewrite end_of_turn_unacked, start_unacked.
Qed.

(** The handler catches what its store calls throw: on every payload but
    [null] its promise resolves, whatever the store answers. *)
Lemma handler_swallows_store_errors (v : Json) (d : Db) (out : list LogLine) :
  v ≠ JNull → (exec schema (handleUserEvent v) d out).1.1 = Resolved.
Proof.
  intros Hv. unfold handleUserEvent. destruct v as [| |members]; [done|simpl..].
  - done.
  - destruct (decide (get members "event" = Some "user_signup")); simpl.
    + destruct (create schema _ _ _ d) as [[|err] d']; done.
    + destruct (decide (get members "event" = Some "user_delete")); done.
Qed.

(** Up to its first [await] the handler does nothing but issue its store
    call, and its promise is not rejected there. *)
Lemma handler_first_turn (tag : nat) (v : Json) (c : Consumer) :
  v ≠ JNull →
  rejects (handleUserEvent v) = false ∧
  subscription (start tag (handleUserEvent v) c) = subscription c ∧
  unacked (start tag (handleUserEvent v) c) = unacked c ∧
  trace (start tag (handleUserEvent v) c) =
    trace c ++ match store_call v with
               | Some op => [Issued tag op]
               | None => []
               end.
Proof.
  intros Hv. unfold handleUserEvent, store_call.
  destruct v as [| |members]; [done| |]; simpl.
  - by rewrite app_nil_r.
  - destruct (decide (get members "event" = Some "user_signup")); simpl; [done|].
    destruct (decide (get members "event" = Some "user_delete")); simpl; [done|].
    by rewrite app_nil_r.
Qed.

(** C2, as the code has it.  A message whose body decodes to something else
    than [null] is acknowledged by the callback once the handler has been
    called and has issued its store call, if it makes one: nothing else
    happens in between.  The consumer stays registered.  Whatever becomes of
    the store call, the handler catches and logs its error, and no
    completion, failed or not, makes a delivery unacknowledged again. *)
Theorem ack_whatever_the_outcome
    (c : Consumer) (q : string) (m : Amqp.Message) (v : Json) :
  subscription c = Some q →
  JSON_parse (Amqp.content m) = Some v →
  v ≠ JNull →
  trace (deliver handleUserEvent m c) =
    trace c ++ [Console (ReceivedMessage v)]
      ++ (match store_call v with
          | Some op => [Issued (Amqp.deliveryTag m) op]
          | None => []
          end)
      ++ [Acked (Amqp.deliveryTag m)] ∧
  (Amqp.deliveryTag m ∉ unacked (deliver handleUserEvent m c)) ∧
  subscription (deliver handleUserEvent m c) = Some q ∧
  (∀ i c', unacked (complete schema i c') = unacked c') ∧
  (∀ d out, (exec schema (handleUserEvent v) d out).1.1 = Resolved).
Proof.
  intros Hsub Hparse Hv. unfold deliver, onMessage. rewrite Hsub, Hparse.
  match goal with |- context [start ?t ?a ?c0] =>
    destruct (handler_first_turn t v c0 Hv) as (Hquiet & Hs & Hu & Htr) end.
  unfold end_of_turn. rewrite Hquiet.
  cbn [ack trace unacked subscription]. rewrite Htr, Hs, Hu. cbn [emit trace unacked subscription].
  repeat split.
  - by rewrite <- !app_assoc.
  - intros Hin. apply list_elem_of_filter in Hin as [Hne _]. by apply Hne.
  - intros i c'. apply complete_unacked.
  - intros d out. by apply handler_swallows_store_errors.
Qed.

End ConsumerFacts.

(** *** The theorems above at concrete inputs *)

Lemma signup_event_idempotent_witness :
  ∃ d1,
    PostService.apply_event Scenario.lenient (JObject Scenario.alice_signup)
      {| PostService.users := []; PostService.posts := [Scenario.a_post] |}
      = (PostService.Resolved, d1,
         if decide ("u1" ∈ PostService._id <$> [])
         then [PostService.ErrorHandlingUserEvent (PostService.DuplicateKey "u1")]
         else [PostService.UserCreated (Some "alice")]) ∧
    PostService.apply_event Scenario.lenient (JObject Scenario.alice_signup) d1
      = (PostService.Resolved, d1,
         [PostService.ErrorHandlingUserEvent (PostService.DuplicateKey "u1")]) ∧
    length (PostService.with_id "u1" (PostService.users d1)) = 1 ∧
    PostService.unique_ids d1 ∧
    (PostService.with_id "u1" [] = [] →
     PostService.with_id "u1" (PostService.users d1) = [Scenario.alice]).
Proof.
  apply (signup_event_idempotent Scenario.lenient
           {| PostService.users := []; PostService.posts := [Scenario.a_post] |}
           Scenario.alice_signup "u1").
  - reflexivity.
  - reflexivity.
  - reflexivity.
  - apply NoDup_nil_2.
Defined.

(** C1, as stated, fails.  Alice's signup event applied twice to a store
    that does not know her: the second application is an insert that fails
    with a duplicate-key error, which the handler logs as an error. *)
Lemma second_signup_fails_with_duplicate_key :
  PostService.apply_event Scenario.lenient (JObject Scenario.alice_signup)
    {| PostService.users := [Scenario.alice]; PostService.posts := [Scenario.a_post] |} =
    (PostService.Resolved,
     {| PostService.users := [Scenario.alice]; PostService.posts := [Scenario.a_post] |},
     [PostService.ErrorHandlingUserEvent (PostService.DuplicateKey "u1")]) ∧
  PostService.perform Scenario.lenient
    (PostService.Create (Some "u1") (Some "a@b.com") (Some "alice"))
    {| PostService.users := [Scenario.alice]; PostService.posts := [Scenario.a_post] |} =
    (PostService.Failed (PostService.DuplicateKey "u1"),
     {| PostService.users := [Scenario.alice]; PostService.posts := [Scenario.a_post] |}) ∧
  ¬ PostService.applied_twice_without_error Scenario.lenient
      (JObject Scenario.alice_signup) "u1"
      {| PostService.users := []; PostService.posts := [Scenario.a_post] |}.
Proof.
  split; [reflexivity|]. split; [reflexivity|].
  intros (d1 & out1 & out2 & H1 & H2 & _ & Hquiet & _).
  vm_compute in H1. injection H1 as <- _. vm_compute in H2. injection H2 as <-.
  apply (Hquiet (PostService.DuplicateKey "u1")). apply elem_of_cons. by left.
Qed.


Lemma ack_whatever_the_outcome_witness :
  PostService.trace
    (PostService.deliver PostService.handleUserEvent Scenario.signup_delivery
       (Scenario.listening [Scenario.alice])) =
    PostService.trace (Scenario.listening [Scenario.alice]) ++
    [PostService.Console (PostService.ReceivedMessage (JObject Scenario.alice_signup))]
      ++ (match PostService.store_call (JObject Scenario.alice_signup) with
          | Some op => [PostService.Issued 1 op]
          | None => []
          end)
      ++ [PostService.Acked 1] ∧
  (1 ∉ PostService.unacked
         (PostService.deliver PostService.handleUserEvent Scenario.signup_delivery
            (Scenario.listening [Scenario.alice]))) ∧
  PostService.subscription
    (PostService.deliver PostService.handleUserEvent Scenario.signup_delivery
       (Scenario.listening [Scenario.alice])) = Some "user_events" ∧
  (∀ i c', PostService.unacked (PostService.complete Scenario.lenient i c') =
           PostService.unacked c') ∧
  (∀ d out,
     (PostService.exec Scenario.lenient
        (PostService.handleUserEvent (JObject Scenario.alice_signup)) d out).1.1 =
     PostService.Resolved).
Proof.
  apply (ack_whatever_the_outcome Scenario.lenient
           (Scenario.listening [Scenario.alice]) "user_events"
           Scenario.signup_delivery (JObject Scenario.alice_signup)).
  - reflexivity.
  - reflexivity.
  - discriminate.
Defined.

(** C2, as stated, fails.  Alice's signup event is delivered to a store that
    already has her record.  The acknowledgement is in the trace before the
    insert has completed, the insert then fails, and the message stays
    acknowledged: the broker will not deliver it again. *)
Lemma ack_precedes_failed_insert :
  let c := PostService.run Scenario.lenient
             [PostService.Deliver Scenario.signup_delivery; PostService.Complete 0]
             (Scenario.listening [Scenario.alice]) in
  let insert := PostService.Create (Some "u1") (Some "a@b.com") (Some "alice") in
  PostService.trace c =
    [PostService.Console PostService.ConnectionEstablished;
     PostService.Console (PostService.ReceivedMessage (JObject Scenario.alice_signup));
     PostService.Issued 1 insert;
     PostService.Acked 1;
     PostService.Completed 1 insert (PostService.Failed (PostService.DuplicateKey "u1"));
     PostService.Console
       (PostService.ErrorHandlingUserEvent (PostService.DuplicateKey "u1"))] ∧
  PostService.unacked c = [] ∧
  ¬ PostService.ack_after_handler (PostService.trace c) ∧
  ¬ PostService.failed_not_acked (PostService.trace c) ∧
  ¬ PostService.acknowledge_after_success (PostService.trace c).
Proof.
  set (insert := PostService.Create (Some "u1") (Some "a@b.com") (Some "alice")).
  assert (Hearly : ¬ PostService.ack_after_handler
                       (PostService.trace
                          (PostService.run Scenario.lenient
                             [PostService.Deliver Scenario.signup_delivery;
                              PostService.Complete 0]
                             (Scenario.listening [Scenario.alice])))).
  { intros H.
    destruct (H [PostService.Console PostService.ConnectionEstablished;
                 PostService.Console
                   (PostService.ReceivedMessage (JObject Scenario.alice_signup));
                 PostService.Issued 1 insert]
                [PostService.Completed 1 insert
                   (PostService.Failed (PostService.DuplicateKey "u1"));
                 PostService.Console
                   (PostService.ErrorHandlingUserEvent (PostService.DuplicateKey "u1"))]
                1 insert) as [r Hr].
    - reflexivity.
    - rewrite !elem_of_cons. auto.
    - rewrite !elem_of_cons, elem_of_nil in Hr.
      destruct Hr as [Hr|[Hr|[Hr|[]]]]; discriminate. }
  assert (Hlost : ¬ PostService.failed_not_acked
                      (PostService.trace
                         (PostService.run Scenario.lenient
                            [PostService.Deliver Scenario.signup_delivery;
                             PostService.Complete 0]
                            (Scenario.listening [Scenario.alice])))).
  { intros H. apply (H 1 insert (PostService.DuplicateKey "u1")).
    - change (PostService.trace _) with
        [PostService.Console PostService.ConnectionEstablished;
         PostService.Console
           (PostService.ReceivedMessage (JObject Scenario.alice_signup));
         PostService.Issued 1 insert;
         PostService.Acked 1;
         PostService.Completed 1 insert
           (PostService.Failed (PostService.DuplicateKey "u1"));
         PostService.Console
           (PostService.ErrorHandlingUserEvent (PostService.DuplicateKey "u1"))].
      rewrite !elem_of_cons. auto 10.
    - change (PostService.trace _) with
        [PostService.Console PostService.ConnectionEstablished;
         PostService.Console
           (PostService.ReceivedMessage (JObject Scenario.alice_signup));
         PostService.Issued 1 insert;
         PostService.Acked 1;
         PostService.Completed 1 insert
           (PostService.Failed (PostService.DuplicateKey "u1"));
         PostService.Console
           (PostService.ErrorHandlingUserEvent (PostService.DuplicateKey "u1"))].
      rewrite !elem_of_cons. auto 10. }
  repeat split; try reflexivity; try assumption.
  intros [H _]. by apply Hearly.
Qed.

(** C4 at a body that is no JSON text.  [JSON.parse] throws in the callback,
    outside every [try]: nothing is logged, nothing is acknowledged, the
    consumer is gone, and the valid event that follows is not applied, while
    the same event delivered on its own is. *)
Theorem garbled_payload_ends_consumer :
  let bad := PostService.run Scenario.lenient
               [PostService.Deliver Scenario.garbled_delivery] (Scenario.listening []) in
  let after := PostService.run Scenario.lenient
                 [PostService.Deliver Scenario.garbled_delivery;
                  PostService.Deliver Scenario.next_delivery; PostService.Complete 0]
                 (Scenario.listening []) in
  let alone := PostService.run Scenario.lenient
                 [PostService.Deliver Scenario.next_delivery; PostService.Complete 0]
                 (Scenario.listening []) in
  PostService.trace bad =
    [PostService.Console PostService.ConnectionEstablished;
     PostService.UncaughtSyntaxError 1] ∧
  PostService.unacked bad = [1] ∧
  PostService.subscription bad = None ∧
  PostService.users (PostService.db after) = [] ∧
  PostService.trace after = PostService.trace bad ∧
  PostService.users (PostService.db alone) = [Scenario.alice].
Proof. repeat split; reflexivity. Qed.

(** ** The publisher and the controller *)

Section PublisherFacts.

Import UserService.

Lemma head_filter_None (P : User → Prop) `{∀ u, Decision (P u)} (l : list User) :
  head (filter P l) = None → ∀ u, u ∈ l → ¬ P u.
Proof.
  intros Hnone u Hu HP.
  assert (Hin : u ∈ filter P l) by by apply list_elem_of_filter.
  destruct (filter P l); [by apply elem_of_nil in Hin | discriminate].
Qed.

Lemma head_filter_Some (P : User → Prop) `{∀ u, Decision (P u)} (l : list User) (u : User) :
  head (filter P l) = Some u → u ∈ l ∧ P u.
Proof.
  intros Hsome. assert (Hin : u ∈ filter P l).
  { destruct (filter P l) as [|v k]; [discriminate|]. injection Hsome as ->.
    apply elem_of_cons. by left. }
  apply list_elem_of_filter in Hin. tauto.
Qed.

(** What a member of a form is to the checks of [signup]. *)
Lemma email_refused_form (m : option string) :
  email_refused (Form.member m) =
    Returned (match m with
              | Some s => String.eqb s EmptyString || negb (includes_at s)
                          || negb (RegExp.test emailPattern s)
              | None => true
              end).
Proof.
  destruct m as [s|]; [|done]. unfold email_refused. simpl.
  destruct (String.eqb s EmptyString); [done|]. simpl.
  destruct (includes_at s); [|done]. done.
Qed.

Lemma email_refused_string (s : string) :
  email_refused (VString s) =
    Returned (String.eqb s EmptyString || negb (includes_at s)
              || negb (RegExp.test emailPattern s)).
Proof. exact (email_refused_form (Some s)). Qed.

Lemma email_accepted_form (m : option string) :
  email_refused (Form.member m) = Returned false → ∃ s, m = Some s.
Proof using. rewrite email_refused_form. destruct m as [s|]; [by exists s|done]. Qed.

Lemma isValidName_string (v : Value) : isValidName v = true → ∃ s, v = VString s.
Proof using. destruct v; try done. by eexists. Qed.

Lemma isValidPassword_form (m : option string) :
  isValidPassword (Form.member m) = Returned (RegExp.test passwordPattern (String_ m)).
Proof using. by destruct m. Qed.

Lemma password_accepted_form (m : option string) :
  isValidPassword (Form.member m) = Returned true → ∃ s, m = Some s.
Proof.
  destruct m as [s|]; [by exists s|]. intros H. vm_compute in H. discriminate H.
Qed.

(** A form that passes the three checks has its three members. *)
Lemma well_formed_members (body : Form.t) :
  ¬ malformed body →
  ∃ e p n, body = {| Form.email := Some e; Form.password := Some p; Form.name := Some n |}.
Proof.
  intros Hok. destruct body as [e p n]. unfold malformed in Hok. simpl in Hok.
  destruct e as [e|]; [|exfalso; apply Hok; by left].
  destruct n as [n|]; [|exfalso; apply Hok; right; by left].
  destruct p as [p|]; [by exists e, p, n|].
  exfalso. apply Hok. right. right. vm_compute. reflexivity.
Qed.

Lemma malformed_dec (body : Form.t) : malformed body ∨ ¬ malformed body.
Proof.
  unfold malformed, Form.body. simpl. rewrite email_refused_form, isValidPassword_form.
  destruct (match Form.email body with Some _ => _ | None => _ end);
    [left; by left|].
  destruct (isValidName _); [|left; right; by left].
  destruct (RegExp.test _ _); [|left; right; by right].
  right. intros [H|[H|H]]; discriminate H.
Qed.

Variable bcrypt_hash : string → string.
Variable ObjectId : list User → string.
Variable castForQuery : Value → Completion Error (string → bool).
Variable castString : Value → Completion Error string.
Variable castObjectId : string → option string.

Local Abbreviation signup :=
  (UserService.signup bcrypt_hash ObjectId castForQuery castString).
Local Abbreviation getUserById := (UserService.getUserById castObjectId).
Local Abbreviation deleteUser := (UserService.deleteUser castObjectId).

#[local] Arguments email_refused : simpl never.
#[local] Arguments isValidName : simpl never.
#[local] Arguments isValidPassword : simpl never.
#[local] Arguments isValidEmail : simpl never.

Ltac run_monad :=
  unfold publishMessage, connectQueue, try_catch, bind, ret, throw, get_channel,
    set_channel, amqp, console, emit, respond; simpl.

(** The five ways a call of [publishMessage] can go. *)

Lemma publish_on_cached_channel (q : string) (msg : list (string * string)) (w : World) (ch : nat) :
  channel w = Some ch →
  Amqp.usable (broker w) ch = true →
  publishMessage q msg w =
    (Returned (),
     {| users := users w;
        broker := (Amqp.sendToQueue ch q (JSON_stringify msg) (broker w)).2;
        channel := Some ch;
        trace := trace w ++ [Sent q (JSON_stringify msg)] ++ [Console (MessageSent msg)] |}).
Proof.
  intros Hch Hok. run_monad. rewrite Hch. simpl.
  unfold Amqp.sendToQueue. rewrite Hok. simpl. by rewrite Hch, <- app_assoc.
Qed.

Lemma publish_on_stale_channel (q : string) (msg : list (string * string)) (w : World) (ch : nat) :
  channel w = Some ch →
  Amqp.usable (broker w) ch = false →
  publishMessage q msg w =
    (Threw (Broker Amqp.ChannelClosed),
     {| users := users w; broker := broker w; channel := Some ch;
        trace := trace w ++ [Console (ErrorPublishingMessage (Broker Amqp.ChannelClosed))] |}).
Proof.
  intros Hch Hstale. run_monad. rewrite Hch. simpl.
  unfold Amqp.sendToQueue. rewrite Hstale. simpl. by rewrite Hch.
Qed.

Lemma publish_unreachable (q : string) (msg : list (string * string)) (w : World) :
  channel w = None →
  Amqp.reachable (broker w) = false →
  publishMessage q msg w =
    (Threw (Broker Amqp.ConnectionRefused),
     {| users := users w; broker := broker w; channel := None;
        trace := trace w ++ [Console (ConnectionError (Broker Amqp.ConnectionRefused))]
                   ++ [Console (ErrorPublishingMessage (Broker Amqp.ConnectionRefused))] |}).
Proof.
  intros Hch Hdown. run_monad. rewrite Hch. simpl.
  unfold Amqp.createChannel. rewrite Hdown. simpl. by rewrite Hch, <- app_assoc.
Qed.

Lemma publish_channel_refused (q : string) (msg : list (string * string)) (w : World) :
  channel w = None →
  Amqp.reachable (broker w) = true →
  Amqp.opened (broker w) ∈ Amqp.closed (broker w) →
  publishMessage q msg w =
    (Threw (Broker Amqp.ChannelClosed),
     {| users := users w; broker := (Amqp.createChannel (broker w)).2;
        channel := Some (Amqp.opened (broker w));
        trace := trace w ++ [Console (ConnectionError (Broker Amqp.ChannelClosed))]
                   ++ [Console (ErrorPublishingMessage (Broker Amqp.ChannelClosed))] |}).
Proof.
  intros Hch Hup Hclosed. run_monad. rewrite Hch. simpl.
  unfold Amqp.createChannel. rewrite Hup. simpl.
  unfold Amqp.assertQueue, Amqp.usable. simpl.
  rewrite (bool_decide_eq_false_2 (_ ∉ _)) by auto. rewrite andb_false_r. simpl.
  by rewrite <- app_assoc.
Qed.

(** The broker with one more channel and the queue declared. *)
Lemma publish_first_time (q : string) (msg : list (string * string)) (w : World) :
  channel w = None →
  Amqp.reachable (broker w) = true →
  Amqp.opened (broker w) ∉ Amqp.closed (broker w) →
  ∃ b,
    Amqp.createChannel (broker w) = (Returned (Amqp.opened (broker w)), b) ∧
    publishMessage q msg w =
      (Returned (),
       {| users := users w;
          broker := (Amqp.sendToQueue (Amqp.opened (broker w)) q (JSON_stringify msg)
                       (Amqp.assertQueue (Amqp.opened (broker w)) "user_events" b).2).2;
          channel := Some (Amqp.opened (broker w));
          trace := trace w ++ [Console ConnectionEstablished]
                     ++ [Sent q (JSON_stringify msg)] ++ [Console (MessageSent msg)] |}).
Proof.
  intros Hch Hup Hfresh. run_monad. rewrite Hch. simpl.
  unfold Amqp.createChannel. rewrite Hup. simpl. eexists. split; [done|].
  assert (Hok : ∀ up qs, Amqp.usable
            {| Amqp.reachable := up; Amqp.queues := qs;
               Amqp.opened := S (Amqp.opened (broker w));
               Amqp.closed := Amqp.closed (broker w) |} (Amqp.opened (broker w)) = true).
  { intros up qs. unfold Amqp.usable. simpl.
    rewrite bool_decide_eq_true_2 by lia. by rewrite bool_decide_eq_true_2. }
  unfold Amqp.assertQueue. rewrite Hok. simpl.
  destruct (Amqp.queues (broker w) !! "user_events") eqn:Hq; simpl;
    unfold Amqp.sendToQueue; rewrite Hok; simpl; by rewrite <- !app_assoc.
Qed.

(** Whatever the state, a publish leaves the users alone and either sends the
    message or throws and leaves every queue as it was. *)
Lemma publishMessage_outcomes (q : string) (msg : list (string * string)) (w : World) :
  users (publishMessage q msg w).2 = users w ∧
  (((publishMessage q msg w).1 = Returned () ∧
    ∃ logs, (logs = [] ∨ logs = [Console ConnectionEstablished]) ∧
      trace (publishMessage q msg w).2 =
        trace w ++ logs ++ [Sent q (JSON_stringify msg)] ++ [Console (MessageSent msg)]) ∨
   (∃ e logs,
      (publishMessage q msg w).1 = Threw e ∧
      (logs = [] ∨ logs = [Console (ConnectionError e)]) ∧
      trace (publishMessage q msg w).2 =
        trace w ++ logs ++ [Console (ErrorPublishingMessage e)] ∧
      Amqp.queues (broker (publishMessage q msg w).2) = Amqp.queues (broker w))).
Proof.
  destruct (channel w) as [ch|] eqn:Hch.
  - destruct (Amqp.usable (broker w) ch) eqn:Hok.
    + rewrite (publish_on_cached_channel q msg w ch Hch Hok). simpl.
      split; [done|]. left. split; [done|]. exists []. auto.
    + rewrite (publish_on_stale_channel q msg w ch Hch Hok). simpl.
      split; [done|]. right. exists (Broker Amqp.ChannelClosed), []. auto.
  - destruct (Amqp.reachable (broker w)) eqn:Hup.
    + destruct (decide (Amqp.opened (broker w) ∈ Amqp.closed (broker w))) as [Hin|Hnew].
      * rewrite (publish_channel_refused q msg w Hch Hup Hin). simpl.
        split; [done|]. right. eexists (Broker Amqp.ChannelClosed), [_].
        repeat split; [by right|].
        unfold Amqp.createChannel. by rewrite Hup.
      * destruct (publish_first_time q msg w Hch Hup Hnew) as (b & _ & ->). simpl.
        split; [done|]. left. split; [done|]. eexists [_]. split; [by right|done].
    + rewrite (publish_unreachable q msg w Hch Hup). simpl.
      split; [done|]. right. eexists (Broker Amqp.ConnectionRefused), [_].
      repeat split. by right.
Qed.

Lemma sendToQueue_channels (ch : nat) (q : string) (content : Buffer) (b : Amqp.Broker) :
  Amqp.opened (Amqp.sendToQueue ch q content b).2 = Amqp.opened b ∧
  Amqp.closed (Amqp.sendToQueue ch q content b).2 = Amqp.closed b.
Proof.
  unfold Amqp.sendToQueue. destruct (Amqp.usable b ch); [|done]. simpl.
  by destruct (Amqp.queues b !! q).
Qed.

(** A send on a usable channel appends to the queue of that name and to no
    other. *)
Lemma sendToQueue_appends (ch : nat) (q : string) (content : Buffer) (b : Amqp.Broker)
    (held : list Buffer) :
  Amqp.usable b ch = true →
  Amqp.queues b !! q = Some held →
  Amqp.waiting (Amqp.sendToQueue ch q content b).2 q = held ++ [content] ∧
  ∀ q', q' ≠ q → Amqp.waiting (Amqp.sendToQueue ch q content b).2 q' = Amqp.waiting b q'.
Proof.
  intros Hok Hq. unfold Amqp.sendToQueue, Amqp.waiting. rewrite Hok, Hq. simpl. split.
  - by rewrite lookup_insert_eq.
  - intros q' Hne. by rewrite lookup_insert_ne.
Qed.

(** C7, as the code has it.  The process starts without a channel; the first
    publish opens one and caches it; every later publish uses the cached
    channel as it is and opens nothing: on a channel that is no longer usable
    the publish throws, the broker is untouched and the stale channel stays
    cached. *)
Theorem publisher_channel_cached_never_renewed :
  (∀ l b, channel (boot l b) = None) ∧
  ∀ (q : string) (msg : list (string * string)) (w : World),
    match channel w with
    | None =>
      if Amqp.reachable (broker w)
      then channel (publishMessage q msg w).2 = Some (Amqp.opened (broker w)) ∧
           Amqp.opened (broker (publishMessage q msg w).2) = S (Amqp.opened (broker w)) ∧
           (publishMessage q msg w).1 =
             (if decide (Amqp.opened (broker w) ∈ Amqp.closed (broker w))
              then Threw (Broker Amqp.ChannelClosed) else Returned ())
      else (publishMessage q msg w).1 = Threw (Broker Amqp.ConnectionRefused) ∧
           channel (publishMessage q msg w).2 = None ∧
           broker (publishMessage q msg w).2 = broker w
    | Some ch =>
      channel (publishMessage q msg w).2 = Some ch ∧
      Amqp.opened (broker (publishMessage q msg w).2) = Amqp.opened (broker w) ∧
      if Amqp.usable (broker w) ch
      then (publishMessage q msg w).1 = Returned ()
      else (publishMessage q msg w).1 = Threw (Broker Amqp.ChannelClosed) ∧
           broker (publishMessage q msg w).2 = broker w
    end.
Proof.
  split; [done|]. intros q msg w.
  destruct (channel w) as [ch|] eqn:Hch.
  - destruct (Amqp.usable (broker w) ch) eqn:Hok.
    + rewrite (publish_on_cached_channel q msg w ch Hch Hok). simpl.
      repeat split. apply sendToQueue_channels.
    + by rewrite (publish_on_stale_channel q msg w ch Hch Hok).
  - destruct (Amqp.reachable (broker w)) eqn:Hup.
    + destruct (decide (Amqp.opened (broker w) ∈ Amqp.closed (broker w))) as [Hin|Hnew].
      * rewrite (publish_channel_refused q msg w Hch Hup Hin). simpl.
        unfold Amqp.createChannel. by rewrite Hup.
      * destruct (publish_first_time q msg w Hch Hup Hnew) as (b & Hb & ->). simpl.
        repeat split. unfold Amqp.createChannel in Hb. rewrite Hup in Hb.
        injection Hb as <-.
        destruct (sendToQueue_channels (Amqp.opened (broker w)) q (JSON_stringify msg)
                    (Amqp.assertQueue (Amqp.opened (broker w)) "user_events"
                       {| Amqp.reachable := true; Amqp.queues := Amqp.queues (broker w);
                          Amqp.opened := S (Amqp.opened (broker w));
                          Amqp.closed := Amqp.closed (broker w) |}).2) as [-> _].
        unfold Amqp.assertQueue. destruct (Amqp.usable _ _); [|done]. simpl.
        by destruct (_ !! _).
    + by rewrite (publish_unreachable q msg w Hch Hup).
Qed.

(** *** The controller *)

(** The queries, the hash and the casts leave the world as it is. *)
Lemma findOne_world (path : User → string) (v : Value) (w : World) :
  (findOne castForQuery path v w).2 = w.
Proof.
  unfold findOne, bind, eval. destruct v; simpl; try done; by destruct (castForQuery _).
Qed.

Lemma findOne_string (path : User → string) (s : string) (w : World) :
  findOne castForQuery path (VString s) w =
    (Returned (head (filter (λ u, path u = s) (users w))), w).
Proof using. done. Qed.

Lemma hash_world (password : Value) (w : World) : (hash bcrypt_hash password w).2 = w.
Proof using. by destruct password. Qed.

Lemma member_world (v : Value) (w : World) : (member castString v w).2 = w.
Proof using. unfold member, eval. by destruct v. Qed.

Lemma cast_id_world (id : string) (w : World) : (cast_id castObjectId id w).2 = w.
Proof.
  unfold cast_id. destruct (bool_decide _); [done|]. by destruct (castObjectId id).
Qed.

Lemma cast_id_stored (id : string) (w : World) :
  id ∈ _id <$> users w → cast_id castObjectId id w = (Returned (), w).
Proof using. intros Hin. unfold cast_id. by rewrite bool_decide_eq_true_2. Qed.

Lemma cast_id_outcomes (id : string) (w : World) :
  cast_id castObjectId id w = (Returned (), w) ∨
  ∃ message, castObjectId id = Some message ∧ (id ∉ _id <$> users w) ∧
             cast_id castObjectId id w = (Threw (CastError message), w).
Proof.
  unfold cast_id. destruct (bool_decide _) eqn:Hin; [by left|].
  apply bool_decide_eq_false_1 in Hin.
  destruct (castObjectId id) as [message|]; [right; by exists message|by left].
Qed.

Lemma findById_outcomes (id : string) (w : World) :
  findById castObjectId id w =
    (Returned (head (filter (λ u, _id u = id) (users w))), w) ∨
  ∃ message, castObjectId id = Some message ∧ (∀ u, u ∈ users w → _id u ≠ id) ∧
             findById castObjectId id w = (Threw (CastError message), w).
Proof.
  unfold findById, bind.
  destruct (cast_id_outcomes id w) as [->|(message & Hmessage & Hnot & ->)]; [by left|].
  right. exists message. repeat split; try done.
  intros u Hu Heq. apply Hnot. rewrite <- Heq. by apply list_elem_of_fmap_2.
Qed.

Lemma findById_absent (id : string) (w : World) :
  (∀ u, u ∈ users w → _id u ≠ id) →
  findById castObjectId id w =
    match castObjectId id with
    | None => (Returned None, w)
    | Some message => (Threw (CastError message), w)
    end.
Proof.
  intros Hnone.
  assert (Hhead : head (filter (λ u, _id u = id) (users w)) = None).
  { destruct (head _) as [v|] eqn:Hv; [|done].
    apply head_filter_Some in Hv as [Hin Hid]. by destruct (Hnone v). }
  unfold findById, bind, cast_id. cbv beta.
  rewrite bool_decide_eq_false_2.
  - destruct (castObjectId id); [done|]. by rewrite Hhead.
  - intros Hin. apply list_elem_of_fmap in Hin as (u & -> & Hu). by apply (Hnone u).
Qed.

Lemma findByIdAndDelete_stored (id : string) (w : World) :
  id ∈ _id <$> users w →
  findByIdAndDelete castObjectId id w =
    (Returned (),
     {| users := remove_first id (users w); broker := broker w; channel := channel w;
        trace := trace w ++ [Deleted id] |}).
Proof. intros Hin. unfold findByIdAndDelete, bind. by rewrite cast_id_stored. Qed.

Ltac run_controller :=
  unfold UserService.signup, create, respond, try_catch, bind, ret, eval, throw,
    console, emit; simpl.

(** A call whose world is known to be unchanged, split by how it ended. *)
Ltac settle call Hworld :=
  let r := fresh "r" in
  let w1 := fresh "w" in
  let Hcall := fresh "Hcall" in
  pose proof Hworld as Hcall;
  destruct call as [r w1] eqn:?; simpl in Hcall; subst w1.

(** The four ways a call of [signup] can go: refused; thrown out of before
    the store is written; the user stored and the event sent; the user stored
    and the publish failed. *)
Lemma signup_outcomes (body : Body.t) (w : World) :
  let r := (signup body w).1 in
  let w' := (signup body w).2 in
  (∃ msg, r = Returned {| status := 400; json := Message msg |} ∧ w' = w) ∨
  (∃ e,
     r = Returned {| status := 500; json := Message "Something went wrong" |} ∧
     w' = {| users := users w; broker := broker w; channel := channel w;
             trace := trace w ++ [Console (SignupError e)] |}) ∨
  (∃ u,
     let message := [("userId", _id u); ("email", email u); ("name", name u);
                     ("event", "user_signup")] in
     _id u = ObjectId (users w) ∧
     users w' = users w ++ [u] ∧
     ((r = Returned {| status := 201; json := Result u |} ∧
       ∃ logs, (logs = [] ∨ logs = [Console ConnectionEstablished]) ∧
         trace w' = trace w ++ [Created u] ++ logs ++
                    [Sent "user_events" (JSON_stringify message)] ++
                    [Console (MessageSent message)]) ∨
      (∃ e logs,
         r = Returned {| status := 500; json := Message "Something went wrong" |} ∧
         (logs = [] ∨ logs = [Console (ConnectionError e)]) ∧
         trace w' = trace w ++ [Created u] ++ logs ++
                    [Console (ErrorPublishingMessage e)] ++ [Console (SignupError e)] ∧
         Amqp.queues (broker w') = Amqp.queues (broker w)))).
Proof.
  run_controller.
  destruct (email_refused (Body.email body)) as [[|]|e]; simpl;
    [left; eauto| |right; left; eauto].
  destruct (isValidName (Body.name body)); simpl; [|left; eauto].
  destruct (isValidPassword (Body.password body)) as [[|]|e]; simpl;
    [|left; eauto|right; left; eauto].
  settle (findOne castForQuery email (Body.email body) w)
         (findOne_world email (Body.email body) w).
  destruct r as [[u1|]|e]; simpl; [left; eauto| |right; left; eauto].
  settle (findOne castForQuery name (Body.name body) w)
         (findOne_world name (Body.name body) w).
  destruct r as [[u2|]|e]; simpl; [left; eauto| |right; left; eauto].
  settle (hash bcrypt_hash (Body.password body) w) (hash_world (Body.password body) w).
  destruct r as [hashed|e]; simpl; [|right; left; eauto].
  settle (member castString (Body.email body) w) (member_world (Body.email body) w).
  destruct r as [e1|e]; simpl; [|right; left; eauto].
  settle (member castString (Body.name body) w) (member_world (Body.name body) w).
  destruct r as [n1|e]; simpl; [|right; left; eauto].
  right. right.
  exists {| _id := ObjectId (users w); email := e1; password := hashed; name := n1 |}.
  cbv zeta. split; [done|].
  match goal with |- context [publishMessage ?q ?m ?w1] =>
    destruct (publishMessage_outcomes q m w1) as [Husers [[Hr (logs & Hlogs & Htr)]|
                                                   (e & logs & Hr & Hlogs & Htr & Hq)]];
    destruct (publishMessage q m w1) as [r w2] end; simpl in *; subst r.
  - split; [done|]. left. split; [done|]. exists logs. split; [done|].
    simpl. rewrite Htr. by rewrite <- !app_assoc.
  - split; [done|]. right. exists e, logs. repeat split; try done.
    simpl. rewrite Htr. by rewrite <- !app_assoc.
Qed.

(** The three ways a call of [signup] on a form can go. *)
Lemma signup_form_outcomes (body : Form.t) (w : World) :
  let r := (signup body w).1 in
  let w' := (signup body w).2 in
  let u := {| _id := ObjectId (users w); email := String_ (Form.email body);
              password := bcrypt_hash (String_ (Form.password body));
              name := String_ (Form.name body) |} in
  let message := [("userId", _id u); ("email", email u); ("name", name u);
                  ("event", "user_signup")] in
  (∃ msg, r = Returned {| status := 400; json := Message msg |} ∧ w' = w) ∨
  (r = Returned {| status := 201; json := Result u |} ∧
   users w' = users w ++ [u] ∧
   ∃ logs, (logs = [] ∨ logs = [Console ConnectionEstablished]) ∧
     trace w' = trace w ++ [Created u] ++ logs ++
                [Sent "user_events" (JSON_stringify message)] ++
                [Console (MessageSent message)]) ∨
  (∃ e logs,
     r = Returned {| status := 500; json := Message "Something went wrong" |} ∧
     users w' = users w ++ [u] ∧
     (logs = [] ∨ logs = [Console (ConnectionError e)]) ∧
     trace w' = trace w ++ [Created u] ++ logs ++
                [Console (ErrorPublishingMessage e)] ++ [Console (SignupError e)] ∧
     Amqp.queues (broker w') = Amqp.queues (broker w)).
Proof.
  destruct (malformed_dec body) as [Hbad|Hok].
  { left. unfold malformed, Form.body in Hbad. simpl in Hbad. run_controller.
    destruct Hbad as [H|[H|H]].
    - rewrite H. simpl. eauto.
    - destruct (email_refused _) as [[|]|e] eqn:He; simpl; [eauto| |].
      + rewrite H. simpl. eauto.
      + rewrite email_refused_form in He. discriminate He.
    - destruct (email_refused _) as [[|]|e] eqn:He; simpl; [eauto| |].
      + destruct (isValidName _); simpl; [|eauto]. rewrite H. simpl. eauto.
      + rewrite email_refused_form in He. discriminate He. }
  pose proof Hok as Hchecks.
  destruct (well_formed_members body Hok) as (e & p & n & ->).
  unfold malformed in Hchecks. simpl in Hchecks.
  run_controller.
  destruct (email_refused (VString e)) as [[|]|err] eqn:He;
    [exfalso; apply Hchecks; by left| |by rewrite (email_refused_string e) in He].
  simpl.
  destruct (isValidName (VString n)) eqn:Hn;
    [|exfalso; apply Hchecks; right; by left].
  simpl.
  assert (Hp : RegExp.test passwordPattern p = true).
  { destruct (RegExp.test passwordPattern p) eqn:Hp; [done|].
    exfalso. apply Hchecks. right. right. unfold isValidPassword, test. simpl.
    by rewrite Hp. }
  rewrite Hp. simpl.
  destruct (head (filter (λ u, email u = e) (users w))) as [u1|] eqn:Hbyemail; simpl;
    [left; eauto|].
  destruct (head (filter (λ u, name u = n) (users w))) as [u2|] eqn:Hbyname; simpl;
    [left; eauto|].
  right.
  match goal with |- context [publishMessage ?q ?m ?w1] =>
    destruct (publishMessage_outcomes q m w1) as [Husers [[Hr (logs & Hlogs & Htr)]|
                                                   (err & logs & Hr & Hlogs & Htr & Hq)]];
    destruct (publishMessage q m w1) as [r w2] end; simpl in *; subst r.
  - left. split; [done|]. split; [done|]. exists logs. split; [done|].
    simpl. rewrite Htr. by rewrite <- !app_assoc.
  - right. exists err, logs. repeat split; try done.
    simpl. rewrite Htr. by rewrite <- !app_assoc.
Qed.

(** The four ways a call of [deleteUser] can go. *)
Lemma deleteUser_outcomes (id : string) (w : World) :
  let r := (deleteUser id w).1 in
  let w' := (deleteUser id w).2 in
  let message := [("userId", id); ("event", "user_delete")] in
  (r = Returned {| status := 404; json := Message "User not found" |} ∧ w' = w ∧
   ∀ u, u ∈ users w → _id u ≠ id) ∨
  (∃ msg,
     castObjectId id = Some msg ∧
     r = Returned {| status := 500; json := Message "Something went wrong" |} ∧
     w' = {| users := users w; broker := broker w; channel := channel w;
             trace := trace w ++ [Console (ErrorDeletingUser (CastError msg))] |} ∧
     ∀ u, u ∈ users w → _id u ≠ id) ∨
  (r = Returned {| status := 200; json := Message "User deleted successfully" |} ∧
   users w' = remove_first id (users w) ∧
   ∃ logs, (logs = [] ∨ logs = [Console ConnectionEstablished]) ∧
     trace w' = trace w ++ [Deleted id] ++ logs ++
                [Sent "user_events" (JSON_stringify message)] ++
                [Console (MessageSent message)] ++
                [Console (UserDeletedAndPublished id)]) ∨
  (∃ e logs,
     r = Returned {| status := 500; json := Message "Something went wrong" |} ∧
     users w' = remove_first id (users w) ∧
     (logs = [] ∨ logs = [Console (ConnectionError e)]) ∧
     trace w' = trace w ++ [Deleted id] ++ logs ++
                [Console (ErrorPublishingMessage e)] ++ [Console (ErrorDeletingUser e)] ∧
     Amqp.queues (broker w') = Amqp.queues (broker w)).
Proof.
  unfold UserService.deleteUser, try_catch, bind.
  destruct (findById_outcomes id w) as [->|(msg & Hmsg & Hnot & ->)].
  2: { right. left. exists msg. by repeat split. }
  destruct (head (filter (λ u, _id u = id) (users w))) as [u|] eqn:Hfound.
  { apply head_filter_Some in Hfound as [Hin Hid].
    rewrite findByIdAndDelete_stored by (rewrite <- Hid; by apply list_elem_of_fmap_2).
    right. right.
    match goal with |- context [publishMessage ?q ?m ?w1] =>
      destruct (publishMessage_outcomes q m w1) as [Husers [[Hr (logs & Hlogs & Htr)]|
                                                     (e & logs & Hr & Hlogs & Htr & Hq)]];
      destruct (publishMessage q m w1) as [r w2] end; simpl in *; subst r.
    - left. split; [done|]. split; [done|]. exists logs. split; [done|].
      simpl. rewrite Htr. by rewrite <- !app_assoc.
    - right. exists e, logs. repeat split; try done.
      simpl. rewrite Htr. by rewrite <- !app_assoc. }
  left. repeat split. intros u Hu. by apply (head_filter_None _ _ Hfound u).
Qed.

Lemma sends_follow_commit_nil : sends_follow_commit [].
Proof. intros pre post q content Heq. by destruct pre. Qed.

Lemma sends_follow_commit_head (e : Event) (rest : list Event) :
  committed e → sends_follow_commit (e :: rest).
Proof.
  intros He pre post q content Heq. destruct pre as [|e' pre]; simpl in Heq.
  - injection Heq as -> _. done.
  - injection Heq as -> _. exists e'. split; [|done]. apply elem_of_cons. by left.
Qed.

Lemma sends_follow_commit_log (l : LogLine) : sends_follow_commit [Console l].
Proof.
  intros pre post q content Heq. destruct pre as [|e' [|e'' pre]]; discriminate Heq.
Qed.

Ltac elems := repeat (rewrite elem_of_app || rewrite elem_of_cons || rewrite elem_of_nil).

(** Going through the members of an explicit list of events. *)
Ltac one_of H :=
  repeat match type of H with
         | _ ∨ _ => destruct H as [H|H]
         | False => destruct H
         | _ = _ => first [discriminate H | injection H as -> ->]
         end.

(** C3.  In a call of [signup] or [deleteUser] every send comes after the
    store mutation of that call.  When the publish fails the response is the
    generic 500 and the mutation stands: the user is still created, or still
    deleted. *)
Theorem publish_follows_commit :
  (∀ (body : Body.t) (w : World), ∃ delta,
     trace (signup body w).2 = trace w ++ delta ∧
     sends_follow_commit delta ∧
     ∀ e, Console (ErrorPublishingMessage e) ∈ delta →
       (signup body w).1 =
         Returned {| status := 500; json := Message "Something went wrong" |} ∧
       ∃ u, Created u ∈ delta ∧
            users (signup body w).2 = users w ++ [u]) ∧
  (∀ (id : string) (w : World), ∃ delta,
     trace (deleteUser id w).2 = trace w ++ delta ∧
     sends_follow_commit delta ∧
     ∀ e, Console (ErrorPublishingMessage e) ∈ delta →
       (deleteUser id w).1 =
         Returned {| status := 500; json := Message "Something went wrong" |} ∧
       Deleted id ∈ delta ∧
       users (deleteUser id w).2 = remove_first id (users w)).
Proof.
  split.
  - intros body w.
    destruct (signup_outcomes body w)
      as [(msg & Hr & Hw)|[(e & Hr & Hw)|
          (u & _ & Hu & [(Hr & logs & Hlogs & Htr)|(e & logs & Hr & Hlogs & Htr & _)])]].
    + exists []. rewrite Hw, app_nil_r. split; [done|].
      split; [apply sends_follow_commit_nil|]. intros e He. by apply elem_of_nil in He.
    + eexists. rewrite Hw. split; [done|]. split; [apply sends_follow_commit_log|].
      intros e'. elems. intros H. exfalso. one_of H.
    + eexists. split; [exact Htr|]. split; [by apply sends_follow_commit_head|].
      intros e. elems. destruct Hlogs as [->| ->]; elems; intros H; exfalso; one_of H.
    + eexists. split; [exact Htr|]. split; [by apply sends_follow_commit_head|].
      intros e' _. split; [done|]. eexists. split; [|exact Hu]. elems. auto.
  - intros id w.
    destruct (deleteUser_outcomes id w)
      as [(Hr & Hw & _)|[(msg & _ & Hr & Hw & _)|[(Hr & Hu & logs & Hlogs & Htr)|
                         (e & logs & Hr & Hu & Hlogs & Htr & _)]]].
    + exists []. rewrite Hw, app_nil_r. split; [done|].
      split; [apply sends_follow_commit_nil|]. intros e He. by apply elem_of_nil in He.
    + eexists. rewrite Hw. split; [done|]. split; [apply sends_follow_commit_log|].
      intros e'. elems. intros H. exfalso. one_of H.
    + eexists. split; [exact Htr|]. split; [by apply sends_follow_commit_head|].
      intros e. elems. destruct Hlogs as [->| ->]; elems; intros H; exfalso; one_of H.
    + eexists. split; [exact Htr|]. split; [by apply sends_follow_commit_head|].
      intros e' _. split; [done|]. split; [|exact Hu]. elems. auto.
Qed.

Lemma signup_message_is_user_event (id e n : string) :
  user_event (JSON_stringify [("userId", id); ("email", e); ("name", n);
                              ("event", "user_signup")]).
Proof. eexists. split; [done|]. simpl. split; [done|]. left. by repeat split. Qed.

Lemma delete_message_is_user_event (id : string) :
  user_event (JSON_stringify [("userId", id); ("event", "user_delete")]).
Proof. eexists. split; [done|]. simpl. split; [done|]. by right. Qed.

(** C6.  Whatever [signup] or [deleteUser] sends goes to the queue
    ["user_events"] and is the serialized object of the contract: for a signup
    the id, email and name of the user just created with the tag
    ["user_signup"], for a delete the id with the tag ["user_delete"].  The
    consumer, when it has registered, is consuming from ["user_events"]. *)
Theorem published_messages_follow_contract :
  (∀ (body : Body.t) (w : World), ∃ delta,
     trace (signup body w).2 = trace w ++ delta ∧
     ∀ q content, Sent q content ∈ delta →
       q = "user_events" ∧ user_event content ∧
       ∃ u, Created u ∈ delta ∧
            content = JSON_stringify [("userId", _id u); ("email", email u);
                                      ("name", name u); ("event", "user_signup")]) ∧
  (∀ (id : string) (w : World), ∃ delta,
     trace (deleteUser id w).2 = trace w ++ delta ∧
     ∀ q content, Sent q content ∈ delta →
       q = "user_events" ∧ user_event content ∧
       content = JSON_stringify [("userId", id); ("event", "user_delete")]) ∧
  (∀ (b : Amqp.Broker) (d : PostService.Db),
     PostService.subscription
       (PostService.consumeMessages b (PostService.boot d)).2 =
     if Amqp.reachable b && bool_decide (Amqp.opened b ∉ Amqp.closed b)
     then Some "user_events" else None).
Proof.
  split; [|split].
  - intros body w.
    destruct (signup_outcomes body w)
      as [(msg & Hr & Hw)|[(e & Hr & Hw)|
          (u & _ & Hu & [(Hr & logs & Hlogs & Htr)|(e & logs & Hr & Hlogs & Htr & _)])]].
    + exists []. rewrite Hw, app_nil_r. split; [done|].
      intros q content He. by apply elem_of_nil in He.
    + eexists. rewrite Hw. split; [done|]. intros q content. elems.
      intros H. exfalso. one_of H.
    + eexists. split; [exact Htr|]. intros q content. elems.
      destruct Hlogs as [->| ->]; elems; intros H; one_of H;
        (split; [done|]); (split; [apply signup_message_is_user_event|]);
        exists u; (split; [|done]); elems; auto.
    + eexists. split; [exact Htr|]. intros q content. elems.
      destruct Hlogs as [->| ->]; elems; intros H; exfalso; one_of H.
  - intros id w.
    destruct (deleteUser_outcomes id w)
      as [(Hr & Hw & _)|[(msg & _ & Hr & Hw & _)|[(Hr & Hu & logs & Hlogs & Htr)|
                         (e & logs & Hr & Hu & Hlogs & Htr & _)]]].
    + exists []. rewrite Hw, app_nil_r. split; [done|].
      intros q content He. by apply elem_of_nil in He.
    + eexists. rewrite Hw. split; [done|]. intros q content. elems.
      intros H. exfalso. one_of H.
    + eexists. split; [exact Htr|]. intros q content. elems.
      destruct Hlogs as [->| ->]; elems; intros H; one_of H;
        (split; [done|]); (split; [apply delete_message_is_user_event|done]).
    + eexists. split; [exact Htr|]. intros q content. elems.
      destruct Hlogs as [->| ->]; elems; intros H; exfalso; one_of H.
  - intros b d. unfold PostService.consumeMessages, PostService.connectQueue. simpl.
    unfold Amqp.createChannel. destruct (Amqp.reachable b) eqn:Hup; simpl; [|done].
    unfold Amqp.assertQueue, Amqp.consume, Amqp.usable. simpl.
    rewrite (bool_decide_eq_true_2 (_ < _)) by lia. simpl.
    destruct (bool_decide (Amqp.opened b ∉ Amqp.closed b)) eqn:Hnew; simpl; [|done].
    destruct (Amqp.queues b !! "user_events"); simpl;
      rewrite (bool_decide_eq_true_2 (_ < _)) by lia; by rewrite Hnew.
Qed.

(** A form that one of the format checks refuses, or whose email or name is
    taken, gets a 400 response and the world is exactly as it was.  The
    message is that of the first check, in the order of the code, that the
    form fails. *)
Lemma signup_refusal_of_form (body : Form.t) (w : World) :
  malformed body ∨ conflicting body (users w) →
  ∃ msg,
    signup body w = (Returned {| status := 400; json := Message msg |}, w) ∧
    msg ∈ refusals ∧
    (email_refused (Body.email body) = Returned true → msg = "Invalid email format") ∧
    (email_refused (Body.email body) = Returned false →
     isValidName (Body.name body) = false →
     msg = "Name must be between 3 and 15 characters long") ∧
    (email_refused (Body.email body) = Returned false →
     isValidName (Body.name body) = true →
     isValidPassword (Body.password body) = Returned false →
     msg = "Password must be between 6 and 15 characters long, include at least one letter, one number, and one special character") ∧
    (¬ malformed body →
     (∃ u, u ∈ users w ∧ email u = String_ (Form.email body)) →
     msg = "User with this email already exists") ∧
    (¬ malformed body →
     (¬ ∃ u, u ∈ users w ∧ email u = String_ (Form.email body)) →
     msg = "User with this name already exists").
Proof using bcrypt_hash ObjectId castForQuery castString.
  intros Hbad. destruct body as [e p n]. unfold malformed, conflicting in *.
  unfold Form.body in *. simpl in *. run_controller. unfold refusals.
  rewrite email_refused_form in *.
  destruct (match e with Some _ => _ | None => _ end) eqn:Hemail; simpl.
  { eexists. split; [done|]. split; [rewrite !elem_of_cons; auto|].
    repeat split; intros; try done; exfalso; auto. }
  destruct e as [e|]; [|done].
  destruct (isValidName (Form.member n)) eqn:Hname; simpl.
  2: { eexists. split; [done|]. split; [rewrite !elem_of_cons; auto|].
       repeat split; intros; try done; exfalso; auto. }
  apply isValidName_string in Hname as Hn. destruct n as [n|]; [|by destruct Hn].
  rewrite isValidPassword_form in *. simpl.
  destruct (RegExp.test passwordPattern (String_ p)) eqn:Hpassword; simpl.
  2: { eexists. split; [done|]. split; [rewrite !elem_of_cons; auto|].
       repeat split; intros; try done; exfalso; auto. }
  destruct p as [p|]; [|by vm_compute in Hpassword]. simpl.
  destruct (head (filter (λ u, email u = e) (users w))) as [u1|] eqn:Hbyemail; simpl.
  { eexists. split; [done|]. split; [rewrite !elem_of_cons; auto 10|].
    repeat split; intros; try done.
    exfalso. apply head_filter_Some in Hbyemail as [Hin He]. eauto. }
  assert (Hfree : ¬ ∃ u, u ∈ users w ∧ email u = e).
  { intros (u & Hu & He). by apply (head_filter_None _ _ Hbyemail u). }
  destruct (head (filter (λ u, name u = n) (users w))) as [u2|] eqn:Hbyname; simpl.
  { eexists. split; [done|]. split; [rewrite !elem_of_cons; auto 10|].
    repeat split; intros; try done. }
  exfalso. destruct Hbad as [[H|[H|H]]|(u & Hu & [H|H])]; try discriminate.
  - apply Hfree. by exists u.
  - by apply (head_filter_None _ _ Hbyname u).
Qed.

(** An email that is true, a number other than zero or an object has no
    [includes] method: the first check of [signup] throws, and the request
    is answered with the generic 500. *)
Lemma signup_email_without_includes (body : Body.t) (w : World) (e : Error) :
  email_refused (Body.email body) = Threw e →
  signup body w =
    (Returned {| status := 500; json := Message "Something went wrong" |},
     {| users := users w; broker := broker w; channel := channel w;
        trace := trace w ++ [Console (SignupError e)] |}).
Proof. intros He. run_controller. by rewrite He. Qed.

(** C8 at a body whose email is the number 42.  A number has no [includes]
    method: the email check throws instead of refusing, the [catch] of
    [signup] logs the TypeError and answers with the generic 500, which is
    none of the descriptive refusals.  The name check, next to it, does test
    the type of what it is given.  Nothing is written or sent. *)
Theorem number_email_gets_generic_500 (w : World) :
  signup Scenario.number_email_body w =
    (Returned {| status := 500; json := Message "Something went wrong" |},
     {| users := users w; broker := broker w; channel := channel w;
        trace := trace w ++
                 [Console (SignupError (TypeError "email.includes is not a function"))] |}) ∧
  ¬ refused_with_description (signup Scenario.number_email_body w).1 ∧
  isValidName (VNumber "42") = false.
Proof.
  assert (Hrun : signup Scenario.number_email_body w =
    (Returned {| status := 500; json := Message "Something went wrong" |},
     {| users := users w; broker := broker w; channel := channel w;
        trace := trace w ++
                 [Console (SignupError (TypeError "email.includes is not a function"))] |}))
    by by apply signup_email_without_includes.
  split; [exact Hrun|]. split; [|done].
  rewrite Hrun. intros (msg & _ & Hmsg). discriminate Hmsg.
Qed.

Lemma findById_unique (l : list User) (u : User) :
  u ∈ l → NoDup (_id <$> l) → head (filter (λ v, _id v = _id u) l) = Some u.
Proof.
  induction l as [|v l IH]; intros Hin Hnd.
  - by apply elem_of_nil in Hin.
  - rewrite fmap_cons in Hnd. apply NoDup_cons in Hnd as [Hfresh Hnd].
    apply elem_of_cons in Hin as [->|Hin].
    + by rewrite filter_cons_True.
    + rewrite filter_cons_False; [by apply IH|].
      intros Heq. apply Hfresh. rewrite Heq. by apply list_elem_of_fmap_2.
Qed.

(** C10.  For the id of a stored user [getUserById] answers 200 with the
    stored document as it is, the [password] member (the hash) included, and
    changes nothing. *)
Theorem getUserById_returns_whole_document (w : World) (u : User) :
  u ∈ users w →
  NoDup (_id <$> users w) →
  getUserById (_id u) w = (Returned {| status := 200; json := Document u |}, w) ∧
  ∀ r, (getUserById (_id u) w).1 = Returned r →
       ∃ doc, json r = Document doc ∧ password doc = password u.
Proof.
  intros Hin Hnd.
  assert (Heq : getUserById (_id u) w =
                (Returned {| status := 200; json := Document u |}, w)).
  { unfold UserService.getUserById, try_catch, bind.
    destruct (findById_outcomes (_id u) w) as [->|(msg & _ & Hnot & _)];
      [|by destruct (Hnot u Hin)].
    by rewrite findById_unique. }
  split; [done|]. rewrite Heq. simpl. intros r [= <-]. by exists u.
Qed.

End PublisherFacts.

Lemma getUserById_returns_whole_document_witness :
  UserService.getUserById Scenario.cast_id "u1" Scenario.stale_world =
    (Returned {| UserService.status := 200;
                 UserService.json := UserService.Document Scenario.alice_record |},
     Scenario.stale_world) ∧
  ∀ r, (UserService.getUserById Scenario.cast_id "u1" Scenario.stale_world).1 = Returned r →
       ∃ doc, UserService.json r = UserService.Document doc ∧
              UserService.password doc = "$2a$12$abc123!".
Proof.
  apply (getUserById_returns_whole_document Scenario.cast_id Scenario.stale_world
           Scenario.alice_record).
  - apply list_elem_of_singleton. reflexivity.
  - apply NoDup_singleton.
Defined.

(** C7, as stated, fails.  The cached channel is closed and the broker is
    reachable: the publish throws on the closed channel, opens nothing, sends
    nothing and leaves the closed channel cached. *)
Lemma stale_channel_is_not_renewed :
  UserService.publishMessage "user_events" Scenario.alice_signup Scenario.stale_world =
    (Threw (UserService.Broker Amqp.ChannelClosed),
     {| UserService.users := [Scenario.alice_record];
        UserService.broker := UserService.broker Scenario.stale_world;
        UserService.channel := Some 0;
        UserService.trace :=
          [UserService.Console (UserService.ErrorPublishingMessage (UserService.Broker Amqp.ChannelClosed))] |}) ∧
  ¬ UserService.renews_stale_channel "user_events" Scenario.alice_signup Scenario.stale_world.
Proof.
  assert (Hstale : Amqp.usable (UserService.broker Scenario.stale_world) 0 = false)
    by (vm_compute; reflexivity).
  pose proof (publish_on_stale_channel "user_events" Scenario.alice_signup
                Scenario.stale_world 0 eq_refl Hstale) as Hpub.
  split; [exact Hpub|].
  intros Hrenew. destruct (Hrenew 0 eq_refl Hstale eq_refl) as [Hr _].
  rewrite Hpub in Hr. discriminate Hr.
Qed.

(** The publish fails after the user is stored: the response is the generic
    500 and the user is in the store. *)
Example signup_with_broker_down :
  UserService.signup Scenario.hash Scenario.oid Scenario.filter_strings
    Scenario.cast_strings (UserService.Form.body Scenario.alice_body)
    (UserService.boot [] Scenario.down_broker) =
    (Returned {| UserService.status := 500;
                 UserService.json := UserService.Message "Something went wrong" |},
     {| UserService.users := [Scenario.alice_record];
        UserService.broker := Scenario.down_broker;
        UserService.channel := None;
        UserService.trace :=
          [UserService.Created Scenario.alice_record;
           UserService.Console
             (UserService.ConnectionError (UserService.Broker Amqp.ConnectionRefused));
           UserService.Console
             (UserService.ErrorPublishingMessage
                (UserService.Broker Amqp.ConnectionRefused));
           UserService.Console
             (UserService.SignupError (UserService.Broker Amqp.ConnectionRefused))] |}).
Proof. vm_compute. reflexivity. Qed.

(** The end-to-end scenario: the signup is answered 201, the queue receives
    the signup event, and the Post Service, once the event has been delivered
    and the insert has completed, has the shadow record; the post is as it
    was. *)
Example signup_reaches_shadow_store :
  let w := (UserService.signup Scenario.hash Scenario.oid Scenario.filter_strings
              Scenario.cast_strings (UserService.Form.body Scenario.alice_body)
              (UserService.boot [] Scenario.fresh_broker)) in
  let c := PostService.run Scenario.lenient
             [PostService.Deliver Scenario.signup_delivery; PostService.Complete 0]
             (Scenario.listening []) in
  w.1 = Returned {| UserService.status := 201;
                    UserService.json := UserService.Result Scenario.alice_record |} ∧
  Amqp.waiting (UserService.broker w.2) "user_events" = [Text (JObject Scenario.alice_signup)] ∧
  PostService.db c =
    {| PostService.users := [Scenario.alice]; PostService.posts := [Scenario.a_post] |}.
Proof. vm_compute. repeat split; reflexivity. Qed.

(** The same signup event delivered twice before the store has answered the
    first insert: one insert succeeds, the other is refused as a duplicate and
    logged, and the store has one record. *)
Example duplicate_delivery_in_flight :
  let c := PostService.run Scenario.lenient
             [PostService.Deliver Scenario.signup_delivery;
              PostService.Deliver Scenario.next_delivery;
              PostService.Complete 0; PostService.Complete 0]
             (Scenario.listening []) in
  PostService.users (PostService.db c) = [Scenario.alice] ∧
  PostService.unacked c = [] ∧
  PostService.subscription c = Some "user_events" ∧
  last (PostService.trace c) =
    Some (PostService.Console
            (PostService.ErrorHandlingUserEvent (PostService.DuplicateKey "u1"))).
Proof. vm_compute. repeat split; reflexivity. Qed.

(** * Further properties of the code *)

(** ** The validators *)

Section ValidatorFacts.

Import RegExp Language.

Lemma matches_never (w : list ascii) : ¬ matches Never w.
Proof. intros H. inversion H. Qed.

Lemma matches_empty_inv (w : list ascii) : matches Empty w → w = [].
Proof. intros H. by inversion H. Qed.

Lemma nullable_spec (r : re) : nullable r = true ↔ matches r [].
Proof.
  induction r as [| |p|r IHr s IHs|r IHr s IHs|r IHr|r IHr s IHs]; simpl.
  - split; [done|]. intros H. inversion H.
  - split; [constructor|done].
  - split; [done|]. intros H. inversion H.
  - rewrite andb_true_iff, IHr, IHs. split.
    + intros [Hr Hs]. by apply (matches_cat r s [] []).
    + intros H. inversion H as [| |? ? u v Hu Hv| | | | |]; subst.
      match goal with Heq : _ ++ _ = [] |- _ => apply app_eq_nil in Heq as [-> ->] end.
      done.
  - rewrite orb_true_iff, IHr, IHs. split.
    + intros [H|H]; [by apply matches_alt_l | by apply matches_alt_r].
    + intros H. inversion H; subst; auto.
  - split; [constructor|done].
  - rewrite andb_true_iff, IHr, IHs. split.
    + intros [Hr Hs]. by constructor.
    + intros H. inversion H; subst. done.
Qed.

Lemma cat_spec (r s : re) (w : list ascii) : matches (cat r s) w ↔ matches (Cat r s) w.
Proof.
  assert (Hnever_l : ∀ s w, matches (Cat Never s) w ↔ False).
  { intros s' w'. split; [|done]. intros H. inversion H; subst. by eapply matches_never. }
  assert (Hnever_r : ∀ r w, matches (Cat r Never) w ↔ False).
  { intros r' w'. split; [|done]. intros H. inversion H; subst. by eapply matches_never. }
  assert (Hempty : ∀ s w, matches (Cat Empty s) w ↔ matches s w).
  { intros s' w'. split.
    - intros H. inversion H as [| |? ? u v Hu Hv| | | | |]; subst.
      apply matches_empty_inv in Hu as ->. done.
    - intros H. apply (matches_cat Empty s' [] w'); [constructor|done]. }
  destruct r; destruct s; simpl;
    rewrite ?Hnever_l, ?Hnever_r, ?Hempty; try done;
    split; try done; intros H; exfalso; by eapply matches_never.
Qed.

Lemma alt_spec (r s : re) (w : list ascii) : matches (alt r s) w ↔ matches (Alt r s) w.
Proof.
  assert (Hl : ∀ s, matches (Alt Never s) w ↔ matches s w).
  { intros s'. split; [|by apply matches_alt_r].
    intros H. inversion H; subst; [exfalso; by eapply matches_never|done]. }
  assert (Hr : ∀ r, matches (Alt r Never) w ↔ matches r w).
  { intros r'. split; [|by apply matches_alt_l].
    intros H. inversion H; subst; [done|exfalso; by eapply matches_never]. }
  destruct r; destruct s; simpl; rewrite ?Hl, ?Hr; done.
Qed.

Lemma both_spec (r s : re) (w : list ascii) : matches (both r s) w ↔ matches (Both r s) w.
Proof.
  assert (Hl : ∀ s, matches (Both Never s) w ↔ False).
  { intros s'. split; [|done]. intros H. inversion H; subst. by eapply matches_never. }
  assert (Hr : ∀ r, matches (Both r Never) w ↔ False).
  { intros r'. split; [|done]. intros H. inversion H; subst. by eapply matches_never. }
  destruct r; destruct s; simpl; rewrite ?Hl, ?Hr; try done;
    split; try done; intros H; exfalso; by eapply matches_never.
Qed.

(** A non-empty word of a starred pattern starts with a non-empty word of the
    pattern. *)
Lemma matches_star_cons (r : re) (c : ascii) (w : list ascii) :
  matches (Star r) (c :: w) →
  ∃ u v, w = u ++ v ∧ matches r (c :: u) ∧ matches (Star r) v.
Proof.
  intros H. remember (Star r) as sr eqn:Hsr. remember (c :: w) as cw eqn:Hcw.
  revert c w Hcw. induction H as [| | | | | |r' u v Hu _ Hv IHv|]; intros a w Hcw;
    try discriminate.
  injection Hsr as ->. destruct u as [|a' u]; simpl in Hcw.
  - by apply IHv.
  - injection Hcw as -> <-. by exists u, v.
Qed.

Lemma deriv_spec (c : ascii) (r : re) (w : list ascii) :
  matches (deriv c r) w ↔ matches r (c :: w).
Proof.
  revert w. induction r as [| |p|r IHr s IHs|r IHr s IHs|r IHr|r IHr s IHs];
    intros w; simpl.
  - split; intros H; inversion H.
  - split; intros H; inversion H.
  - destruct (p c) eqn:Hp.
    + split.
      * intros H. apply matches_empty_inv in H as ->. by constructor.
      * intros H. inversion H; subst. constructor.
    + split; intros H; inversion H; subst. congruence.
  - rewrite alt_spec. split.
    + intros H. inversion H as [| | |? ? ? H1|? ? ? H1| | |]; subst.
      * apply cat_spec in H1. inversion H1 as [| |? ? u v Hu Hv| | | | |]; subst.
        apply IHr in Hu. by apply (matches_cat r s (c :: u) v).
      * destruct (nullable r) eqn:Hn; [|by apply matches_never in H1].
        apply nullable_spec in Hn. apply IHs in H1.
        by apply (matches_cat r s [] (c :: w)).
    + intros H. inversion H as [| |? ? u v Hu Hv| | | | |]; subst.
      match goal with Heq : _ ++ _ = _ :: _ |- _ => rename Heq into Hcut end.
      destruct u as [|c' u]; simpl in Hcut; subst.
      * apply matches_alt_r. apply nullable_spec in Hu. rewrite Hu. by apply IHs.
      * injection Hcut as -> <-. apply matches_alt_l, cat_spec.
        constructor; [by apply IHr|done].
  - rewrite alt_spec. split.
    + intros H. inversion H; subst;
        [apply matches_alt_l; by apply IHr | apply matches_alt_r; by apply IHs].
    + intros H. inversion H; subst;
        [apply matches_alt_l; by apply IHr | apply matches_alt_r; by apply IHs].
  - rewrite cat_spec. split.
    + intros H. inversion H as [| |? ? u v Hu Hv| | | | |]; subst.
      apply IHr in Hu. by apply (matches_star_app r (c :: u) v).
    + intros H. apply matches_star_cons in H as (u & v & -> & Hu & Hv).
      constructor; [by apply IHr|done].
  - rewrite both_spec. split.
    + intros H. inversion H; subst. constructor; [by apply IHr|by apply IHs].
    + intros H. inversion H; subst. constructor; [by apply IHr|by apply IHs].
Qed.

(** The matcher decides the language of the pattern. *)
Lemma test_spec (r : re) (s : string) : test r s = true ↔ matches r (chars s).
Proof.
  revert r. induction s as [|c s IH]; intros r; simpl.
  - apply nullable_spec.
  - rewrite IH. apply deriv_spec.
Qed.

Lemma chars_length (s : string) : length (chars s) = String.length s.
Proof. induction s as [|c s IH]; simpl; [done|by rewrite IH]. Qed.

Lemma matches_class_inv (p : ascii → bool) (w : list ascii) :
  matches (Class p) w ↔ ∃ c, w = [c] ∧ p c = true.
Proof.
  split.
  - intros H. inversion H; subst. eauto.
  - intros (c & -> & Hc). by constructor.
Qed.

Lemma matches_cat_inv (r s : re) (w : list ascii) :
  matches (Cat r s) w ↔ ∃ u v, w = u ++ v ∧ matches r u ∧ matches s v.
Proof.
  split.
  - intros H. inversion H; subst. eauto.
  - intros (u & v & -> & Hu & Hv). by constructor.
Qed.

Lemma star_class (p : ascii → bool) (w : list ascii) :
  matches (Star (Class p)) w ↔ Forall (λ c, p c = true) w.
Proof.
  split.
  - intros H. induction w as [|c w IH]; [constructor|].
    apply matches_star_cons in H as (u & v & -> & Hu & Hv).
    apply matches_class_inv in Hu as (c' & [= -> ->] & Hc). simpl in *.
    constructor; [done|auto].
  - induction 1 as [|c w Hc _ IH]; [constructor|].
    apply (matches_star_app (Class p) [c] w); [by constructor|done].
Qed.

Lemma plus_class (p : ascii → bool) (w : list ascii) :
  matches (plus (Class p)) w ↔ w ≠ [] ∧ Forall (λ c, p c = true) w.
Proof.
  unfold plus. rewrite matches_cat_inv. split.
  - intros (u & v & -> & Hu & Hv). apply matches_class_inv in Hu as (c & -> & Hc).
    apply star_class in Hv. split; [done|]. by constructor.
  - intros [Hne Hall]. destruct Hall as [|c w Hc Hall]; [done|].
    exists [c], w. split; [done|]. split; [by constructor|by apply star_class].
Qed.

Lemma times_class (p : ascii → bool) (n : nat) (w : list ascii) :
  matches (times n (Class p)) w ↔ length w = n ∧ Forall (λ c, p c = true) w.
Proof.
  revert w. induction n as [|n IH]; intros w; simpl.
  - split.
    + intros H. apply matches_empty_inv in H as ->. by split.
    + intros [Hlen _]. apply nil_length_inv in Hlen as ->. constructor.
  - rewrite matches_cat_inv. split.
    + intros (u & v & -> & Hu & Hv). apply matches_class_inv in Hu as (c & -> & Hc).
      apply IH in Hv as [<- Hv]. split; [done|by constructor].
    + intros [Hlen Hall]. destruct Hall as [|c w Hc Hall]; [done|].
      exists [c], w. split; [done|]. split; [by constructor|].
      apply IH. split; [|done]. simpl in Hlen. lia.
Qed.

Lemma upto_class (p : ascii → bool) (n : nat) (w : list ascii) :
  matches (upto n (Class p)) w ↔ length w ≤ n ∧ Forall (λ c, p c = true) w.
Proof.
  revert w. induction n as [|n IH]; intros w; simpl.
  - split.
    + intros H. apply matches_empty_inv in H as ->. split; [done|constructor].
    + intros [Hlen _]. destruct w; [constructor|simpl in Hlen; lia].
  - split.
    + intros H. inversion H as [| | |? ? ? H1|? ? ? H1| | |]; subst.
      * apply matches_empty_inv in H1 as ->. split; [simpl; lia|constructor].
      * apply matches_cat_inv in H1 as (u & v & -> & Hu & Hv).
        apply matches_class_inv in Hu as (c & -> & Hc).
        apply IH in Hv as [Hlen Hv]. split; [simpl; lia|by constructor].
    + intros [Hlen Hall]. destruct Hall as [|c w Hc Hall].
      * apply matches_alt_l. constructor.
      * apply matches_alt_r. apply (matches_cat (Class p) _ [c] w); [by constructor|].
        apply IH. split; [|done]. simpl in Hlen. lia.
Qed.

Lemma between_class (p : ascii → bool) (n m : nat) (w : list ascii) :
  n ≤ m →
  matches (between n m (Class p)) w ↔
  n ≤ length w ≤ m ∧ Forall (λ c, p c = true) w.
Proof.
  intros Hnm. unfold between. rewrite matches_cat_inv. split.
  - intros (u & v & -> & Hu & Hv). apply times_class in Hu as [Hu Hpu].
    apply upto_class in Hv as [Hv Hpv]. rewrite length_app.
    split; [lia|]. by apply Forall_app.
  - intros [Hlen Hall]. exists (take n w), (drop n w).
    rewrite take_drop. split; [done|]. split.
    + apply times_class. split; [rewrite length_take; lia|by apply Forall_take].
    + apply upto_class. split; [rewrite length_drop; lia|by apply Forall_drop].
Qed.

(** A lookahead for one character of a class after characters that are no
    line terminators. *)
Lemma ahead_class (p : ascii → bool) (w : list ascii) :
  matches (ahead (Cat (Star (Class dot)) (Class p))) w ↔
  ∃ u c v, w = u ++ c :: v ∧ Forall (λ a, dot a = true) u ∧ p c = true.
Proof.
  unfold ahead. rewrite matches_cat_inv. split.
  - intros (uc & v & -> & Huc & _). apply matches_cat_inv in Huc as (u & c1 & -> & Hu & Hc).
    apply star_class in Hu. apply matches_class_inv in Hc as (c & -> & Hc).
    exists u, c, v. by rewrite <- app_assoc.
  - intros (u & c & v & -> & Hu & Hc). exists (u ++ [c]), v.
    split; [by rewrite <- app_assoc|]. split.
    + apply (matches_cat _ _ u [c]); [by apply star_class|by constructor].
    + apply star_class. by apply Forall_true.
Qed.

Lemma ahead_class_dots (p : ascii → bool) (w : list ascii) :
  Forall (λ a, dot a = true) w →
  matches (ahead (Cat (Star (Class dot)) (Class p))) w ↔ Exists (λ c, p c = true) w.
Proof.
  intros Hdots. rewrite ahead_class. split.
  - intros (u & c & v & -> & _ & Hc). apply Exists_exists. exists c.
    split; [|done]. apply elem_of_app. right. apply elem_of_cons. by left.
  - intros Hex. apply Exists_exists in Hex as (c & Hin & Hc).
    apply list_elem_of_split in Hin as (u & v & ->). exists u, c, v.
    split; [done|]. split; [|done]. by apply Forall_app in Hdots as [Hu _].
Qed.

Lemma returned_true {E} (b : bool) : (Returned b : Completion E bool) = Returned true ↔ b = true.
Proof. split; [by intros [= ->]|by intros ->]. Qed.

Lemma special_spec (c : ascii) : special c = negb (letter c || digit c).
Proof.
  unfold special, word, letter, digit, in_range. generalize (code c). intros n.
  destruct (n =? 95) eqn:H95.
  - apply Nat.eqb_eq in H95 as ->. reflexivity.
  - by rewrite !orb_false_r.
Qed.

(** X1.  [isValidPassword] accepts exactly the strings of 6 to 15 characters
    without a line terminator that have a letter, a digit and a character
    that is neither. *)
Theorem isValidPassword_accepts (s : string) :
  UserService.isValidPassword (VString s) = Returned true ↔
  6 ≤ String.length s ≤ 15 ∧
  Forall (λ c, dot c = true) (chars s) ∧
  Exists (λ c, letter c = true) (chars s) ∧
  Exists (λ c, digit c = true) (chars s) ∧
  Exists (λ c, negb (letter c || digit c) = true) (chars s).
Proof.
  unfold UserService.isValidPassword, UserService.test. simpl ToString.
  rewrite returned_true. unfold UserService.passwordPattern.
  rewrite test_spec. rewrite <- chars_length.
  setoid_rewrite <- special_spec.
  split.
  - intros H. inversion H as [| | | | | | |? ? ? H1 H2]; subst.
    inversion H2 as [| | | | | | |? ? ? H3 H4]; subst.
    inversion H4 as [| | | | | | |? ? ? H5 H6]; subst.
    apply between_class in H6 as [Hlen Hdots]; [|lia].
    apply (ahead_class_dots _ _ Hdots) in H1, H3, H5. done.
  - intros (Hlen & Hdots & Hl & Hd & Hs).
    repeat constructor; try (by apply ahead_class_dots).
    apply between_class; [lia|done].
Qed.

Lemma code_at (c : ascii) : (code c =? 64) = true → c = "@"%char.
Proof.
  intros H. apply Nat.eqb_eq in H. unfold code in H.
  rewrite <- (ascii_nat_embedding c), H. reflexivity.
Qed.

Lemma code_dot (c : ascii) : (code c =? 46) = true → c = "."%char.
Proof.
  intros H. apply Nat.eqb_eq in H. unfold code in H.
  rewrite <- (ascii_nat_embedding c), H. reflexivity.
Qed.

(** X2.  [isValidEmail] accepts exactly the strings made of a local part, an
    at sign, and a domain with a dot inside it, where the local part and the
    two sides of that dot are non-empty and free of whitespace and of at
    signs. *)
Theorem isValidEmail_accepts (s : string) :
  UserService.isValidEmail (VString s) = Returned true ↔
  ∃ l d t,
    chars s = l ++ "@"%char :: d ++ "."%char :: t ∧
    l ≠ [] ∧ d ≠ [] ∧ t ≠ [] ∧
    Forall (λ c, plain c = true) l ∧
    Forall (λ c, plain c = true) d ∧
    Forall (λ c, plain c = true) t.
Proof.
  unfold UserService.isValidEmail, UserService.test. simpl ToString.
  rewrite returned_true. unfold UserService.emailPattern.
  rewrite test_spec. fold plain.
  change (λ c : ascii, negb (space c || (code c =? 64))) with plain.
  split.
  - intros H.
    apply matches_cat_inv in H as (l & w1 & Hs & Hl & H).
    apply matches_cat_inv in H as (a & w2 & -> & Ha & H).
    apply matches_cat_inv in H as (d & w3 & -> & Hd & H).
    apply matches_cat_inv in H as (b & t & -> & Hb & Ht).
    apply plus_class in Hl as [Hl1 Hl2], Hd as [Hd1 Hd2], Ht as [Ht1 Ht2].
    apply matches_class_inv in Ha as (ca & -> & Hca), Hb as (cb & -> & Hcb).
    apply code_at in Hca as ->. apply code_dot in Hcb as ->.
    exists l, d, t. rewrite Hs. done.
  - intros (l & d & t & Hs & Hl & Hd & Ht & Hpl & Hpd & Hpt). rewrite Hs.
    apply (matches_cat _ _ l); [by apply plus_class|].
    apply (matches_cat _ _ ["@"%char]); [by constructor|].
    apply (matches_cat _ _ d); [by apply plus_class|].
    apply (matches_cat _ _ ["."%char]); [by constructor|].
    by apply plus_class.
Qed.

Lemma includes_at_chars (s : string) :
  UserService.includes_at s = true ↔ "@"%char ∈ chars s.
Proof.
  induction s as [|c s IH]; simpl.
  - split; [done|]. intros H. by apply elem_of_nil in H.
  - rewrite orb_true_iff, IH, elem_of_cons. split.
    + intros [H|H]; [left; symmetry; by apply code_at|by right].
    + intros [<-|H]; [by left|by right].
Qed.

Lemma valid_email_has_at (s : string) :
  RegExp.test UserService.emailPattern s = true →
  ∃ l t, chars s = l ++ "@"%char :: t ∧ l ≠ [].
Proof.
  unfold UserService.emailPattern. rewrite test_spec. intros H.
  apply matches_cat_inv in H as (l & w1 & Hs & Hl & H).
  apply matches_cat_inv in H as (a & w2 & -> & Ha & _).
  apply plus_class in Hl as [Hl _].
  apply matches_class_inv in Ha as (ca & -> & Hca). apply code_at in Hca as ->.
  by exists l, w2.
Qed.

(** X3.  In the email check of [signup], for an email that is a string or
    one of the values that count as false, the tests [!email] and
    [!email.includes("@")] decide nothing: the check refuses exactly when
    [isValidEmail] refuses.  For the other values they decide: [true], a
    number other than zero and an object have no [includes] method and the
    check throws, and an array without the element ["@"] is refused, also
    one that [isValidEmail] accepts. *)
Theorem signup_email_check_is_isValidEmail :
  (∀ email : Value,
     (∃ s, email = VString s) ∨ falsy email = true →
     ∃ valid, UserService.isValidEmail email = Returned valid ∧
              UserService.email_refused email = Returned (negb valid)) ∧
  (∀ email : Value,
     falsy email = false →
     match email with
     | VBool _ | VNumber _ | VObject _ => True
     | _ => False
     end →
     UserService.email_refused email =
       Threw (UserService.TypeError "email.includes is not a function")) ∧
  (∀ elements : list Value,
     (∀ x, x ∈ elements → x ≠ VString "@") →
     UserService.email_refused (VArray elements) = Returned true) ∧
  UserService.isValidEmail (VArray [VString "a@b.co"]) = Returned true.
Proof.
  split; [|split; [|split]].
  - intros email [[s ->]|Hfalsy].
    + unfold UserService.email_refused, UserService.isValidEmail, UserService.test,
        UserService.includes. simpl.
      exists (RegExp.test UserService.emailPattern s). split; [done|].
      destruct (String.eqb_spec s EmptyString) as [->|Hs]; [done|].
      destruct (RegExp.test UserService.emailPattern s) eqn:Hvalid;
        [|by destruct (UserService.includes_at s)].
      destruct (valid_email_has_at s Hvalid) as (l & t & Hchars & Hl).
      assert (Hat : UserService.includes_at s = true).
      { apply includes_at_chars. rewrite Hchars. apply elem_of_app. right.
        apply elem_of_cons. by left. }
      by rewrite Hat.
    + exists false. unfold UserService.email_refused. rewrite Hfalsy. split; [|done].
      destruct email as [| |[|]|shown|s| |]; try discriminate Hfalsy; try done.
      * simpl in Hfalsy. apply String.eqb_eq in Hfalsy as ->. done.
      * simpl in Hfalsy. apply String.eqb_eq in Hfalsy as ->. done.
  - intros email Hfalsy Hkind. unfold UserService.email_refused. rewrite Hfalsy.
    by destruct email.
  - intros elements Hnone. unfold UserService.email_refused. simpl.
    assert (Hno : existsb (λ x, match x with
                                | VString s => String.eqb s "@"
                                | _ => false
                                end) elements = false).
    { induction elements as [|x elements IH]; [done|]. simpl.
      rewrite IH by (intros y Hy; apply Hnone, elem_of_cons; by right).
      rewrite orb_false_r. destruct x as [| | | |s| |]; try done.
      apply String.eqb_neq. intros ->. apply (Hnone (VString "@")); [|done].
      apply elem_of_cons. by left. }
    by rewrite Hno.
  - vm_compute. reflexivity.
Qed.

End ValidatorFacts.

(** ** The shadow store under the consumer *)

Section ShadowStoreFacts.

Import PostService.

Variable schema : option string → option string → option string → option ShadowUser.

Lemma remove_first_unique (f : ShadowUser → bool) (l : list ShadowUser) :
  NoDup (_id <$> l) → NoDup (_id <$> remove_first f l).
Proof.
  induction l as [|u l IH]; intros Hnd; simpl; [done|].
  rewrite fmap_cons in Hnd. apply NoDup_cons in Hnd as [Hfresh Hnd].
  destruct (f u); [done|]. rewrite fmap_cons. apply NoDup_cons. split; [|auto].
  intros Hin. apply Hfresh. apply list_elem_of_fmap in Hin as (v & -> & Hv).
  apply list_elem_of_fmap_2. by eapply remove_first_subset.
Qed.

Lemma perform_unique_ids (op : DbOp) (d : Db) :
  unique_ids d → unique_ids (perform schema op d).2.
Proof.
  intros Hnd. destruct op as [uid e n|uid]; simpl.
  - unfold create. destruct (schema uid e n) as [doc|]; [|done].
    destruct (bool_decide (_id doc ∈ _id <$> users d)) eqn:Hin; [done|].
    apply bool_decide_eq_false_1 in Hin. unfold unique_ids. simpl.
    rewrite fmap_app. apply NoDup_app. repeat split; [done| |apply NoDup_singleton].
    intros x Hx Hx'. apply list_elem_of_singleton in Hx'. by subst.
  - by apply remove_first_unique.
Qed.

(** X4.  Whatever is delivered and in whatever order the store answers, the
    shadow collection never holds two records with the same id. *)
Theorem run_keeps_unique_ids (steps : list Step) (c : Consumer) :
  unique_ids (db c) → unique_ids (db (run schema steps c)).
Proof.
  unfold run. revert c. induction steps as [|s steps IH]; intros c Hnd; simpl; [done|].
  apply IH. destruct s as [m|i]; simpl.
  - unfold deliver. destruct (subscription c); [|done]. by rewrite onMessage_db.
  - unfold complete. destruct (pending c !! i) as [[[tag op] k]|]; [|done].
    pose proof (perform_unique_ids op (db c) Hnd) as Hnd'.
    destruct (perform schema op (db c)) as [r d']. by rewrite end_of_turn_db, start_db.
Qed.

Lemma with_id_remove_other (a b : string) (l : list ShadowUser) :
  a ≠ b → with_id a (remove_first (matches (Some b)) l) = with_id a l.
Proof.
  intros Hne. induction l as [|u l IH]; simpl; [done|]. unfold with_id in *.
  destruct (decide (_id u = b)) as [Hb|Hb].
  - rewrite bool_decide_eq_true_2 by done. rewrite filter_cons_False; [done|congruence].
  - rewrite bool_decide_eq_false_2 by done.
    destruct (decide (_id u = a)) as [Ha|Ha].
    + rewrite !filter_cons_True by done. by rewrite IH.
    + rewrite !filter_cons_False by done. done.
Qed.

(** X5.  An event that names a user leaves the records of every other id as
    they were, whatever its tag and whether or not its store call succeeds
    (the schema keeping the id it is given). *)
Theorem event_leaves_other_ids
    (members : list (string * string)) (a b : string) (d : Db) :
  get members "userId" = Some b →
  a ≠ b →
  (∀ e n doc, schema (Some b) e n = Some doc → _id doc = b) →
  with_id a (users (apply_event schema (JObject members) d).1.2) = with_id a (users d).
Proof.
  intros Hid Hne Hkeeps. unfold apply_event, handleUserEvent. simpl. rewrite Hid.
  destruct (decide (get members "event" = Some "user_signup")); simpl.
  - unfold create. destruct (schema _ _ _) as [doc|] eqn:Hdoc; simpl; [|done].
    destruct (bool_decide _); simpl; [done|].
    rewrite with_id_app. apply Hkeeps in Hdoc. unfold with_id at 2.
    rewrite filter_cons_False by congruence. by rewrite app_nil_r.
  - destruct (decide (get members "event" = Some "user_delete")); simpl; [|done].
    by apply with_id_remove_other.
Qed.

Lemma remove_first_appended (id : string) (l : list ShadowUser) (doc : ShadowUser) :
  id ∉ _id <$> l → _id doc = id →
  remove_first (matches (Some id)) (l ++ [doc]) = l.
Proof.
  intros Hnew Hdoc. induction l as [|u l IH]; simpl.
  - by rewrite bool_decide_eq_true_2.
  - rewrite fmap_cons, not_elem_of_cons in Hnew. destruct Hnew as [Hne Hnew].
    rewrite bool_decide_eq_false_2 by congruence. f_equal. auto.
Qed.

Section OneUser.

Variables (signup_event delete_event : list (string * string)) (id : string).
Hypothesis Hsignup : get signup_event "event" = Some "user_signup".
Hypothesis Hsignup_id : get signup_event "userId" = Some id.
Hypothesis Hdelete : get delete_event "event" = Some "user_delete".
Hypothesis Hdelete_id : get delete_event "userId" = Some id.
Hypothesis Hschema :
  schema (Some id) (get signup_event "email") (get signup_event "name") =
    Some {| _id := id; email := get signup_event "email";
            name := get signup_event "name" |}.

Lemma apply_delete (d : Db) :
  apply_event schema (JObject delete_event) d =
    (Resolved,
     {| users := remove_first (matches (Some id)) (users d); posts := posts d |},
     [UserDeleted (Some id)]).
Proof using Hdelete Hdelete_id.
  unfold apply_event, handleUserEvent. simpl. rewrite Hdelete, Hdelete_id.
  rewrite decide_False by done. by rewrite decide_True by done.
Qed.

(** X6.  The signup event of a new user followed by the delete event of that
    user leaves the store exactly as it was. *)
Theorem signup_then_delete_restores (d : Db) :
  id ∉ _id <$> users d →
  (apply_event schema (JObject delete_event)
     (apply_event schema (JObject signup_event) d).1.2).1.2 = d.
Proof using All.
  intros Hnew.
  rewrite (apply_signup_new schema signup_event id Hsignup Hsignup_id Hschema d Hnew).
  rewrite apply_delete. simpl. rewrite remove_first_appended by done. by destruct d.
Qed.

(** X7.  The two events do not commute: applied in the order delete, signup
    they leave the user's record in the store, applied in the order signup,
    delete they leave none. *)
Theorem delete_before_signup_leaves_record (d : Db) :
  unique_ids d →
  with_id id
    (users (apply_event schema (JObject signup_event)
              (apply_event schema (JObject delete_event) d).1.2).1.2) =
    [{| _id := id; email := get signup_event "email"; name := get signup_event "name" |}] ∧
  with_id id
    (users (apply_event schema (JObject delete_event)
              (apply_event schema (JObject signup_event) d).1.2).1.2) = [].
Proof using All.
  intros Hnd. split.
  - rewrite apply_delete. simpl.
    destruct (remove_first_ids id (users d) Hnd) as [_ Hgone].
    rewrite (apply_signup_new schema signup_event id Hsignup Hsignup_id Hschema); [|done].
    simpl. rewrite with_id_app, with_id_absent by done. unfold with_id.
    by rewrite filter_cons_True.
  - rewrite apply_delete. simpl. apply with_id_absent.
    apply remove_first_ids.
    destruct (decide (id ∈ _id <$> users d)) as [Hin|Hnew].
    + by rewrite (apply_signup_duplicate schema signup_event id Hsignup Hsignup_id Hschema).
    + rewrite (apply_signup_new schema signup_event id Hsignup Hsignup_id Hschema) by done.
      unfold unique_ids in *. simpl. rewrite fmap_app. apply NoDup_app.
      repeat split; [done| |apply NoDup_singleton].
      intros x Hx Hx'. apply list_elem_of_singleton in Hx'. by subst.
Qed.

End OneUser.

Lemma idle_step (c : Consumer) (s : Step) :
  subscription c = None → pending c = [] → step schema c s = c.
Proof.
  intros Hsub Hpend. destruct s as [m|i]; simpl.
  - unfold deliver. by rewrite Hsub.
  - unfold complete. by rewrite Hpend.
Qed.

(** X8.  A Post Service that starts while the broker refuses connections
    logs the error twice, once in [connectQueue] and once in
    [consumeMessages], leaves the broker as it is and holds no channel and
    no consumer; nothing that happens later changes it: it does not connect
    again. *)
Theorem consumer_without_broker_stays_idle
    (b : Amqp.Broker) (d : Db) (steps : list Step) :
  Amqp.reachable b = false →
  consumeMessages b (boot d) =
    (b, {| db := d; channel := None; subscription := None; pending := [];
           unacked := [];
           trace := [Console (ConnectionError Amqp.ConnectionRefused);
                     Console (ErrorConsumingMessage Amqp.ConnectionRefused)] |}) ∧
  run schema steps (consumeMessages b (boot d)).2 = (consumeMessages b (boot d)).2.
Proof.
  intros Hdown.
  assert (Hstart : consumeMessages b (boot d) =
    (b, {| db := d; channel := None; subscription := None; pending := [];
           unacked := [];
           trace := [Console (ConnectionError Amqp.ConnectionRefused);
                     Console (ErrorConsumingMessage Amqp.ConnectionRefused)] |})).
  { unfold consumeMessages, connectQueue, Amqp.createChannel. simpl.
    by rewrite Hdown. }
  split; [done|]. rewrite Hstart. simpl. unfold run.
  induction steps as [|s steps IH]; simpl; [done|].
  by rewrite idle_step.
Qed.

End ShadowStoreFacts.

(** ** The publisher and the queue *)

Section QueueFacts.

Import UserService Operation.

Lemma waiting_after_assert (ch : nat) (b : Amqp.Broker) (q : string) :
  Amqp.waiting (Amqp.assertQueue ch "user_events" b).2 q = Amqp.waiting b q.
Proof.
  unfold Amqp.assertQueue, Amqp.waiting. destruct (Amqp.usable b ch); [|done]. simpl.
  destruct (Amqp.queues b !! "user_events") eqn:Hq; [done|]. simpl.
  destruct (decide (q = "user_events")) as [->|Hne].
  - by rewrite lookup_insert_eq, Hq.
  - by rewrite lookup_insert_ne.
Qed.

Lemma declared_after_assert (ch : nat) (b : Amqp.Broker) :
  Amqp.usable b ch = true →
  is_Some (Amqp.queues (Amqp.assertQueue ch "user_events" b).2 !! "user_events") ∧
  Amqp.usable (Amqp.assertQueue ch "user_events" b).2 ch = true.
Proof.
  intros Hok. unfold Amqp.assertQueue. rewrite Hok. simpl.
  destruct (Amqp.queues b !! "user_events") eqn:Hq; simpl.
  - by rewrite Hq.
  - by rewrite lookup_insert_eq.
Qed.

Lemma opened_after_assert (ch : nat) (q : string) (b : Amqp.Broker) :
  Amqp.opened (Amqp.assertQueue ch q b).2 = Amqp.opened b.
Proof.
  unfold Amqp.assertQueue. destruct (Amqp.usable b ch); [|done]. simpl.
  by destruct (Amqp.queues b !! q).
Qed.

Lemma publish_on_cached_opens_nothing
    (q : string) (msg : list (string * string)) (w : World) (ch : nat) :
  channel w = Some ch →
  Amqp.opened (broker (publishMessage q msg w).2) = Amqp.opened (broker w).
Proof.
  intros Hch. destruct (Amqp.usable (broker w) ch) eqn:Hok.
  - rewrite (publish_on_cached_channel q msg w ch Hch Hok). simpl.
    apply sendToQueue_channels.
  - by rewrite (publish_on_stale_channel q msg w ch Hch Hok).
Qed.

Lemma usable_after_send (ch ch' : nat) (q : string) (content : Buffer) (b : Amqp.Broker) :
  Amqp.usable (Amqp.sendToQueue ch q content b).2 ch' = Amqp.usable b ch'.
Proof.
  unfold Amqp.usable. by destruct (sendToQueue_channels ch q content b) as [-> ->].
Qed.

Lemma declared_after_send (ch : nat) (q q' : string) (content : Buffer) (b : Amqp.Broker) :
  is_Some (Amqp.queues b !! q') →
  is_Some (Amqp.queues (Amqp.sendToQueue ch q content b).2 !! q').
Proof.
  intros Hq'. unfold Amqp.sendToQueue. destruct (Amqp.usable b ch); [|done]. simpl.
  destruct (Amqp.queues b !! q) eqn:Hq; [|done]. simpl.
  destruct (decide (q = q')) as [->|Hne].
  - by rewrite lookup_insert_eq.
  - by rewrite lookup_insert_ne.
Qed.

Lemma publish_when_ready (msg : list (string * string)) (w : World) :
  ready w →
  (publishMessage "user_events" msg w).1 = Returned () ∧
  Amqp.waiting (broker (publishMessage "user_events" msg w).2) "user_events" =
    Amqp.waiting (broker w) "user_events" ++ [JSON_stringify msg] ∧
  (∀ q, q ≠ "user_events" →
     Amqp.waiting (broker (publishMessage "user_events" msg w).2) q =
     Amqp.waiting (broker w) q) ∧
  Amqp.opened (broker (publishMessage "user_events" msg w).2) ≤ S (Amqp.opened (broker w)) ∧
  ∃ ch, channel (publishMessage "user_events" msg w).2 = Some ch ∧
        Amqp.usable (broker (publishMessage "user_events" msg w).2) ch = true ∧
        is_Some (Amqp.queues (broker (publishMessage "user_events" msg w).2) !! "user_events").
Proof.
  intros [(ch & Hch & Hok & [held Hq])|(Hch & Hup & Hnew)].
  - rewrite (publish_on_cached_channel "user_events" msg w ch Hch Hok). simpl.
    destruct (sendToQueue_appends ch "user_events" (JSON_stringify msg) (broker w)
                held Hok Hq) as [Htail Hother].
    split; [done|]. split; [|split; [|split]].
    + rewrite Htail. unfold Amqp.waiting. by rewrite Hq.
    + intros q Hne. by apply Hother.
    + destruct (sendToQueue_channels ch "user_events" (JSON_stringify msg) (broker w))
        as [-> _]. lia.
    + exists ch. simpl. split; [done|]. split.
      * by rewrite usable_after_send.
      * apply declared_after_send. by rewrite Hq.
  - destruct (publish_first_time "user_events" msg w Hch Hup Hnew) as (b & Hb & ->).
    simpl. unfold Amqp.createChannel in Hb. rewrite Hup in Hb. injection Hb as <-.
    set (ch := Amqp.opened (broker w)).
    set (b1 := {| Amqp.reachable := true; Amqp.queues := Amqp.queues (broker w);
                  Amqp.opened := S ch; Amqp.closed := Amqp.closed (broker w) |}).
    assert (Hok1 : Amqp.usable b1 ch = true).
    { unfold Amqp.usable, b1, ch. simpl.
      rewrite bool_decide_eq_true_2 by lia. by rewrite bool_decide_eq_true_2. }
    destruct (declared_after_assert ch b1 Hok1) as [[held Hq] Hok2].
    destruct (sendToQueue_appends ch "user_events" (JSON_stringify msg)
                (Amqp.assertQueue ch "user_events" b1).2 held Hok2 Hq) as [Htail Hother].
    split; [done|]. split; [|split; [|split]].
    + rewrite Htail. f_equal.
      change (Amqp.waiting (broker w) "user_events") with (Amqp.waiting b1 "user_events").
      rewrite <- (waiting_after_assert ch b1). unfold Amqp.waiting. by rewrite Hq.
    + intros q Hne. rewrite Hother by done. by rewrite waiting_after_assert.
    + destruct (sendToQueue_channels ch "user_events" (JSON_stringify msg)
                  (Amqp.assertQueue ch "user_events" b1).2) as [-> _].
      rewrite opened_after_assert. simpl. lia.
    + exists ch. simpl. split; [done|]. split.
      * by rewrite usable_after_send.
      * apply declared_after_send. by rewrite Hq.
Qed.

(** X9.  A publisher that can publish puts the message at the tail of
    ["user_events"], touches no other queue, opens at most one channel and
    can publish again. *)
Theorem publish_appends_to_the_queue (msg : list (string * string)) (w : World) :
  ready w →
  (publishMessage "user_events" msg w).1 = Returned () ∧
  Amqp.waiting (broker (publishMessage "user_events" msg w).2) "user_events" =
    Amqp.waiting (broker w) "user_events" ++ [JSON_stringify msg] ∧
  (∀ q, q ≠ "user_events" →
     Amqp.waiting (broker (publishMessage "user_events" msg w).2) q =
     Amqp.waiting (broker w) q) ∧
  Amqp.opened (broker (publishMessage "user_events" msg w).2) ≤ S (Amqp.opened (broker w)) ∧
  ready (publishMessage "user_events" msg w).2.
Proof.
  intros Hready. destruct (publish_when_ready msg w Hready) as (H1 & H2 & H3 & H4 & H5).
  repeat split; try done. by left.
Qed.

(** X10.  On a usable channel a publish to a queue name that is not declared
    is reported as sent, [publishMessage] returns, and the message is in no
    queue: the broker is as it was. *)
Theorem publish_to_undeclared_queue_is_lost
    (q : string) (msg : list (string * string)) (w : World) (ch : nat) :
  channel w = Some ch →
  Amqp.usable (broker w) ch = true →
  Amqp.queues (broker w) !! q = None →
  publishMessage q msg w =
    (Returned (),
     {| users := users w; broker := broker w; channel := Some ch;
        trace := trace w ++ [Sent q (JSON_stringify msg)] ++ [Console (MessageSent msg)] |}).
Proof.
  intros Hch Hok Hq. rewrite (publish_on_cached_channel q msg w ch Hch Hok).
  unfold Amqp.sendToQueue. by rewrite Hok, Hq.
Qed.

End QueueFacts.

(** ** The controller over many requests *)

Section ControllerFacts.

Import UserService Operation.

Lemma head_filter_found (P : User → Prop) `{∀ u, Decision (P u)} (l : list User) (u : User) :
  head (filter P l) = Some u → u ∈ l ∧ P u.
Proof.
  intros Hsome. assert (Hin : u ∈ filter P l).
  { destruct (filter P l) as [|v k]; [discriminate|]. injection Hsome as ->.
    apply elem_of_cons. by left. }
  by apply list_elem_of_filter in Hin as [HP Hin].
Qed.

Lemma well_formed_body (body : Form.t) :
  ¬ malformed body →
  ∃ e p n,
    body = {| Form.email := Some e; Form.password := Some p; Form.name := Some n |} ∧
    isValidEmail (VString e) = Returned true ∧ isValidName (VString n) = true ∧
    isValidPassword (VString p) = Returned true.
Proof.
  intros Hwf. destruct (well_formed_members body Hwf) as (e & p & n & ->).
  exists e, p, n. split; [done|]. unfold malformed, Form.body in Hwf. simpl in Hwf.
  rewrite email_refused_string in Hwf.
  unfold isValidEmail, isValidPassword, test in *. simpl in *. repeat split.
  - destruct (RegExp.test emailPattern e); [done|]. exfalso. apply Hwf. left.
    by rewrite orb_true_r.
  - destruct (_ && _); [done|]. exfalso. apply Hwf. right. by left.
  - destruct (RegExp.test passwordPattern p); [done|]. exfalso. apply Hwf. right. by right.
Qed.

Lemma ready_same_broker (w w' : World) :
  broker w' = broker w → channel w' = channel w → ready w → ready w'.
Proof. unfold ready. by intros -> ->. Qed.

Lemma remove_first_in (id : string) (l : list User) (v : User) :
  v ∈ remove_first id l → v ∈ l.
Proof.
  induction l as [|u l IH]; simpl; [done|]. destruct (decide (_id u = id)).
  - intros Hv. apply elem_of_cons. by right.
  - rewrite !elem_of_cons. intros [->|Hv]; [by left|right; auto].
Qed.

Lemma remove_first_NoDup {A} (f : User → A) (id : string) (l : list User) :
  NoDup (f <$> l) → NoDup (f <$> remove_first id l).
Proof.
  induction l as [|u l IH]; intros Hnd; simpl; [done|].
  rewrite fmap_cons in Hnd. apply NoDup_cons in Hnd as [Hfresh Hnd].
  destruct (decide (_id u = id)); [done|]. rewrite fmap_cons. apply NoDup_cons.
  split; [|auto]. intros Hin. apply Hfresh.
  apply list_elem_of_fmap in Hin as (v & -> & Hv).
  apply list_elem_of_fmap_2. by eapply remove_first_in.
Qed.

Lemma remove_first_gone (id : string) (l : list User) :
  NoDup (_id <$> l) → ∀ v, v ∈ remove_first id l → _id v ≠ id.
Proof.
  induction l as [|u l IH]; intros Hnd v; simpl.
  - intros Hv. by apply elem_of_nil in Hv.
  - rewrite fmap_cons in Hnd. apply NoDup_cons in Hnd as [Hfresh Hnd].
    destruct (decide (_id u = id)) as [Heq|Hne].
    + intros Hv Hid. apply Hfresh. rewrite Heq, <- Hid. by apply list_elem_of_fmap_2.
    + rewrite elem_of_cons. intros [->|Hv]; [done|by apply IH].
Qed.

Variable bcrypt_hash : string → string.
Variable ObjectId : list User → string.
Variable castForQuery : Value → Completion Error (string → bool).
Variable castString : Value → Completion Error string.
Variable castObjectId : string → option string.

Local Abbreviation signup :=
  (UserService.signup bcrypt_hash ObjectId castForQuery castString).
Local Abbreviation getUserById := (UserService.getUserById castObjectId).
Local Abbreviation deleteUser := (UserService.deleteUser castObjectId).
Local Abbreviation history :=
  (Operation.history bcrypt_hash ObjectId castForQuery castString castObjectId).

#[local] Arguments email_refused : simpl never.
#[local] Arguments isValidName : simpl never.
#[local] Arguments isValidPassword : simpl never.
#[local] Arguments isValidEmail : simpl never.

Ltac run_handler :=
  unfold UserService.signup, create, respond, try_catch, bind, ret, eval, throw,
    console, emit; simpl.

(** The user [signup] creates out of a form and the world with that user
    stored, before the publish. *)
Let created (body : Form.t) (w : World) : User :=
  {| _id := ObjectId (users w); email := String_ (Form.email body);
     password := bcrypt_hash (String_ (Form.password body));
     name := String_ (Form.name body) |}.

Let stored (body : Form.t) (w : World) : World :=
  {| users := users w ++ [created body w]; broker := broker w; channel := channel w;
     trace := trace w ++ [Created (created body w)] |}.

Let announcement (u : User) : list (string * string) :=
  [("userId", _id u); ("email", email u); ("name", name u); ("event", "user_signup")].

(** [signup] either refuses a malformed or conflicting form and changes
    nothing, or stores the user and goes on to publish. *)
Lemma signup_cases (body : Form.t) (w : World) :
  (∃ msg, (malformed body ∨ conflicting body (users w)) ∧
          signup body w =
            (Returned {| status := 400; json := Message msg |}, w)) ∨
  (¬ malformed body ∧ ¬ conflicting body (users w) ∧
   signup body w =
     match publishMessage "user_events" (announcement (created body w)) (stored body w) with
     | (Returned _, w2) =>
       (Returned {| status := 201; json := Result (created body w) |}, w2)
     | (Threw e, w2) =>
       (Returned {| status := 500; json := Message "Something went wrong" |},
        {| users := users w2; broker := broker w2; channel := channel w2;
           trace := trace w2 ++ [Console (SignupError e)] |})
     end).
Proof.
  destruct (malformed_dec body) as [Hbad|Hwf].
  { left.
    destruct (signup_refusal_of_form bcrypt_hash ObjectId castForQuery castString body w
                (or_introl Hbad)) as (msg & Hrun & _).
    exists msg. split; [by left|done]. }
  destruct (well_formed_body body Hwf) as (e & p & n & -> & He & Hn & Hp).
  unfold conflicting, stored, announcement, created. simpl.
  assert (Hemail : email_refused (VString e) = Returned false).
  { rewrite email_refused_string.
    unfold isValidEmail, test in He. simpl in He. injection He as He. rewrite He.
    f_equal. apply orb_false_iff. split; [|done]. apply orb_false_iff.
    destruct (String.eqb_spec e EmptyString) as [->|_]; [by vm_compute in He|].
    split; [done|]. apply negb_false_iff.
    destruct (includes_at e) eqn:Hat; [done|]. exfalso.
    unfold malformed, Form.body in Hwf. simpl in Hwf. apply Hwf. left.
    rewrite email_refused_string, Hat. simpl. by rewrite orb_true_r. }
  unfold isValidPassword, test in Hp. simpl in Hp. injection Hp as Hp.
  run_handler. rewrite Hemail. simpl. rewrite Hn. simpl.
  unfold isValidPassword, test. simpl. rewrite Hp. simpl.
  destruct (head (filter (λ u, email u = e) (users w))) as [u1|] eqn:Hbyemail; simpl.
  { left. apply head_filter_found in Hbyemail as [Hin Heq].
    eexists. split; [right; exists u1; split; [done|by left]|done]. }
  destruct (head (filter (λ u, name u = n) (users w))) as [u2|] eqn:Hbyname; simpl.
  { left. apply head_filter_found in Hbyname as [Hin Heq].
    eexists. split; [right; exists u2; split; [done|by right]|done]. }
  right. split; [done|]. split.
  - intros (u & Hu & [H|H]).
    + by apply (head_filter_None _ _ Hbyemail u).
    + by apply (head_filter_None _ _ Hbyname u).
  - by destruct (publishMessage _ _ _) as [[|err] w2].
Qed.

(** [deleteUser] finds no user and changes nothing, or is stopped by an id
    that does not cast, or removes the user and goes on to publish. *)
Lemma deleteUser_cases (id : string) (w : World) :
  ((∀ u, u ∈ users w → _id u ≠ id) ∧
   match castObjectId id with
   | None =>
     deleteUser id w =
       (Returned {| status := 404; json := Message "User not found" |}, w)
   | Some msg =>
     deleteUser id w =
       (Returned {| status := 500; json := Message "Something went wrong" |},
        {| users := users w; broker := broker w; channel := channel w;
           trace := trace w ++ [Console (ErrorDeletingUser (CastError msg))] |})
   end) ∨
  ((∃ u, u ∈ users w ∧ _id u = id) ∧
   deleteUser id w =
     match publishMessage "user_events" [("userId", id); ("event", "user_delete")]
             {| users := remove_first id (users w); broker := broker w;
                channel := channel w; trace := trace w ++ [Deleted id] |} with
     | (Returned _, w2) =>
       (Returned {| status := 200; json := Message "User deleted successfully" |},
        {| users := users w2; broker := broker w2; channel := channel w2;
           trace := trace w2 ++ [Console (UserDeletedAndPublished id)] |})
     | (Threw e, w2) =>
       (Returned {| status := 500; json := Message "Something went wrong" |},
        {| users := users w2; broker := broker w2; channel := channel w2;
           trace := trace w2 ++ [Console (ErrorDeletingUser e)] |})
     end).
Proof.
  unfold UserService.deleteUser, try_catch, bind.
  destruct (head (filter (λ u, _id u = id) (users w))) as [u|] eqn:Hfound.
  - right. apply head_filter_found in Hfound as Hu. destruct Hu as [Hin Heq].
    split; [eauto|].
    destruct (findById_outcomes castObjectId id w) as [->|(msg & _ & Hnot & _)];
      [|by destruct (Hnot u Hin)].
    rewrite Hfound.
    rewrite findByIdAndDelete_stored by (rewrite <- Heq; by apply list_elem_of_fmap_2).
    by destruct (publishMessage _ _ _) as [[|e] w2].
  - left. assert (Hnone : ∀ u, u ∈ users w → _id u ≠ id).
    { intros u Hu. by apply (head_filter_None _ _ Hfound u). }
    split; [done|]. rewrite (findById_absent castObjectId id w Hnone).
    by destruct (castObjectId id).
Qed.

(** [getUserById] for an id that is not in the store. *)
Lemma getUserById_absent (id : string) (w : World) :
  (∀ u, u ∈ users w → _id u ≠ id) →
  getUserById id w =
    match castObjectId id with
    | None => (Returned {| status := 404; json := Message "User not found" |}, w)
    | Some msg => (Returned {| status := 500; json := Message msg |}, w)
    end.
Proof.
  intros Hnone. unfold UserService.getUserById, try_catch, bind.
  rewrite (findById_absent castObjectId id w Hnone).
  by destruct (castObjectId id).
Qed.

Lemma getUserById_world (id : string) (w : World) : (getUserById id w).2 = w.
Proof.
  unfold UserService.getUserById, try_catch, bind.
  destruct (findById_outcomes castObjectId id w) as [->|(msg & _ & _ & ->)]; [|done].
  by destruct (head _).
Qed.

(** X11.  With the publisher able to publish, the signup of a new user
    followed by the deletion of that user is answered 201 then 200 and leaves
    the two events at the tail of ["user_events"] in that order, over one
    channel at most. *)
Theorem signup_then_delete_are_queued_in_order (body : Form.t) (w : World) :
  ready w →
  ¬ malformed body →
  ¬ conflicting body (users w) →
  let u := created body w in
  let w1 := (signup body w).2 in
  let w2 := (deleteUser (_id u) w1).2 in
  (signup body w).1 = Returned {| status := 201; json := Result u |} ∧
  (deleteUser (_id u) w1).1 =
    Returned {| status := 200; json := Message "User deleted successfully" |} ∧
  Amqp.waiting (broker w2) "user_events" =
    Amqp.waiting (broker w) "user_events" ++
    [JSON_stringify (announcement u);
     JSON_stringify [("userId", _id u); ("event", "user_delete")]] ∧
  Amqp.opened (broker w2) ≤ S (Amqp.opened (broker w)).
Proof.
  intros Hready Hwf Hnew. cbv zeta.
  destruct (signup_cases body w) as [(msg & Hbad & _)|(_ & _ & Hsignup)];
    [by destruct Hbad|].
  assert (Hready1 : ready (stored body w)) by by apply (ready_same_broker w).
  pose proof (publishMessage_outcomes "user_events" (announcement (created body w))
                (stored body w)) as [Husers1 _].
  destruct (publish_when_ready (announcement (created body w)) (stored body w) Hready1)
    as (Hr1 & Htail1 & _ & Hopened1 & Hready2).
  rewrite Hsignup. clear Hsignup.
  destruct (publishMessage "user_events" (announcement (created body w)) (stored body w))
    as [r1 w1]. cbn [fst snd] in *. subst r1. cbn [fst snd]. split; [done|].
  destruct (deleteUser_cases (_id (created body w)) w1)
    as [[Hnone _]|[_ Hdelete]].
  { exfalso. apply (Hnone (created body w)); [|done]. rewrite Husers1.
    apply elem_of_app. right. by apply list_elem_of_singleton. }
  rewrite Hdelete. clear Hdelete.
  destruct Hready2 as (ch & Hch & Hok & Hq).
  match goal with |- context [publishMessage ?q ?m ?w0] =>
    assert (Hready3 : ready w0) by (left; exists ch; by repeat split);
    pose proof (publish_on_cached_opens_nothing q m w0 ch Hch) as Hopened2;
    destruct (publish_when_ready m w0 Hready3) as (Hr2 & Htail2 & _ & _ & _);
    destruct (publishMessage q m w0) as [r2 w3] end.
  cbn [fst snd broker] in *. subst r2. cbn [fst snd broker]. split; [done|]. split.
  - rewrite Htail2, Htail1. by rewrite <- app_assoc.
  - unfold stored in Hopened1. simpl in Hopened1. lia.
Qed.

Lemma users_after_signup (body : Form.t) (w : World) :
  users (signup body w).2 = users w ∨
  (¬ malformed body ∧ ¬ conflicting body (users w) ∧
   users (signup body w).2 = users w ++ [created body w] ∧
   ∃ r, (signup body w).1 = Returned r ∧ status r ≠ 400).
Proof.
  destruct (signup_cases body w) as [(msg & _ & ->)|(Hwf & Hnew & ->)];
    [by left|right].
  pose proof (publishMessage_outcomes "user_events" (announcement (created body w))
                (stored body w)) as [Husers _].
  destruct (publishMessage _ _ _) as [[|e] w2]; simpl in *;
    (split; [done|]); (split; [done|]); (split; [done|]); eexists; split; done.
Qed.

Lemma users_after_delete (id : string) (w : World) :
  (users (deleteUser id w).2 = users w ∧ ∀ u, u ∈ users w → _id u ≠ id) ∨
  users (deleteUser id w).2 = remove_first id (users w).
Proof.
  destruct (deleteUser_cases id w) as [[Hnone Hrun]|[_ ->]]; [left|right].
  - split; [|done]. by destruct (castObjectId id); rewrite Hrun.
  - match goal with |- context [publishMessage ?q ?m ?w0] =>
      pose proof (publishMessage_outcomes q m w0) as [Husers _];
      destruct (publishMessage q m w0) as [[|e] w2] end; done.
Qed.

Lemma signup_keeps_consistent (body : Form.t) (w : World) :
  consistent (users w) → consistent (users (signup body w).2).
Proof.
  intros (Hemails & Hnames & Hvalid).
  destruct (users_after_signup body w) as [->|(Hwf & Hnew & -> & _)]; [done|].
  apply well_formed_body in Hwf as (e & p & n & -> & Hve & Hvn & _).
  unfold created. simpl. unfold conflicting in Hnew. simpl in Hnew. repeat split.
  - rewrite fmap_app. apply NoDup_app. repeat split; [done| |apply NoDup_singleton].
    intros x Hx Hx'. apply list_elem_of_singleton in Hx'. simpl in Hx'. subst x.
    apply list_elem_of_fmap in Hx as (v & Hv & Hin). apply Hnew. exists v. auto.
  - rewrite fmap_app. apply NoDup_app. repeat split; [done| |apply NoDup_singleton].
    intros x Hx Hx'. apply list_elem_of_singleton in Hx'. simpl in Hx'. subst x.
    apply list_elem_of_fmap in Hx as (v & Hv & Hin). apply Hnew. exists v. auto.
  - apply Forall_app. split; [done|]. by repeat constructor.
Qed.

Lemma delete_keeps_consistent (id : string) (w : World) :
  consistent (users w) → consistent (users (deleteUser id w).2).
Proof.
  intros (Hemails & Hnames & Hvalid).
  destruct (users_after_delete id w) as [[-> _]| ->]; [done|].
  repeat split; try by apply remove_first_NoDup.
  apply Forall_forall. intros v Hv. apply remove_first_in in Hv.
  rewrite Forall_forall in Hvalid. by apply Hvalid.
Qed.


Lemma signup_email_taken (body : Form.t) (w : World) (v : User) :
  ¬ malformed body →
  v ∈ users w →
  email v = String_ (Form.email body) →
  signup body w =
    (Returned {| status := 400; json := Message "User with this email already exists" |}, w).
Proof.
  intros Hwf Hv Hemail.
  destruct (signup_refusal_of_form bcrypt_hash ObjectId castForQuery castString body w)
    as (msg & Hrun & _ & _ & _ & _ & Htaken & _).
  - right. exists v. split; [done|by left].
  - rewrite Hrun, Htaken; [done|done|by exists v].
Qed.

(** X23.  A form gets a 400 response exactly when one of the three format
    checks refuses it or a stored user has its email or its name.  The world
    is then exactly as it was: no user written, nothing sent, nothing logged,
    no channel opened; and the message is that of the first check, in the
    order of the code, that the form fails. *)
Theorem signup_refusal_names_the_cause (body : Form.t) (w : World) :
  (malformed body ∨ conflicting body (users w) →
   ∃ msg,
     signup body w = (Returned {| status := 400; json := Message msg |}, w) ∧
     msg ∈ refusals ∧
     (email_refused (Body.email body) = Returned true → msg = "Invalid email format") ∧
     (email_refused (Body.email body) = Returned false →
      isValidName (Body.name body) = false →
      msg = "Name must be between 3 and 15 characters long") ∧
     (email_refused (Body.email body) = Returned false →
      isValidName (Body.name body) = true →
      isValidPassword (Body.password body) = Returned false →
      msg = "Password must be between 6 and 15 characters long, include at least one letter, one number, and one special character") ∧
     (¬ malformed body →
      (∃ u, u ∈ users w ∧ email u = String_ (Form.email body)) →
      msg = "User with this email already exists") ∧
     (¬ malformed body →
      (¬ ∃ u, u ∈ users w ∧ email u = String_ (Form.email body)) →
      msg = "User with this name already exists")) ∧
  (¬ (malformed body ∨ conflicting body (users w)) →
   ∀ msg, (signup body w).1 ≠ Returned {| status := 400; json := Message msg |}).
Proof.
  split; [apply signup_refusal_of_form|].
  intros Hgood msg.
  destruct (signup_cases body w) as [(msg' & Hbad & _)|(_ & _ & ->)]; [done|].
  by destruct (publishMessage _ _ _) as [[|e] w2].
Qed.


(** X14.  Once [deleteUser] has run for an id, in a store whose ids are
    unique, the user is gone for every later request, whether or not the
    delete event could be published: nothing is found and nothing changes
    but the log.  For an id that casts to the type of [_id], [getUserById]
    and [deleteUser] answer 404; for one that does not, Mongoose throws a
    CastError and they answer 500, [getUserById] with the message of the
    error and [deleteUser] with the generic message, after logging it. *)
Theorem deleted_user_is_gone (id : string) (w w' : World) :
  NoDup (_id <$> users w) →
  users w' = users (deleteUser id w).2 →
  match castObjectId id with
  | None =>
    getUserById id w' =
      (Returned {| status := 404; json := Message "User not found" |}, w') ∧
    deleteUser id w' =
      (Returned {| status := 404; json := Message "User not found" |}, w')
  | Some msg =>
    getUserById id w' = (Returned {| status := 500; json := Message msg |}, w') ∧
    deleteUser id w' =
      (Returned {| status := 500; json := Message "Something went wrong" |},
       {| users := users w'; broker := broker w'; channel := channel w';
          trace := trace w' ++ [Console (ErrorDeletingUser (CastError msg))] |})
  end.
Proof.
  intros Hnd Husers.
  assert (Hgone : ∀ v, v ∈ users w' → _id v ≠ id).
  { rewrite Husers. destruct (users_after_delete id w) as [[-> Hnone]| ->]; [done|].
    by apply remove_first_gone. }
  pose proof (getUserById_absent id w' Hgone) as Hget.
  destruct (deleteUser_cases id w') as [[_ Hdelete]|[(u & Hu & Hid) _]];
    [|by destruct (Hgone u Hu)].
  by destruct (castObjectId id).
Qed.

(** X15.  A user whose signup was answered 201 is what [getUserById] returns
    for the new id from then on, the ids of the store being unique and the
    new id not in use before. *)
Theorem created_user_can_be_fetched (body : Body.t) (w w' : World) (u : User) :
  (signup body w).1 = Returned {| status := 201; json := Result u |} →
  NoDup (_id <$> users w) →
  _id u ∉ _id <$> users w →
  users w' = users (signup body w).2 →
  getUserById (_id u) w' = (Returned {| status := 200; json := Document u |}, w').
Proof.
  intros Hcreated Hnd Hfresh Husers.
  assert (Hstored : users w' = users w ++ [u]).
  { destruct (signup_outcomes bcrypt_hash ObjectId castForQuery castString body w)
      as [(msg & Hr & _)|[(e & Hr & _)|
          (u0 & _ & Hu & [(Hr & _)|(e & logs & Hr & _)])]];
      cbv zeta in *; rewrite Hr in Hcreated; try discriminate Hcreated.
    injection Hcreated as ->. by rewrite Husers. }
  assert (Hin : u ∈ users w').
  { rewrite Hstored. apply elem_of_app. right. by apply list_elem_of_singleton. }
  assert (Hfind : head (filter (λ v, _id v = _id u) (users w')) = Some u).
  { apply findById_unique; [done|]. rewrite Hstored.
    rewrite fmap_app. apply NoDup_app. repeat split; [done| |apply NoDup_singleton].
    intros x Hx Hx'. apply list_elem_of_singleton in Hx'. by subst. }
  unfold UserService.getUserById, try_catch, bind.
  destruct (findById_outcomes castObjectId (_id u) w') as [->|(msg & _ & Hnot & _)];
    [|by destruct (Hnot u Hin)].
  by rewrite Hfind.
Qed.

End ControllerFacts.
(** ** From the User Service to the shadow store *)

Section EndToEnd.

Import PostService.

Variable bcrypt_hash : string → string.
Variable ObjectId : list UserService.User → string.
Variable castForQuery : Value → Completion UserService.Error (string → bool).
Variable castString : Value → Completion UserService.Error string.
Variable castObjectId : string → option string.

Local Abbreviation signup :=
  (UserService.signup bcrypt_hash ObjectId castForQuery castString).
Local Abbreviation deleteUser := (UserService.deleteUser castObjectId).

Variable schema : option string → option string → option string → option ShadowUser.

(** The store of the consumer once a signup event has been delivered and its
    insert has completed. *)
Lemma signup_event_delivered (c : Consumer) (q : string) (tag : nat) (id e n : string) :
  subscription c = Some q →
  schema (Some id) (Some e) (Some n) = Some {| _id := id; email := Some e; name := Some n |} →
  id ∉ _id <$> users (db c) →
  db (complete schema (length (pending c))
        (deliver handleUserEvent
           {| Amqp.deliveryTag := tag;
              Amqp.content := JSON_stringify [("userId", id); ("email", e); ("name", n);
                                              ("event", "user_signup")] |} c)) =
    {| users := users (db c) ++ [{| _id := id; email := Some e; name := Some n |}];
       posts := posts (db c) |}.
Proof using.
  intros Hsub Hschema Hnew. unfold deliver. rewrite Hsub. unfold onMessage. simpl.
  unfold complete. simpl. rewrite list_lookup_middle by done. simpl.
  unfold create. rewrite Hschema. simpl. rewrite bool_decide_eq_false_2 by done.
  simpl. done.
Qed.

(** The store of the consumer once a delete event has been delivered and its
    removal has completed. *)
Lemma delete_event_delivered (c : Consumer) (q : string) (tag : nat) (id : string) :
  subscription c = Some q →
  db (complete schema (length (pending c))
        (deliver handleUserEvent
           {| Amqp.deliveryTag := tag;
              Amqp.content := JSON_stringify [("userId", id); ("event", "user_delete")] |}
           c)) =
    {| users := remove_first (matches (Some id)) (users (db c)); posts := posts (db c) |}.
Proof using.
  intros Hsub. unfold deliver. rewrite Hsub. unfold onMessage. simpl.
  unfold complete. simpl. rewrite list_lookup_middle by done. simpl. done.
Qed.

(** X16.  What a signup answered 201 has sent, once delivered to a consumer
    that is registered and completed, adds to the shadow store the record
    with the id, email and name of the user the User Service stored, and
    nothing else (the schema taking the record and the id being new there). *)
Theorem signup_reaches_the_shadow_store
    (body : UserService.Body.t) (w : UserService.World) (u : UserService.User)
    (c : Consumer) (q : string) (tag : nat) :
  (signup body w).1 =
    Returned {| UserService.status := 201; UserService.json := UserService.Result u |} →
  subscription c = Some q →
  schema (Some (UserService._id u)) (Some (UserService.email u)) (Some (UserService.name u)) =
    Some {| _id := UserService._id u; email := Some (UserService.email u);
            name := Some (UserService.name u) |} →
  UserService._id u ∉ _id <$> users (db c) →
  ∃ content,
    UserService.Sent "user_events" content
      ∈ UserService.trace (signup body w).2 ∧
    u ∈ UserService.users (signup body w).2 ∧
    db (complete schema (length (pending c))
          (deliver handleUserEvent {| Amqp.deliveryTag := tag; Amqp.content := content |} c)) =
      {| users := users (db c) ++
                  [{| _id := UserService._id u; email := Some (UserService.email u);
                      name := Some (UserService.name u) |}];
         posts := posts (db c) |}.
Proof.
  intros Hcreated Hsub Hschema Hnew.
  destruct (signup_outcomes bcrypt_hash ObjectId castForQuery castString body w)
    as [(msg & Hr & _)|[(e & Hr & _)|
        (u0 & _ & Hu & [(Hr & logs & _ & Htr)|(e & logs & Hr & _)])]];
    cbv zeta in *; rewrite Hr in Hcreated; try discriminate.
  injection Hcreated as ->.
  eexists. split; [|split].
  - rewrite Htr. rewrite !elem_of_app. right. right. right. left.
    by apply list_elem_of_singleton.
  - rewrite Hu. apply elem_of_app. right. by apply list_elem_of_singleton.
  - by apply (signup_event_delivered c q).
Qed.

(** X17.  What a deletion answered 200 has sent, once delivered to a consumer
    that is registered and completed, leaves the shadow store without a record
    of that id; the posts, those of that user included, are as they were. *)
Theorem delete_reaches_the_shadow_store
    (id : string) (w : UserService.World) (c : Consumer) (q : string) (tag : nat) :
  (deleteUser id w).1 =
    Returned {| UserService.status := 200;
                UserService.json := UserService.Message "User deleted successfully" |} →
  subscription c = Some q →
  unique_ids (db c) →
  ∃ content,
    UserService.Sent "user_events" content
      ∈ UserService.trace (deleteUser id w).2 ∧
    with_id id
      (users (db (complete schema (length (pending c))
                    (deliver handleUserEvent
                       {| Amqp.deliveryTag := tag; Amqp.content := content |} c)))) = [] ∧
    posts (db (complete schema (length (pending c))
                 (deliver handleUserEvent
                    {| Amqp.deliveryTag := tag; Amqp.content := content |} c))) =
      posts (db c).
Proof.
  intros Hdeleted Hsub Hnd.
  destruct (deleteUser_outcomes castObjectId id w)
    as [(Hr & _)|[(msg & _ & Hr & _)|[(Hr & Hu & logs & _ & Htr)|(e & logs & Hr & _)]]];
    cbv zeta in *; rewrite Hr in Hdeleted; try discriminate.
  eexists. split; [|split].
  - rewrite Htr. rewrite !elem_of_app. right. right. right. left.
    by apply list_elem_of_singleton.
  - rewrite (delete_event_delivered c q) by done. simpl.
    apply with_id_absent. by apply remove_first_ids.
  - by rewrite (delete_event_delivered c q).
Qed.

End EndToEnd.

(** ** Signing in *)

Section SigninFacts.

Import UserService Auth.

Lemma filter_none (P : User → Prop) `{∀ u, Decision (P u)} (l : list User) :
  (∀ v, v ∈ l → ¬ P v) → filter P l = [].
Proof.
  induction l as [|u l IH]; intros Hnone; [done|].
  rewrite filter_cons_False by (apply Hnone, elem_of_cons; by left).
  apply IH. intros v Hv. apply Hnone, elem_of_cons. by right.
Qed.

Variable bcrypt_hash : string → string.
Variable ObjectId : list User → string.
Variable castForQuery : Value → Completion Error (string → bool).
Variable castString : Value → Completion Error string.
Variable JWT_SECRET : option string.
Variable bcrypt_compare : string → string → bool.
Variable jwt_sign : string → string → string → string → string.
Variable joinDate_of : User → option string.
Variable postCount_of : User → option nat.

Local Abbreviation signup :=
  (UserService.signup bcrypt_hash ObjectId castForQuery castString).
Local Abbreviation signin :=
  (Auth.signin JWT_SECRET bcrypt_compare jwt_sign castForQuery joinDate_of postCount_of).

#[local] Arguments isValidEmail : simpl never.

(** The 200 response for a stored user, and the response of the [catch]. *)
Let welcome (u : User) : Reply :=
  {| status := 200;
     json := SignedIn "User signed in successfully"
               {| Auth.email := UserService.email u; id := _id u;
                  Auth.name := UserService.name u;
                  joinDate := joinDate_of u; postCount := postCount_of u;
                  token := jwt_sign (UserService.email u) (_id u)
                             (secret JWT_SECRET) tokenExpiry |} |}.

Let failure : Reply := {| status := 500; json := Refused "Something went wrong" |}.

Let logged (w : World) (e : Error) : World :=
  {| users := users w; broker := broker w; channel := channel w;
     trace := trace w ++ [Console (SigninError e)] |}.

Ltac run_signin :=
  unfold Auth.signin, reply, try_catch, bind, ret, eval, throw, console, emit.

(** The user a query selects is in the store, and has the email asked for
    when that is a string. *)
Lemma findOne_selected (v : Value) (w : World) (u : User) :
  (findOne castForQuery UserService.email v w).1 = Returned (Some u) →
  u ∈ users w ∧ ∀ e, v = VString e → UserService.email u = e.
Proof.
  unfold findOne, bind, eval.
  destruct v as [| | | |s| |]; simpl;
    try (destruct (castForQuery _) as [selects|err]; simpl; [|discriminate];
         intros [= Hhead]; apply head_filter_Some in Hhead as [Hin _];
         split; [done|discriminate]).
  intros [= Hhead]. apply head_filter_Some in Hhead as [Hin Hemail].
  split; [done|]. by intros e [= <-].
Qed.

(** X18.  [signin] writes nothing to the store and sends nothing.  It answers
    200 only when the password of the request is a string that
    [bcrypt.compare] accepts against the hash of a stored user, the one the
    query for the email of the request selects (whose email it is, when that
    is a string); the response is then made from that user's document and
    nothing is logged.  When something throws, the error is logged and the
    answer is the generic 500; so it is for the email of a stored user given
    with a password that is not a string, such as a number, which
    [bcrypt.compare] does not take. *)
Theorem signin_needs_the_password (creds : Credentials.t) (w : World) :
  (∃ r,
     (signin creds w = (Returned r, w) ∨
      ∃ e, r = failure ∧ signin creds w = (Returned r, logged w e)) ∧
     (Auth.status r = 200 →
      ∃ u p,
        u ∈ users w ∧
        (∀ e, Credentials.email creds = VString e → UserService.email u = e) ∧
        Credentials.password creds = VString p ∧
        bcrypt_compare p (password u) = true ∧
        signin creds w = (Returned (welcome u), w))) ∧
  (∀ e u,
     Credentials.email creds = VString e →
     isValidEmail (VString e) = Returned true →
     head (filter (λ v, UserService.email v = e) (users w)) = Some u →
     falsy (Credentials.password creds) = false →
     (∀ p, Credentials.password creds ≠ VString p) →
     signin creds w =
       (Returned failure,
        logged w (IllegalArguments (typeof (Credentials.password creds)) "string"))).
Proof.
  split.
  - run_signin.
    destruct (falsy (Credentials.email creds) || falsy (Credentials.password creds))
      eqn:Hgiven; simpl; [eexists; split; [by left|discriminate]|].
    destruct (isValidEmail (Credentials.email creds)) as [[|]|err]; simpl;
      [|eexists; split; [by left|discriminate]
       |exists failure; split; [right; by exists err|discriminate]].
    pose proof (findOne_world castForQuery UserService.email (Credentials.email creds) w)
      as Hworld.
    pose proof (findOne_selected (Credentials.email creds) w) as Hselected.
    destruct (findOne castForQuery UserService.email (Credentials.email creds) w)
      as [[[u|]|err] w1]; simpl in Hworld; subst w1; simpl;
      [|eexists; split; [by left|discriminate]
       |exists failure; split; [right; by exists err|discriminate]].
    destruct (Hselected u eq_refl) as [Hin Hemail].
    unfold compare, ret, throw.
    destruct (Credentials.password creds) as [| | | |p| |]; simpl;
      try (exists failure; split; [right; by eexists|discriminate]).
    destruct (bcrypt_compare p (password u)) eqn:Hpassword; simpl;
      [|eexists; split; [by left|discriminate]].
    eexists. split; [by left|]. intros _. by exists u, p.
  - intros e u He Hvalid Hfound Hgiven Hother.
    unfold isValidEmail, test in Hvalid. simpl in Hvalid. injection Hvalid as Hvalid.
    run_signin. rewrite He. simpl.
    destruct (String.eqb_spec e EmptyString) as [->|_]; [by vm_compute in Hvalid|].
    rewrite Hgiven. unfold isValidEmail, test. simpl. rewrite Hvalid. simpl.
    rewrite Hfound. simpl.
    unfold compare, throw.
    destruct (Credentials.password creds) as [| | | |p| |]; simpl; try done.
    by destruct (Hother p).
Qed.

Lemma signin_welcomes (w : World) (u : User) (e p : string) :
  isValidEmail (VString e) = Returned true →
  p ≠ EmptyString →
  head (filter (λ v, UserService.email v = e) (users w)) = Some u →
  bcrypt_compare p (password u) = true →
  signin {| Credentials.email := VString e; Credentials.password := VString p |} w =
    (Returned (welcome u), w).
Proof.
  intros Hvalid Hp Hfound Hcompare.
  unfold isValidEmail, test in Hvalid. simpl in Hvalid. injection Hvalid as Hvalid.
  run_signin. simpl.
  destruct (String.eqb_spec e EmptyString) as [->|_]; [by vm_compute in Hvalid|].
  destruct (String.eqb_spec p EmptyString) as [->|_]; [done|].
  unfold isValidEmail, test. simpl.
  rewrite Hvalid. simpl. rewrite Hfound. simpl. unfold compare, ret.
  by rewrite Hcompare.
Qed.


End SigninFacts.
(** ** The route tables *)

Section RouteFacts.

Import Express.

Lemma select_member {H} (table : list (Route H)) (m : Method) (segments : list string)
    (r : Route H) :
  select table m segments = Reached r →
  r ∈ table ∧ handles r m = true ∧ path_matches (path r) segments = true.
Proof.
  induction table as [|r0 table IH]; simpl; [done|].
  assert (Hlater : select table m segments = Reached r →
                   r ∈ r0 :: table ∧ handles r m = true ∧
                   path_matches (path r) segments = true).
  { intros Hsel. destruct (IH Hsel) as (Hin & Hm & Hp).
    split; [apply elem_of_cons; by right|done]. }
  destruct (path_matches (path r0) segments) eqn:Hp; [|done].
  destruct (params_decode (path r0) segments); [|done].
  destruct (handles r0 m) eqn:Hm; [|done].
  intros [= <-]. split; [apply elem_of_cons; by left|done].
Qed.

Lemma handles_method {H} (r : Route H) (m : Method) :
  handles r m = true → method r = m ∨ (m = HEAD ∧ method r = GET).
Proof.
  unfold handles. rewrite orb_true_iff, andb_true_iff, !bool_decide_eq_true. tauto.
Qed.

Lemma select_literal {H} (r : Route H) (table : list (Route H)) (text s : string) :
  method r = GET →
  path r = [Literal text] →
  select (r :: table) GET [s] =
    if String.eqb (lowercase text) (lowercase s) then Reached r else select table GET [s].
Proof.
  intros Hm Hp. simpl. unfold handles. rewrite Hm, Hp. simpl.
  by rewrite andb_true_r.
Qed.

Ltac each_route Hin :=
  repeat (apply elem_of_cons in Hin as [->|Hin]); [..|by apply elem_of_nil in Hin].

(** X20.  The Post Service routes requests to six handlers only:
    [createPost], [updatePost], [deletePost] and [likePost] are imported and
    never reached, and a request whose method is not GET, HEAD or PATCH
    reaches no handler at all. *)
Theorem post_routes_reach_no_writer (m : Method) (segments : list string)
    (r : Route PostHandler) :
  select postRoutes m segments = Reached r →
  (m = GET ∨ m = HEAD ∨ m = PATCH) ∧
  ∀ h, h ∈ handlers r → h ∉ [createPost; updatePost; deletePost; likePost].
Proof.
  intros Hsel. apply select_member in Hsel as (Hin & Hm & _).
  apply handles_method in Hm. unfold postRoutes in Hin.
  each_route Hin; simpl in *.
  all: split; [destruct Hm as [<-|[-> _]]; auto|].
  all: intros h Hh; apply list_elem_of_singleton in Hh as ->.
  all: rewrite !not_elem_of_cons; repeat split; try discriminate; apply not_elem_of_nil.
Qed.

(** X21.  A GET for a path of one segment reaches [getLatestPosts],
    [getPostsByCreator] or [getPostsBySearch] when the segment is, up to case,
    [latest], [creator] or [search], the routes of these three names coming
    first; every other segment is taken as the [id] of [getPost] when it can
    be percent-decoded, and is answered as a bad request, no handler being
    reached, when it cannot. *)
Theorem post_route_of_one_segment (s : string) :
  s ≠ EmptyString →
  select postRoutes GET [s] =
    if decide (lowercase s = "latest") then
      Reached {| method := GET; path := [Literal "latest"]; handlers := [getLatestPosts] |}
    else if decide (lowercase s = "creator") then
      Reached {| method := GET; path := [Literal "creator"];
                 handlers := [getPostsByCreator] |}
    else if decide (lowercase s = "search") then
      Reached {| method := GET; path := [Literal "search"];
                 handlers := [getPostsBySearch] |}
    else if decodable s then
      Reached {| method := GET; path := [Param "id"]; handlers := [getPost] |}
    else BadRequest.
Proof.
  intros Hs. unfold postRoutes.
  rewrite (select_literal _ _ "latest") by done.
  change (lowercase "latest") with "latest".
  destruct (String.eqb_spec "latest" (lowercase s)) as [<-|Hlatest]; [done|].
  rewrite decide_False by congruence.
  rewrite (select_literal _ _ "creator") by done.
  change (lowercase "creator") with "creator".
  destruct (String.eqb_spec "creator" (lowercase s)) as [<-|Hcreator]; [done|].
  rewrite decide_False by congruence.
  rewrite (select_literal _ _ "search") by done.
  change (lowercase "search") with "search".
  destruct (String.eqb_spec "search" (lowercase s)) as [<-|Hsearch]; [done|].
  rewrite decide_False by congruence.
  cbn -[String.eqb decodable]. apply String.eqb_neq in Hs. rewrite Hs. cbn -[decodable].
  rewrite andb_true_r. by destruct (decodable s).
Qed.

(** X22.  In the User Service [signup] is reached only after [validateUser]
    and only by POST; [deleteUser] is reached only by a POST to a path of two
    segments, [delete] first, and [getUserById] only by a GET or HEAD for a
    path of one segment. *)
Theorem user_routes_reach (m : Method) (segments : list string) (r : Route UserHandler) :
  select userRoutes m segments = Reached r →
  (signup ∈ handlers r → m = POST ∧ handlers r = [validateUser; signup]) ∧
  (deleteUser ∈ handlers r →
   m = POST ∧
   ∃ a id, segments = [a; id] ∧ lowercase a = "delete") ∧
  (getUserById ∈ handlers r →
   (m = GET ∨ m = HEAD) ∧
   ∃ id, segments = [id]).
Proof.
  intros Hsel. apply select_member in Hsel as (Hin & Hm & Hp).
  apply handles_method in Hm. unfold userRoutes in Hin.
  each_route Hin; cbn -[String.eqb] in *.
  all: (split; [|split]); intros Hh;
       repeat (apply elem_of_cons in Hh as [Hh|Hh]); try discriminate;
       try (by apply elem_of_nil in Hh).
  all: destruct Hm as [<-|[-> Hget]]; try discriminate Hget.
  all: try done.
  all: (split; [by auto|]).
  - destruct segments as [|id [|]]; try discriminate;
      cbn -[String.eqb] in Hp; try (by rewrite andb_false_r in Hp).
    by exists id.
  - destruct segments as [|id [|]]; try discriminate;
      cbn -[String.eqb] in Hp; try (by rewrite andb_false_r in Hp).
    by exists id.
  - destruct segments as [|a [|id [|]]]; try discriminate;
      cbn -[String.eqb] in Hp; try (by rewrite ?andb_false_r in Hp).
    exists a, id. split; [done|].
    apply andb_true_iff in Hp as [Ha _]. apply String.eqb_eq in Ha.
    symmetry. exact Ha.
Qed.

End RouteFacts.

(** ** The properties at work on the scenario *)

Lemma run_keeps_unique_ids_witness :
  PostService.unique_ids
    (PostService.db (PostService.run Scenario.lenient Cases.crossed (Scenario.listening []))).
Proof.
  apply (run_keeps_unique_ids Scenario.lenient Cases.crossed (Scenario.listening [])).
  apply NoDup_nil_2.
Defined.

Lemma event_leaves_other_ids_witness :
  PostService.with_id "u1"
    (PostService.users
       (PostService.apply_event Scenario.lenient (JObject Cases.bob_signup)
          {| PostService.users := [Scenario.alice]; PostService.posts := [] |}).1.2) =
  [Scenario.alice].
Proof.
  apply (event_leaves_other_ids Scenario.lenient Cases.bob_signup "u1" "u2"
           {| PostService.users := [Scenario.alice]; PostService.posts := [] |}).
  - reflexivity.
  - discriminate.
  - intros e n doc [= <-]. reflexivity.
Defined.

Lemma signup_then_delete_restores_witness :
  (PostService.apply_event Scenario.lenient (JObject Scenario.alice_delete)
     (PostService.apply_event Scenario.lenient (JObject Scenario.alice_signup)
        {| PostService.users := []; PostService.posts := [Scenario.a_post] |}).1.2).1.2 =
  {| PostService.users := []; PostService.posts := [Scenario.a_post] |}.
Proof.
  apply (signup_then_delete_restores Scenario.lenient Scenario.alice_signup
           Scenario.alice_delete "u1").
  - reflexivity.
  - reflexivity.
  - reflexivity.
  - reflexivity.
  - reflexivity.
  - apply not_elem_of_nil.
Defined.

Lemma delete_before_signup_leaves_record_witness :
  PostService.with_id "u1"
    (PostService.users
       (PostService.apply_event Scenario.lenient (JObject Scenario.alice_signup)
          (PostService.apply_event Scenario.lenient (JObject Scenario.alice_delete)
             {| PostService.users := [Scenario.alice]; PostService.posts := [] |}).1.2).1.2) =
    [Scenario.alice] ∧
  PostService.with_id "u1"
    (PostService.users
       (PostService.apply_event Scenario.lenient (JObject Scenario.alice_delete)
          (PostService.apply_event Scenario.lenient (JObject Scenario.alice_signup)
             {| PostService.users := [Scenario.alice]; PostService.posts := [] |}).1.2).1.2) =
    [].
Proof.
  apply (delete_before_signup_leaves_record Scenario.lenient Scenario.alice_signup
           Scenario.alice_delete "u1").
  - reflexivity.
  - reflexivity.
  - reflexivity.
  - reflexivity.
  - reflexivity.
  - apply NoDup_singleton.
Defined.

Lemma consumer_without_broker_stays_idle_witness :
  PostService.consumeMessages Scenario.down_broker
    (PostService.boot {| PostService.users := []; PostService.posts := [Scenario.a_post] |}) =
    (Scenario.down_broker,
     {| PostService.db := {| PostService.users := []; PostService.posts := [Scenario.a_post] |};
        PostService.channel := None; PostService.subscription := None;
        PostService.pending := []; PostService.unacked := [];
        PostService.trace :=
          [PostService.Console (PostService.ConnectionError Amqp.ConnectionRefused);
           PostService.Console (PostService.ErrorConsumingMessage Amqp.ConnectionRefused)] |}) ∧
  PostService.run Scenario.lenient Cases.crossed
    (PostService.consumeMessages Scenario.down_broker
       (PostService.boot {| PostService.users := []; PostService.posts := [Scenario.a_post] |})).2 =
  (PostService.consumeMessages Scenario.down_broker
     (PostService.boot {| PostService.users := []; PostService.posts := [Scenario.a_post] |})).2.
Proof.
  apply (consumer_without_broker_stays_idle Scenario.lenient Scenario.down_broker
           {| PostService.users := []; PostService.posts := [Scenario.a_post] |}
           Cases.crossed).
  reflexivity.
Defined.

Lemma publish_appends_to_the_queue_witness :
  Amqp.waiting
    (UserService.broker
       (UserService.publishMessage "user_events" Scenario.alice_signup
          (UserService.boot [] Scenario.fresh_broker)).2) "user_events" =
  [JSON_stringify Scenario.alice_signup].
Proof.
  apply (publish_appends_to_the_queue Scenario.alice_signup
           (UserService.boot [] Scenario.fresh_broker)).
  right. split; [reflexivity|]. split; [reflexivity|]. apply not_elem_of_empty.
Defined.

Lemma publish_to_undeclared_queue_is_lost_witness :
  UserService.publishMessage "user_event" Scenario.alice_delete Cases.announced =
    (Returned (),
     {| UserService.users := UserService.users Cases.announced;
        UserService.broker := UserService.broker Cases.announced;
        UserService.channel := Some 0;
        UserService.trace :=
          UserService.trace Cases.announced
            ++ [UserService.Sent "user_event" (JSON_stringify Scenario.alice_delete)]
            ++ [UserService.Console (UserService.MessageSent Scenario.alice_delete)] |}).
Proof.
  apply (publish_to_undeclared_queue_is_lost "user_event" Scenario.alice_delete
           Cases.announced 0).
  - vm_compute. reflexivity.
  - vm_compute. reflexivity.
  - vm_compute. reflexivity.
Defined.

Lemma signup_then_delete_are_queued_in_order_witness :
  Amqp.waiting
    (UserService.broker
       (UserService.deleteUser Scenario.cast_id "u1"
          (UserService.signup Scenario.hash Scenario.oid Scenario.filter_strings
            Scenario.cast_strings (UserService.Form.body Scenario.alice_body)
             (UserService.boot [] Scenario.fresh_broker)).2).2) "user_events" =
  [JSON_stringify Scenario.alice_signup; JSON_stringify Scenario.alice_delete].
Proof.
  apply (signup_then_delete_are_queued_in_order Scenario.hash Scenario.oid
           Scenario.filter_strings Scenario.cast_strings Scenario.cast_id
           Scenario.alice_body (UserService.boot [] Scenario.fresh_broker)).
  - right. split; [reflexivity|]. split; [reflexivity|]. apply not_elem_of_empty.
  - intros [H|[H|H]]; vm_compute in H; discriminate H.
  - intros (u & Hu & _). apply elem_of_nil in Hu. exact Hu.
Defined.



Lemma deleted_user_is_gone_witness :
  match Scenario.cast_id "u1" with
  | None =>
    UserService.getUserById Scenario.cast_id "u1"
      (UserService.boot [] Scenario.fresh_broker) =
      (Returned {| UserService.status := 404;
                   UserService.json := UserService.Message "User not found" |},
       UserService.boot [] Scenario.fresh_broker) ∧
    UserService.deleteUser Scenario.cast_id "u1"
      (UserService.boot [] Scenario.fresh_broker) =
      (Returned {| UserService.status := 404;
                   UserService.json := UserService.Message "User not found" |},
       UserService.boot [] Scenario.fresh_broker)
  | Some msg =>
    UserService.getUserById Scenario.cast_id "u1"
      (UserService.boot [] Scenario.fresh_broker) =
      (Returned {| UserService.status := 500;
                   UserService.json := UserService.Message msg |},
       UserService.boot [] Scenario.fresh_broker) ∧
    UserService.deleteUser Scenario.cast_id "u1"
      (UserService.boot [] Scenario.fresh_broker) =
      (Returned {| UserService.status := 500;
                   UserService.json := UserService.Message "Something went wrong" |},
       {| UserService.users := UserService.users (UserService.boot [] Scenario.fresh_broker);
          UserService.broker := UserService.broker (UserService.boot [] Scenario.fresh_broker);
          UserService.channel :=
            UserService.channel (UserService.boot [] Scenario.fresh_broker);
          UserService.trace :=
            UserService.trace (UserService.boot [] Scenario.fresh_broker) ++
            [UserService.Console
               (UserService.ErrorDeletingUser (UserService.CastError msg))] |})
  end.
Proof.
  apply (deleted_user_is_gone Scenario.cast_id "u1" Scenario.stale_world
           (UserService.boot [] Scenario.fresh_broker)).
  - apply NoDup_singleton.
  - vm_compute. reflexivity.
Defined.

Lemma created_user_can_be_fetched_witness :
  UserService.getUserById Scenario.cast_id "u1" (UserService.boot [Scenario.alice_record] Scenario.down_broker) =
    (Returned {| UserService.status := 200;
                 UserService.json := UserService.Document Scenario.alice_record |},
     UserService.boot [Scenario.alice_record] Scenario.down_broker).
Proof.
  apply (created_user_can_be_fetched Scenario.hash Scenario.oid
           Scenario.filter_strings Scenario.cast_strings Scenario.cast_id
           (UserService.Form.body Scenario.alice_body)
           (UserService.boot [] Scenario.fresh_broker)
           (UserService.boot [Scenario.alice_record] Scenario.down_broker)
           Scenario.alice_record).
  - vm_compute. reflexivity.
  - apply NoDup_nil_2.
  - apply not_elem_of_nil.
  - vm_compute. reflexivity.
Defined.

Lemma signup_reaches_the_shadow_store_witness :
  ∃ content,
    UserService.Sent "user_events" content
      ∈ UserService.trace
          (UserService.signup Scenario.hash Scenario.oid Scenario.filter_strings
            Scenario.cast_strings (UserService.Form.body Scenario.alice_body)
             (UserService.boot [] Scenario.fresh_broker)).2 ∧
    Scenario.alice_record
      ∈ UserService.users
          (UserService.signup Scenario.hash Scenario.oid Scenario.filter_strings
            Scenario.cast_strings (UserService.Form.body Scenario.alice_body)
             (UserService.boot [] Scenario.fresh_broker)).2 ∧
    PostService.db
      (PostService.complete Scenario.lenient
         (length (PostService.pending (Scenario.listening [])))
         (PostService.deliver PostService.handleUserEvent
            {| Amqp.deliveryTag := 1; Amqp.content := content |}
            (Scenario.listening []))) =
    {| PostService.users := [Scenario.alice]; PostService.posts := [Scenario.a_post] |}.
Proof.
  apply (signup_reaches_the_shadow_store Scenario.hash Scenario.oid
           Scenario.filter_strings Scenario.cast_strings Scenario.lenient
           (UserService.Form.body Scenario.alice_body)
           (UserService.boot [] Scenario.fresh_broker)
           Scenario.alice_record (Scenario.listening []) "user_events" 1).
  - vm_compute. reflexivity.
  - reflexivity.
  - reflexivity.
  - apply not_elem_of_nil.
Defined.

Lemma delete_reaches_the_shadow_store_witness :
  ∃ content,
    UserService.Sent "user_events" content
      ∈ UserService.trace
          (UserService.deleteUser Scenario.cast_id "u1"
             (UserService.boot [Scenario.alice_record] Scenario.fresh_broker)).2 ∧
    PostService.with_id "u1"
      (PostService.users
         (PostService.db
            (PostService.complete Scenario.lenient
               (length (PostService.pending (Scenario.listening [Scenario.alice])))
               (PostService.deliver PostService.handleUserEvent
                  {| Amqp.deliveryTag := 2; Amqp.content := content |}
                  (Scenario.listening [Scenario.alice]))))) = [] ∧
    PostService.posts
      (PostService.db
         (PostService.complete Scenario.lenient
            (length (PostService.pending (Scenario.listening [Scenario.alice])))
            (PostService.deliver PostService.handleUserEvent
               {| Amqp.deliveryTag := 2; Amqp.content := content |}
               (Scenario.listening [Scenario.alice])))) = [Scenario.a_post].
Proof.
  apply (delete_reaches_the_shadow_store Scenario.cast_id Scenario.lenient "u1"
           (UserService.boot [Scenario.alice_record] Scenario.fresh_broker)
           (Scenario.listening [Scenario.alice]) "user_events" 2).
  - vm_compute. reflexivity.
  - reflexivity.
  - apply NoDup_singleton.
Defined.


Lemma post_routes_reach_no_writer_witness :
  (Express.PATCH = Express.GET ∨ Express.PATCH = Express.HEAD ∨
   Express.PATCH = Express.PATCH) ∧
  ∀ h, h ∈ [Express.incrementViews] →
       h ∉ [Express.createPost; Express.updatePost; Express.deletePost; Express.likePost].
Proof.
  apply (post_routes_reach_no_writer Express.PATCH ["42"; "VIEW"]
           {| Express.method := Express.PATCH;
              Express.path := [Express.Param "id"; Express.Literal "view"];
              Express.handlers := [Express.incrementViews] |}).
  reflexivity.
Defined.

Lemma post_route_of_one_segment_witness :
  Express.select Express.postRoutes Express.GET ["%E0%A4%A"] =
    if decide (Express.lowercase "%E0%A4%A" = "latest") then
      Express.Reached {| Express.method := Express.GET;
                         Express.path := [Express.Literal "latest"];
                         Express.handlers := [Express.getLatestPosts] |}
    else if decide (Express.lowercase "%E0%A4%A" = "creator") then
      Express.Reached {| Express.method := Express.GET;
                         Express.path := [Express.Literal "creator"];
                         Express.handlers := [Express.getPostsByCreator] |}
    else if decide (Express.lowercase "%E0%A4%A" = "search") then
      Express.Reached {| Express.method := Express.GET;
                         Express.path := [Express.Literal "search"];
                         Express.handlers := [Express.getPostsBySearch] |}
    else if Express.decodable "%E0%A4%A" then
      Express.Reached {| Express.method := Express.GET;
                         Express.path := [Express.Param "id"];
                         Express.handlers := [Express.getPost] |}
    else Express.BadRequest.
Proof.
  apply (post_route_of_one_segment "%E0%A4%A"). discriminate.
Defined.

Lemma user_routes_reach_witness :
  (Express.signup ∈ [Express.validateUser; Express.signup] →
   Express.POST = Express.POST ∧
   [Express.validateUser; Express.signup] = [Express.validateUser; Express.signup]) ∧
  (Express.deleteUser ∈ [Express.validateUser; Express.signup] →
   Express.POST = Express.POST ∧
   ∃ a id, ["signup"] = [a; id] ∧ Express.lowercase a = "delete") ∧
  (Express.getUserById ∈ [Express.validateUser; Express.signup] →
   (Express.POST = Express.GET ∨ Express.POST = Express.HEAD) ∧
   ∃ id, ["signup"] = [id]).
Proof.
  apply (user_routes_reach Express.POST ["signup"]
           {| Express.method := Express.POST; Express.path := [Express.Literal "signup"];
              Express.handlers := [Express.validateUser; Express.signup] |}).
  reflexivity.
Defined.
